(** * Trajectory reconstruction pipeline ([data_tools.py])

    A shallow embedding of the stages of [data_tools.py] and the proofs of
    the properties its specification states about them.

    Modelling conventions.
    - A NumPy [float64] is an IEEE 754 binary64 number: a primitive float.
      Sums, differences, products, quotients and square roots round to
      nearest; an overflow gives an infinity, NaN propagates, and every
      comparison with NaN is false.  The bounds that the proofs need are
      derived from the specification of the primitive operations.
    - Functions whose binary64 result IEEE 754 does not fix ([np.arctan2],
      the projection of pyproj, the filters of SciPy) are parameters of the
      stage that calls them; the properties assumed of them are hypotheses
      of the theorem that needs them.
    - A pandas [DataFrame] is a row count (its [RangeIndex]) and an ordered
      list of named, homogeneous columns of dtype [float64], [object]
      (strings) or [datetime64[ns]].  Columns of other dtypes are not
      represented.
    - A Python exception is a value of [exception]; a function that can raise
      returns a [result].
    - The configuration dictionary is a record of optional entries; a missing
      key is [None]. *)

From Stdlib Require Import Ascii String Floats.
From Stdlib Require Import Reals Lra Lia ZArith List Bool Arith Sorted.
Import ListNotations.
Open Scope string_scope.
Open Scope list_scope.
Open Scope nat_scope.

(* ===================================================================== *)
(** * NumPy float64 values *)
(* ===================================================================== *)

Abbreviation float64 := float.

Module Float64.

(** [x >= y]; false when either side is NaN. *)
Definition geb (x y : float) : bool := (y <=? x)%float.

(** C [fmod] on binary64 values: the remainder of the truncated division,
    which is exact and takes the sign of the dividend.  Both operands are
    scaled to their smaller exponent and the remainder is taken on
    integers. *)
Definition fmod (a b : float) : float :=
  match Prim2SF a, Prim2SF b with
  | S754_nan, _ | _, S754_nan => nan
  | S754_infinity _, _ => nan
  | _, S754_zero _ => nan
  | S754_zero _, _ => a
  | S754_finite _ _ _, S754_infinity _ => a
  | S754_finite sa ma ea, S754_finite _ mb eb =>
      let e := Z.min ea eb in
      let r := ((Zpos ma * 2 ^ (ea - e)) mod (Zpos mb * 2 ^ (eb - e)))%Z in
      if (r =? 0)%Z then (if sa then neg_zero else zero)
      else SF2Prim (binary_normalize prec emax
                      (if sa then (- r)%Z else r) e false)
  end.

(** [np.remainder], the [%] of NumPy and of Python floats: [fmod], then the
    divisor is added when the signs differ; that addition rounds. *)
Definition remainder (a b : float) : float :=
  let m := fmod a b in
  if is_zero b then m
  else if is_zero m then (if (b <? 0)%float then neg_zero else zero)
  else if xorb (b <? 0)%float (m <? 0)%float then (m + b)%float
  else m.

(** The nearest binary64 number to pi, and [180.0 / pi]. *)
Definition pi : float := 0x1.921fb54442d18p+1%float.

Definition rad2deg : float := Eval vm_compute in (180 / pi)%float.

(** [np.degrees]: multiplication by the constant [180.0 / pi]. *)
Definition degrees (x : float) : float := (x * rad2deg)%float.

(** The conversion of a 64-bit integer to float64, to nearest. *)
Definition of_int64 (z : Z) : float :=
  SF2Prim (binary_normalize prec emax z 0 false).

End Float64.

(* ===================================================================== *)
(** * The real value of a binary64 number *)
(* ===================================================================== *)

(** [2 ^ e] for an integer exponent. *)
Definition bpow (e : Z) : R := powerRZ 2 e.

(** The value of a specification float; zero for the infinities and NaN. *)
Definition SF2R (x : spec_float) : R :=
  match x with
  | S754_finite s m e => IZR (cond_Zopp s (Zpos m)) * bpow e
  | _ => 0%R
  end.

(** Zeros and finite numbers. *)
Definition SF_finite (x : spec_float) : bool :=
  match x with
  | S754_zero _ | S754_finite _ _ _ => true
  | _ => false
  end.

Definition B2R (x : float) : R := SF2R (Prim2SF x).

(** What [k] right shifts have made of the mantissa [m]: the quotient by
    [2 ^ k], with the round and sticky bits that place the remainder with
    respect to one half. *)
Definition shr_inv (m : Z) (k : nat) (mrs : shr_record) : Prop :=
  exists rem : Z,
    (m = shr_m mrs * 2 ^ Z.of_nat k + rem)%Z /\
    (0 <= rem < 2 ^ Z.of_nat k)%Z /\
    (0 <= shr_m mrs)%Z /\
    (shr_r mrs = true <-> (2 ^ Z.of_nat k <= 2 * rem)%Z) /\
    (shr_s mrs = true <-> (rem <> 0 /\ 2 * rem <> 2 ^ Z.of_nat k)%Z).

(** The binary64 number of mantissa [mr] and exponent [e], where [mr] is at
    most [2 ^ 53]: a mantissa of [2 ^ 53] moves to the next exponent, and an
    exponent above 971 is an overflow. *)
Definition SF_of_rounded (s : bool) (mr e : Z) : spec_float :=
  if (mr =? 0)%Z then S754_zero s
  else if (mr =? 2 ^ 53)%Z then
    (if (e + 1 <=? 971)%Z then S754_finite s (Z.to_pos (2 ^ 52)) (e + 1)
     else S754_infinity s)
  else if (e <=? 971)%Z then S754_finite s (Z.to_pos mr) e
  else S754_infinity s.

(** A binary64 number that is neither NaN nor an infinity. *)
Definition finite (x : float) : bool := SF_finite (Prim2SF x).

(* ===================================================================== *)
(** * Exceptions and results *)
(* ===================================================================== *)

Inductive exception : Type :=
| KeyError (key : string)
| ValueError (message : string)
| TypeError
| IndexError
| OverflowError.

Inductive result (A : Type) : Type :=
| Ok (a : A)
| Raise (e : exception).

Arguments Ok {A} a.
Arguments Raise {A} e.

Definition bind {A B : Type} (r : result A) (k : A -> result B) : result B :=
  match r with
  | Ok a => k a
  | Raise e => Raise e
  end.

Notation "x <- c ;; k" := (bind c (fun x => k))
  (at level 61, c at next level, right associativity).

(** A loop [for i in range: st = body(st, i)] whose body can raise. *)
Fixpoint for_each {S : Type} (body : S -> nat -> result S) (range : list nat)
  (st : S) : result S :=
  match range with
  | [] => Ok st
  | i :: rest => st' <- body st i ;; for_each body rest st'
  end.

(** The results of a list of computations, or the first exception. *)
Fixpoint sequence {A : Type} (l : list (result A)) : result (list A) :=
  match l with
  | [] => Ok []
  | r :: rest => a <- r ;; tl <- sequence rest ;; Ok (a :: tl)
  end.

(* ===================================================================== *)
(** * The configuration dictionary *)
(* ===================================================================== *)

Record Config : Type := {
  lat_col : option string;
  lon_col : option string;
  x_col : option string;
  y_col : option string;
  min_distance : option float64;
  heading_col : option string;
  dt_col : option string
}.

(** [config[key]] *)
Definition getitem {A : Type} (key : string) (entry : option A) : result A :=
  match entry with
  | Some a => Ok a
  | None => Raise (KeyError key)
  end.

(** [config.get(key, default)] *)
Definition get {A : Type} (entry : option A) (default : A) : A :=
  match entry with
  | Some a => a
  | None => default
  end.

(* ===================================================================== *)
(** * DataFrames *)
(* ===================================================================== *)

(** [datetime64[ns]]: nanoseconds since the epoch as a 64-bit integer; the
    smallest 64-bit integer is [NaT], here [None]. *)
Definition datetime64 : Type := option Z.

Inductive column : Type :=
| FloatCol (values : list float64)
| ObjectCol (values : list string)
| DatetimeCol (values : list datetime64).

Definition col_length (c : column) : nat :=
  match c with
  | FloatCol v => length v
  | ObjectCol v => length v
  | DatetimeCol v => length v
  end.

Record DataFrame : Type := {
  index : nat;
  data : list (string * column)
}.

(** [df.columns] *)
Definition columns (df : DataFrame) : list string := map fst (data df).

(** [col in df.columns] *)
Definition has_column (df : DataFrame) (col : string) : bool :=
  existsb (String.eqb col) (columns df).

Fixpoint lookup (col : string) (d : list (string * column)) : option column :=
  match d with
  | [] => None
  | (name, c) :: rest => if String.eqb col name then Some c else lookup col rest
  end.

(** [df[col]] *)
Definition getcol (df : DataFrame) (col : string) : result column :=
  match lookup col (data df) with
  | Some c => Ok c
  | None => Raise (KeyError col)
  end.

Fixpoint assign (col : string) (c : column) (d : list (string * column))
  : list (string * column) :=
  match d with
  | [] => [(col, c)]
  | (name, c0) :: rest =>
      if String.eqb col name then (name, c) :: rest
      else (name, c0) :: assign col c rest
  end.

(** [df[col] = values]: replaces the column in place, or appends it. *)
Definition setcol (df : DataFrame) (col : string) (c : column) : DataFrame :=
  {| index := index df; data := assign col c (data df) |}.

(** [df.empty]: some axis has length zero. *)
Definition empty (df : DataFrame) : bool :=
  (index df =? 0) || (length (data df) =? 0).

(** Every column is as long as the index. *)
Definition well_formed (df : DataFrame) : Prop :=
  Forall (fun nc => col_length (snd nc) = index df) (data df).

Definition take {A : Type} (d : A) (idxs : list nat) (l : list A) : list A :=
  map (fun i => nth i l d) idxs.

Definition take_col (idxs : list nat) (c : column) : column :=
  match c with
  | FloatCol v => FloatCol (take nan idxs v)
  | ObjectCol v => ObjectCol (take EmptyString idxs v)
  | DatetimeCol v => DatetimeCol (take None idxs v)
  end.

(** The rows at the positions [idxs], in that order, under a fresh index. *)
Definition select_rows (df : DataFrame) (idxs : list nat) : DataFrame :=
  {| index := length idxs;
     data := map (fun nc => (fst nc, take_col idxs (snd nc))) (data df) |}.

(** [df.iloc[idxs].reset_index(drop=True)]: positional row selection; a
    position outside the index raises. *)
Definition iloc (df : DataFrame) (idxs : list nat) : result DataFrame :=
  if forallb (fun i => i <? index df) idxs then Ok (select_rows df idxs)
  else Raise IndexError.

(** One cell of a frame. *)
Inductive cell : Type :=
| FloatCell (x : float64)
| ObjectCell (s : string)
| DatetimeCell (t : datetime64).

(** The cells of a column, from the first row to the last. *)
Definition cells (c : column) : list cell :=
  match c with
  | FloatCol v => map FloatCell v
  | ObjectCol v => map ObjectCell v
  | DatetimeCol v => map DatetimeCell v
  end.

Definition cell_at (c : column) (i : nat) : option cell :=
  nth_error (cells c) i.

(** The cell that [take_col] puts at a position outside the column. *)
Definition default_cell (c : column) : cell :=
  match c with
  | FloatCol _ => FloatCell nan
  | ObjectCol _ => ObjectCell EmptyString
  | DatetimeCol _ => DatetimeCell None
  end.

(** Row [i] of a frame: the cell of every column at position [i]. *)
Definition row (df : DataFrame) (i : nat) : list (string * option cell) :=
  map (fun nc => (fst nc, cell_at (snd nc) i)) (data df).

(** [series.diff()] on a float column. *)
Definition diff (v : list float64) : list float64 :=
  match v with
  | [] => []
  | _ :: tl => nan :: map (fun p => (snd p - fst p)%float) (combine v tl)
  end.

(* ===================================================================== *)
(** * Resampler: [data_filter_points_by_distance] *)
(* ===================================================================== *)

Abbreviation point := (float64 * float64)%type.

Definition nan_point : point := (nan, nan).

(** [coords[i] - last_retained_point] on two rows of a float64 array. *)
Definition vsub (p q : point) : point :=
  ((fst p - fst q)%float, (snd p - snd q)%float).

(** [np.linalg.norm] of a float64 vector of two components: the square root
    of the dot product of the vector with itself.  The two products and
    their sum round one after the other. *)
Definition norm (v : point) : float64 :=
  PrimFloat.sqrt (fst v * fst v + snd v * snd v)%float.

Definition distance (p q : point) : float64 := norm (vsub p q).

(** A row of the array [df[[x_col, y_col]].to_numpy()]: the two cells of
    the row.  The array is of dtype [float64] when both columns are. *)
Abbreviation coord := (cell * cell)%type.

Definition float_row (p : point) : coord :=
  (FloatCell (fst p), FloatCell (snd p)).

Definition nan_row : coord := float_row nan_point.

(** [df[[x_col, y_col]].to_numpy()] *)
Definition to_numpy (df : DataFrame) (xc yc : string) : result (list coord) :=
  cx <- getcol df xc ;;
  cy <- getcol df yc ;;
  Ok (combine (cells cx) (cells cy)).

(** The validation loop [for col in [x_col, y_col]]. *)
Fixpoint require_columns (df : DataFrame) (cols : list string) : result unit :=
  match cols with
  | [] => Ok tt
  | col :: rest =>
      if has_column df col then require_columns df rest
      else Raise (ValueError ("Missing column '" ++ col ++
             "'. Ensure planar coordinates exist before calling this function.")%string)
  end.

Section Resampler.

(** [np.linalg.norm(coords[i] - last_retained_point)] on two rows of an
    array that is not of dtype [float64]: what NumPy makes of strings and
    timestamps, a number or an exception, is left open. *)
Variable other_distance : coord -> coord -> result float64.

(** [np.linalg.norm(coords[i] - last_retained_point)] *)
Definition row_distance (p q : coord) : result float64 :=
  match p, q with
  | (FloatCell a, FloatCell b), (FloatCell c, FloatCell d) =>
      Ok (distance (a, b) (c, d))
  | _, _ => other_distance p q
  end.

(** One iteration of the loop over [range(1, len(coords))]; the state is
    [(retained_indices, last_retained_point)]. *)
Definition filter_step (coords : list coord) (m : float64)
  (st : list nat * coord) (i : nat) : result (list nat * coord) :=
  let ci := nth i coords nan_row in
  d <- row_distance ci (snd st) ;;
  if Float64.geb d m then Ok (fst st ++ [i], ci) else Ok st.

Definition retained_indices (coords : list coord) (m : float64)
  : result (list nat) :=
  st <- for_each (filter_step coords m)
                 (seq 1 (length coords - 1))
                 ([0], nth 0 coords nan_row) ;;
  Ok (fst st).

Definition data_filter_points_by_distance (df : DataFrame) (config : Config)
  : result DataFrame :=
  xc <- getitem "x_col" (x_col config) ;;
  yc <- getitem "y_col" (y_col config) ;;
  m <- getitem "min_distance" (min_distance config) ;;
  if empty df then Ok df
  else
    _ <- require_columns df [xc; yc] ;;
    coords <- to_numpy df xc yc ;;
    match coords with
    | [] => Raise IndexError
    | _ :: _ =>
        idxs <- retained_indices coords m ;;
        filtered <- iloc df idxs ;;
        Ok (setcol filtered "min_distance"
                   (FloatCol (repeat m (index filtered))))
    end.

(** The loop of the Resampler as a recursion over the rows that remain:
    [last] is the last retained row and [i] the position of the head of
    [rest]. *)
Fixpoint scan (m : float64) (last : coord) (i : nat) (rest : list coord)
  : result (list nat) :=
  match rest with
  | [] => Ok []
  | c :: rest' =>
      d <- row_distance c last ;;
      if Float64.geb d m then
        tl <- scan m c (S i) rest' ;; Ok (i :: tl)
      else scan m last (S i) rest'
  end.

(** The row [c] is retained after the row [last]. *)
Definition keeps (m : float64) (c last : coord) : bool :=
  match row_distance c last with
  | Ok d => Float64.geb d m
  | Raise _ => false
  end.

(** Every row is retained after the row before it. *)
Fixpoint spaced_rows (m : float64) (cs : list coord) : Prop :=
  match cs with
  | [] => True
  | p :: tl =>
      match tl with
      | [] => True
      | q :: _ => keeps m q p = true /\ spaced_rows m tl
      end
  end.

End Resampler.

(* ===================================================================== *)
(** * String methods *)
(* ===================================================================== *)

(** [s.startswith(p)] *)
Definition startswith (p s : string) : bool := String.prefix p s.

(** [s.split("_")[-1]]: the text after the last underscore. *)
Fixpoint last_field (acc s : string) : string :=
  match s with
  | EmptyString => acc
  | String c rest =>
      if Ascii.eqb c "_"%char then last_field EmptyString rest
      else last_field (acc ++ String c EmptyString)%string rest
  end.

Definition split_last (s : string) : string := last_field EmptyString s.

(** [s.replace(old, new)] for a non-empty [old]: every occurrence, scanning
    from the left; [skip] counts the characters of a match still to drop. *)
Fixpoint replace_from (old new : string) (skip : nat) (s : string) : string :=
  match s with
  | EmptyString => EmptyString
  | String c rest =>
      match skip with
      | S k => replace_from old new k rest
      | O =>
          if String.prefix old s
          then (new ++ replace_from old new (String.length old - 1) rest)%string
          else String c (replace_from old new 0 rest)
      end
  end.

Definition replace (old new s : string) : string := replace_from old new 0 s.

(* ===================================================================== *)
(** * Projector: [data_convert_to_planar] *)
(* ===================================================================== *)

Section Projector.

(** The tkinter dialog.  [ask_user initial values] is what
    [selected_method_var.get()] returns once the window is closed: the
    variable starts at [initial] and the read-only drop-down offers
    [values]. *)
Variable ask_user : string -> list string -> string.

(** The pyproj transformer from EPSG:4326 to EPSG:32633 with
    [always_xy=True], on one (longitude, latitude) pair. *)
Variable transform : float64 -> float64 -> float64 * float64.

(** [transformer.transform(df[lon_col].values, df[lat_col].values)] *)
Definition transform_columns (df : DataFrame) (lon lat : string)
  : result (list float64 * list float64) :=
  clon <- getcol df lon ;;
  clat <- getcol df lat ;;
  match clon, clat with
  | FloatCol lons, FloatCol lats =>
      let xy := map (fun p => transform (fst p) (snd p)) (combine lons lats) in
      Ok (map fst xy, map snd xy)
  | _, _ => Raise TypeError
  end.

(** The three-way choice of the latitude and longitude columns; returns
    [(lat_col, lon_col, selected_method)]. *)
Definition select_columns (df : DataFrame) (config : Config)
  : result (string * string * string) :=
  let smoothed_lat_columns :=
    filter (startswith "GPS_lat_smooth_") (columns df) in
  let smoothed_lon_columns :=
    map (replace "GPS_lat" "GPS_lon") smoothed_lat_columns in
  match smoothed_lat_columns, smoothed_lon_columns with
  | first :: _ :: _, _ =>
      let selected_method :=
        ask_user (split_last first) (map split_last smoothed_lat_columns) in
      let lat := ("GPS_lat_smooth_" ++ selected_method)%string in
      let lon := ("GPS_lon_smooth_" ++ selected_method)%string in
      if negb (has_column df lat) || negb (has_column df lon) then
        Raise (ValueError ("Invalid selection: " ++ selected_method ++ ". " ++
                           "Columns " ++ lat ++ " and " ++ lon ++
                           " not found.")%string)
      else Ok (lat, lon, selected_method)
  | [lat], lon :: _ => Ok (lat, lon, split_last lat)
  | _, _ =>
      lat <- getitem "lat_col" (lat_col config) ;;
      lon <- getitem "lon_col" (lon_col config) ;;
      Ok (lat, lon, "none")
  end.

Definition data_convert_to_planar (df : DataFrame) (config : Config)
  : result DataFrame :=
  sel <- select_columns df config ;;
  let '(lat, lon, selected_method) := sel in
  xy <- transform_columns df lon lat ;;
  let df := setcol df "x" (FloatCol (fst xy)) in
  let df := setcol df "y" (FloatCol (snd xy)) in
  Ok (setcol df "selected_smoothing_method"
             (ObjectCol (repeat selected_method (index df)))).

End Projector.

(* ===================================================================== *)
(** * Temporal Differencer: [parse_time_and_compute_dt] *)
(* ===================================================================== *)

(** [timedelta64[ns]]: a number of nanoseconds as a 64-bit integer; the
    smallest 64-bit integer is [NaT], here [None]. *)
Definition timedelta64 : Type := option Z.

Definition int64_min : Z := (- 2 ^ 63)%Z.

Definition int64_max : Z := (2 ^ 63 - 1)%Z.

(** The difference of two timestamps as pandas 2 takes it in
    [DatetimeArray.__sub__], by an addition of 64-bit integers that checks
    for overflow: [NaT] on either side gives [NaT], a difference outside the
    64-bit range raises, and the smallest 64-bit integer reads as [NaT]. *)
Definition sub_datetime (later earlier : datetime64) : result timedelta64 :=
  match later, earlier with
  | Some b, Some a =>
      let d := (b - a)%Z in
      if (d <? int64_min)%Z || (int64_max <? d)%Z then Raise OverflowError
      else if (d =? int64_min)%Z then Ok None
      else Ok (Some d)
  | _, _ => Ok None
  end.

(** [series.diff()] on a datetime column: the column minus the column
    shifted by one row. *)
Definition diff_datetime (v : list datetime64) : result (list timedelta64) :=
  match v with
  | [] => Ok []
  | _ :: tl =>
      rest <- sequence (map (fun p => sub_datetime (snd p) (fst p))
                            (combine v tl)) ;;
      Ok (None :: rest)
  end.

(** [.dt.total_seconds()] on one value, as pandas 2 computes it: the count
    of nanoseconds, converted to float64, over [10^9]; [NaT] becomes NaN. *)
Definition total_seconds (td : timedelta64) : float64 :=
  match td with
  | Some ns => (Float64.of_int64 ns / 1000000000)%float
  | None => nan
  end.

Section TemporalDifferencer.

(** [pd.to_datetime] on a column: the parsed timestamps, or the exception
    pandas raises on a value it cannot parse. *)
Variable to_datetime : column -> result (list datetime64).

Definition parse_time_and_compute_dt (df : DataFrame) (datetime_col : string)
  : result DataFrame :=
  raw <- getcol df datetime_col ;;
  parsed <- to_datetime raw ;;
  let df := setcol df datetime_col (DatetimeCol parsed) in
  stamps <- getcol df datetime_col ;;
  match stamps with
  | DatetimeCol ts =>
      deltas <- diff_datetime ts ;;
      Ok (setcol df "dt" (FloatCol (map total_seconds deltas)))
  | _ => Raise TypeError
  end.

End TemporalDifferencer.

(* ===================================================================== *)
(** * Kinematics Estimator *)
(* ===================================================================== *)

(** A binary NumPy ufunc applied to two columns, element by element. *)
Definition map2 (f : float64 -> float64 -> float64) (a b : list float64)
  : list float64 :=
  map (fun p => f (fst p) (snd p)) (combine a b).

(** [(deg + 360) % 360] *)
Definition normalize_heading (deg : float64) : float64 :=
  Float64.remainder (deg + 360) 360.

Section Heading.

(** [np.arctan2]: the [atan2] of the C library, or of the vector library
    NumPy was built with. *)
Variable arctan2 : float64 -> float64 -> float64.

Definition data_compute_heading_from_xy (df : DataFrame) (config : Config)
  : result DataFrame :=
  let xc := get (x_col config) "x" in
  let yc := get (y_col config) "y" in
  let hc := get (heading_col config) "heading_deg" in
  if negb (has_column df xc) || negb (has_column df yc) then
    Raise (ValueError ("Required columns '" ++ xc ++ "' and/or '" ++ yc ++
                       "' not found in DataFrame.")%string)
  else
    cx <- getcol df xc ;;
    cy <- getcol df yc ;;
    match cx, cy with
    | FloatCol xs, FloatCol ys =>
        let dx := diff xs in
        let dy := diff ys in
        let heading_rad := map2 arctan2 dy dx in
        let heading_deg := map Float64.degrees heading_rad in
        let heading_deg := map normalize_heading heading_deg in
        Ok (setcol df hc (FloatCol heading_deg))
    | _, _ => Raise TypeError
    end.

End Heading.

(** [(heading_diff + 180) % 360 - 180] *)
Definition wrap_diff (d : float64) : float64 :=
  (Float64.remainder (d + 180) 360 - 180)%float.

Definition data_compute_yaw_rate_from_heading (df : DataFrame) (config : Config)
  : result DataFrame :=
  let hc := get (heading_col config) "heading_deg" in
  let dc := get (dt_col config) "dt" in
  if negb (has_column df hc) || negb (has_column df dc) then
    Raise (ValueError ("Required columns '" ++ hc ++ "' and/or '" ++ dc ++
                       "' not found in DataFrame.")%string)
  else
    ch <- getcol df hc ;;
    match ch with
    | FloatCol headings =>
        let heading_diff := diff headings in
        let heading_diff := map wrap_diff heading_diff in
        cd <- getcol df dc ;;
        match cd with
        | FloatCol dt_vals =>
            let yaw_rate_deg_s := map2 PrimFloat.div heading_diff dt_vals in
            Ok (setcol df "yaw_rate_deg_s" (FloatCol yaw_rate_deg_s))
        | _ => Raise TypeError
        end
    | _ => Raise TypeError
    end.

(* ===================================================================== *)
(** * Smoothing Stage: [data_smooth_gps_savitzky] *)
(* ===================================================================== *)

(** The message of the [ValueError] that [scipy.signal.savgol_filter] raises
    in its default mode when the window is longer than the data. *)
Definition window_message : string :=
  "If mode is 'interp', window_length must be less than or equal to the size of x.".

Section Smoothing.

(** [scipy.signal.savgol_filter(x, window_length, polyorder)] *)
Variable savgol_filter : column -> nat -> nat -> result (list float64).

(** The stage assigns into the frame it is given.  The model returns the
    state of that frame when the call ends together with the outcome: the
    returned frame, or the exception that ended the call. *)
Definition data_smooth_gps_savitzky (df : DataFrame) (config : Config)
  : DataFrame * result DataFrame :=
  match lat_col config, lon_col config with
  | Some lat, Some lon =>
      let window_length := 51 in
      let polyorder := 2 in
      match (c <- getcol df lat ;; savgol_filter c window_length polyorder) with
      | Raise e => (df, Raise e)
      | Ok smoothed_lat =>
          let df := setcol df (lat ++ "_smooth_savitzky")%string
                           (FloatCol smoothed_lat) in
          match (c <- getcol df lon ;; savgol_filter c window_length polyorder) with
          | Raise e => (df, Raise e)
          | Ok smoothed_lon =>
              let df := setcol df (lon ++ "_smooth_savitzky")%string
                               (FloatCol smoothed_lon) in
              (df, Ok df)
          end
      end
  | _, _ =>
      (df, Raise (KeyError "Configuration must include 'lat_col' and 'lon_col'."))
  end.

End Smoothing.

(* ===================================================================== *)
(** * Smoothing Stage: [data_smooth_gps_gaussian] *)
(* ===================================================================== *)

Section GaussianSmoothing.

(** [scipy.ndimage.gaussian_filter1d(input, sigma)] *)
Variable gaussian_filter1d : column -> nat -> result (list float64).

(** As for [data_smooth_gps_savitzky], the model returns the state of the
    frame when the call ends together with the outcome. *)
Definition data_smooth_gps_gaussian (df : DataFrame) (config : Config)
  : DataFrame * result DataFrame :=
  match lat_col config, lon_col config with
  | Some lat, Some lon =>
      let sigma := 2 in
      match (c <- getcol df lat ;; gaussian_filter1d c sigma) with
      | Raise e => (df, Raise e)
      | Ok smoothed_lat =>
          let df := setcol df (lat ++ "_smooth_gaussian")%string
                           (FloatCol smoothed_lat) in
          match (c <- getcol df lon ;; gaussian_filter1d c sigma) with
          | Raise e => (df, Raise e)
          | Ok smoothed_lon =>
              let df := setcol df (lon ++ "_smooth_gaussian")%string
                               (FloatCol smoothed_lon) in
              (df, Ok df)
          end
      end
  | _, _ =>
      (df, Raise (KeyError "Configuration must include 'lat_col' and 'lon_col'."))
  end.

End GaussianSmoothing.

(* ===================================================================== *)
(** * Outlier removal: [delete_outliers.py] *)
(* ===================================================================== *)

(** The positions at which a boolean mask holds, counted from [i]. *)
Fixpoint true_positions (i : nat) (mask : list bool) : list nat :=
  match mask with
  | [] => []
  | b :: rest =>
      if b then i :: true_positions (S i) rest
      else true_positions (S i) rest
  end.

(** [df[mask]] for a boolean series [mask]: the rows at which the mask holds,
    in their order.  The labels that such a frame keeps from its parent are
    not represented; the script writes the frame without them. *)
Definition boolean_index (df : DataFrame) (mask : list bool) : DataFrame :=
  select_rows df (true_positions 0 mask).

(** [a & b] on two boolean series. *)
Definition mask_and (a b : list bool) : list bool :=
  map (fun p => fst p && snd p) (combine a b).

(** Line 11 of the script, on the frame that line 8 has read:
    [df[(df['yaw_rate_deg_s'] >= -3) & (df['yaw_rate_deg_s'] <= 3)]].  The
    comparison of a column of strings or of timestamps with a number
    raises. *)
Definition delete_outliers (df : DataFrame) : result DataFrame :=
  lower <- getcol df "yaw_rate_deg_s" ;;
  upper <- getcol df "yaw_rate_deg_s" ;;
  match lower, upper with
  | FloatCol lo, FloatCol up =>
      Ok (boolean_index df
            (mask_and (map (fun y => Float64.geb y (-3)) lo)
                      (map (fun y => (y <=? 3)%float) up)))
  | _, _ => Raise TypeError
  end.

(* ===================================================================== *)
(** * The Resampler as the specification words it *)
(* ===================================================================== *)

(** The Euclidean distance of two planar points as binary64 arithmetic
    gives it: the square root of the sum of the squares of the two
    coordinate differences, each operation rounded to nearest. *)
Definition euclidean (p q : point) : float64 :=
  PrimFloat.sqrt ((fst p - fst q) * (fst p - fst q)
                  + (snd p - snd q) * (snd p - snd q))%float.

(** The retained position a candidate [i] is measured against: the last
    element of [idxs] that lies before [i]. *)
Definition last_retained_before (idxs : list nat) (i : nat) : nat :=
  last (filter (fun j => j <? i) idxs) 0.

(** [idxs] are the positions of a greedy subsequence of [coords]: positions in
    their original order, the first sample among them, and every later
    sample among them exactly when it lies at least [m] away from the
    retained sample before it. *)
Record greedy_subsequence (coords : list point) (m : float64)
  (idxs : list nat) : Prop := {
  gs_order : StronglySorted lt idxs;
  gs_range : Forall (fun i => i < length coords) idxs;
  gs_first : In 0 idxs;
  gs_rule : forall i, 1 <= i < length coords ->
    (In i idxs <->
     (m <=? euclidean (nth i coords nan_point)
                      (nth (last_retained_before idxs i) coords nan_point))%float
     = true)
}.

(** Every consecutive pair of points is at least [m] apart. *)
Fixpoint spaced (m : float64) (cs : list point) : Prop :=
  match cs with
  | [] => True
  | p :: tl =>
      match tl with
      | [] => True
      | q :: _ => (m <=? euclidean q p)%float = true /\ spaced m tl
      end
  end.

Definition finite_point (p : point) : Prop :=
  finite (fst p) = true /\ finite (snd p) = true.

(** A threshold that is zero, negative or minus infinity. *)
Definition non_positive (m : float64) : Prop := (m <=? 0)%float = true.

(** The square of the exact distance of two points with finite
    coordinates. *)
Definition exact_square_distance (p q : point) : R :=
  ((B2R (fst p) - B2R (fst q)) * (B2R (fst p) - B2R (fst q))
   + (B2R (snd p) - B2R (snd q)) * (B2R (snd p) - B2R (snd q)))%R.


(* ===================================================================== *)
(** * Example traces and configurations *)
(* ===================================================================== *)

(** The configuration of the pipeline driver, with [min_distance] set to [m]:
    the heading and time-delta column names are left to their defaults. *)
Definition planar_config (m : float64) : Config :=
  {| lat_col := Some "GPS_lat";
     lon_col := Some "GPS_lon";
     x_col := Some "x";
     y_col := Some "y";
     min_distance := Some m;
     heading_col := None;
     dt_col := None |}.

(** A stand-in for NumPy on rows that are not of dtype [float64]: the
    subtraction of two strings raises. *)
Definition sample_other_distance (p q : coord) : result float64 :=
  Raise TypeError.

(** Three samples: the origin, one metre east, then one metre north. *)
Definition corner_trace : DataFrame :=
  {| index := 3;
     data := [("x", FloatCol [0; 1; 1]%float);
              ("y", FloatCol [0; 0; 1]%float)] |}.

(** Two samples, the second with a missing easting. *)
Definition nan_trace : DataFrame :=
  {| index := 2;
     data := [("x", FloatCol [0; nan]%float);
              ("y", FloatCol [0; 0]%float)] |}.


(** Two samples on the diagonal, the square root of two apart. *)
Definition diagonal_trace : DataFrame :=
  {| index := 2;
     data := [("x", FloatCol [0; 1]%float);
              ("y", FloatCol [0; 1]%float)] |}.

(** The binary64 number nearest to the square root of two; it lies above
    the square root of two. *)
Definition sqrt2_up : float64 := 0x1.6a09e667f3bcdp+0%float.

(** Two samples [2 ^ 600] metres apart: the square of their distance
    overflows. *)
Definition huge_trace : DataFrame :=
  {| index := 2;
     data := [("x", FloatCol [0; 0x1p+600]%float);
              ("y", FloatCol [0; 0]%float)] |}.

(** A frame without rows and without planar columns. *)
Definition empty_trace : DataFrame :=
  {| index := 0;
     data := [("GPS_lat", FloatCol []); ("GPS_lon", FloatCol [])] |}.

(** One row whose planar columns hold text. *)
Definition label_trace : DataFrame :=
  {| index := 1;
     data := [("x", ObjectCol ["east"]); ("y", ObjectCol ["north"])] |}.


(** A user who closes the dialog without touching the drop-down. *)
Definition submit_default (initial : string) (values : list string) : string :=
  initial.

(** A stand-in for the projection in examples; the stages never look at the
    values it returns. *)
Definition sample_transform (lon lat : float64) : float64 * float64 :=
  (lon, lat).


(** A stand-in for [savgol_filter] in examples: it makes the check of the
    window against the data and otherwise returns the data. *)
Definition sample_savgol (x : column) (window_length polyorder : nat)
  : result (list float64) :=
  match x with
  | FloatCol v =>
      if length v <? window_length then Raise (ValueError window_message)
      else Ok v
  | _ => Raise TypeError
  end.

(** A stand-in for [np.arctan2] in examples, with the values that Annex F
    of C99 fixes on the two positive half-axes: a zero over a positive
    number is that zero, and a positive number over a zero is the binary64
    number nearest to [pi / 2].  It answers NaN to NaN and zero elsewhere. *)
Definition sample_arctan2 (y x : float64) : float64 :=
  if is_nan y || is_nan x then nan
  else if (y =? 0)%float && (0 <? x)%float then y
  else if (0 <? y)%float && (x =? 0)%float then 0x1.921fb54442d18p+0%float
  else 0%float.

(** Headings that cross north, with one second between the samples. *)
Definition crossing_trace (h0 h1 : float64) : DataFrame :=
  {| index := 2;
     data := [("heading_deg", FloatCol [h0; h1]);
              ("dt", FloatCol [nan; 1]%float)] |}.

(** The binary64 number next above 180. *)
Definition above_180 : float64 := 0x1.6800000000001p+7%float.

(** Two samples with the same timestamp. *)
Definition stalled_trace : DataFrame :=
  {| index := 2;
     data := [("heading_deg", FloatCol [10; 20]%float);
              ("dt", FloatCol [nan; 0]%float)] |}.

(** A stand-in for [pd.to_datetime] in examples: it accepts columns that
    already hold timestamps. *)
Definition sample_to_datetime (c : column) : result (list datetime64) :=
  match c with
  | DatetimeCol ts => Ok ts
  | _ => Raise (ValueError "Unknown datetime string format")
  end.

(** Three samples one second apart, and the same samples out of order. *)
Definition timed_trace : DataFrame :=
  {| index := 3;
     data := [("DatumZeit",
               DatetimeCol [Some 0%Z; Some 1000000000%Z; Some 2000000000%Z])] |}.

Definition unsorted_trace : DataFrame :=
  {| index := 3;
     data := [("DatumZeit",
               DatetimeCol [Some 2000000000%Z; Some 0%Z; Some 1000000000%Z])] |}.

(** Midnight of 1 January 1700 and of 1 January 2200, in nanoseconds since
    the epoch: both are timestamps that pandas represents, five hundred
    years apart. *)
Definition year_1700 : Z := (-8520336000000000000)%Z.

Definition year_2200 : Z := 7258118400000000000%Z.

Definition centuries_trace : DataFrame :=
  {| index := 2;
     data := [("DatumZeit", DatetimeCol [Some year_1700; Some year_2200])] |}.

(** Four samples on a line; the second and the fourth lie close to the one
    before. *)
Definition near_trace : DataFrame :=
  {| index := 4;
     data := [("x", FloatCol [0; 0.25; 1; 1.25]%float);
              ("y", FloatCol [0; 0; 0; 0]%float)] |}.

(** The end-to-end scenario of the specification: three samples one second
    apart at (0, 0), (1, 0) and (1, 1). *)
Definition scenario_trace : DataFrame :=
  {| index := 3;
     data := [("DatumZeit",
               DatetimeCol [Some 0%Z; Some 1000000000%Z; Some 2000000000%Z]);
              ("x", FloatCol [0; 1; 1]%float);
              ("y", FloatCol [0; 0; 1]%float)] |}.

(** A trace that carries one smoothed variant of its position. *)
Definition gaussian_trace : DataFrame :=
  {| index := 1;
     data := [("GPS_lat", FloatCol [52]%float);
              ("GPS_lon", FloatCol [13]%float);
              ("GPS_lat_smooth_gaussian", FloatCol [51]%float);
              ("GPS_lon_smooth_gaussian", FloatCol [12]%float)] |}.

(** Three samples, the last two with coordinates that overflowed to
    infinity. *)
Definition inf_trace : DataFrame :=
  {| index := 3;
     data := [("x", FloatCol [0; infinity; infinity]%float);
              ("y", FloatCol [0; infinity; infinity]%float)] |}.

(** A configuration without the names of the planar columns. *)
Definition bare_config : Config :=
  {| lat_col := None;
     lon_col := None;
     x_col := None;
     y_col := None;
     min_distance := Some 1%float;
     heading_col := None;
     dt_col := None |}.

(** A trace of raw positions without planar columns. *)
Definition raw_trace : DataFrame :=
  {| index := 2;
     data := [("GPS_lat", FloatCol [52; 52.5]%float);
              ("GPS_lon", FloatCol [13; 13.5]%float)] |}.

(** A stand-in for a filter of SciPy in examples: it returns its input. *)
Definition sample_filter (x : column) : result (list float64) :=
  match x with
  | FloatCol v => Ok v
  | _ => Raise TypeError
  end.

(** A stand-in for [np.arctan2] in examples with the values that Annex F
    of C99 fixes on the four half-axes; it answers NaN to NaN and zero off
    the axes. *)
Definition axis_arctan2 (y x : float64) : float64 :=
  if is_nan y || is_nan x then nan
  else if (y =? 0)%float && (0 <? x)%float then y
  else if (y =? 0)%float && (x <? 0)%float then
    (if Leibniz.eqb y 0 then Float64.pi else - Float64.pi)%float
  else if (0 <? y)%float && (x =? 0)%float then 0x1.921fb54442d18p+0%float
  else if (y <? 0)%float && (x =? 0)%float then (-0x1.921fb54442d18p+0)%float
  else 0%float.

(** Three samples: the origin, one metre west, then one metre south. *)
Definition return_trace : DataFrame :=
  {| index := 3;
     data := [("x", FloatCol [0; -1; -1]%float);
              ("y", FloatCol [0; 0; -1]%float)] |}.

(** Five yaw rates: two within three degrees per second, one above, one
    missing and one infinite. *)
Definition yaw_trace : DataFrame :=
  {| index := 5;
     data := [("yaw_rate_deg_s",
               FloatCol [0.5; 7; nan; -3; infinity]%float)] |}.

(* ===================================================================== *)
(** * Rounding of binary64 arithmetic *)
(* ===================================================================== *)

Lemma bpow_pos e : (0 < bpow e)%R.
Proof. apply powerRZ_lt. lra. Qed.

Lemma bpow_add a b : bpow (a + b) = (bpow a * bpow b)%R.
Proof. apply powerRZ_add. lra. Qed.

Lemma bpow_IZR e : (0 <= e)%Z -> bpow e = IZR (2 ^ e).
Proof.
  intros He. unfold bpow. rewrite <- (Z2Nat.id e He) at 1.
  rewrite <- pow_powerRZ. rewrite pow_IZR. now rewrite Z2Nat.id.
Qed.

Lemma bpow_le a b : (a <= b)%Z -> (bpow a <= bpow b)%R.
Proof.
  intros H. replace b with (a + (b - a))%Z by lia. rewrite bpow_add.
  rewrite (bpow_IZR (b - a)) by lia.
  assert (0 < 2 ^ (b - a))%Z by (apply Z.pow_pos_nonneg; lia).
  assert (1 <= 2 ^ (b - a))%Z by lia.
  apply IZR_le in H1. pose proof (bpow_pos a). nra.
Qed.

Lemma bpow_lt a b : (a < b)%Z -> (bpow a < bpow b)%R.
Proof.
  intros H. replace b with (a + (b - a))%Z by lia. rewrite bpow_add.
  rewrite (bpow_IZR (b - a)) by lia.
  assert (2 <= 2 ^ (b - a))%Z.
  { replace (b - a)%Z with (Z.succ (b - a - 1)) by lia.
    rewrite Z.pow_succ_r by lia.
    assert (0 < 2 ^ (b - a - 1))%Z by (apply Z.pow_pos_nonneg; lia). lia. }
  apply IZR_le in H0. pose proof (bpow_pos a). nra.
Qed.

Lemma bpow_succ a : bpow (a + 1) = (2 * bpow a)%R.
Proof. rewrite bpow_add. unfold bpow at 2. simpl. lra. Qed.

(** [iter_pos] is iteration over the unary number. *)
Lemma iter_pos_nat {A : Type} (f : A -> A) (n : positive) : forall x,
  SpecFloat.iter_pos f n x = Nat.iter (Pos.to_nat n) f x.
Proof.
  induction n as [n IH | n IH |]; intros x.
  - rewrite Pos2Nat.inj_xI. cbn [SpecFloat.iter_pos]. rewrite !IH.
    rewrite <- Nat.iter_succ_r, <- Nat.iter_add.
    replace (Pos.to_nat n + S (Pos.to_nat n)) with (S (2 * Pos.to_nat n)) by lia.
    reflexivity.
  - rewrite Pos2Nat.inj_xO. cbn [SpecFloat.iter_pos]. rewrite !IH.
    rewrite <- Nat.iter_add.
    replace (Pos.to_nat n + Pos.to_nat n) with (2 * Pos.to_nat n) by lia.
    reflexivity.
  - reflexivity.
Qed.

(** The number of binary digits of a mantissa. *)
Lemma digits2_pos_bounds (p : positive) :
  (2 ^ (Zpos (digits2_pos p) - 1) <= Zpos p < 2 ^ Zpos (digits2_pos p))%Z.
Proof.
  induction p as [p IH | p IH |]; simpl digits2_pos.
  - rewrite Pos2Z.inj_succ.
    replace (Z.succ (Zpos (digits2_pos p)) - 1)%Z
      with (Z.succ (Zpos (digits2_pos p) - 1)) by lia.
    rewrite !Z.pow_succ_r by lia. lia.
  - rewrite Pos2Z.inj_succ.
    replace (Z.succ (Zpos (digits2_pos p)) - 1)%Z
      with (Z.succ (Zpos (digits2_pos p) - 1)) by lia.
    rewrite !Z.pow_succ_r by lia. lia.
  - simpl. lia.
Qed.

Lemma pow2_lt_inv a b : (0 <= a)%Z -> (0 <= b)%Z -> (2 ^ a < 2 ^ b)%Z -> (a < b)%Z.
Proof. intros Ha Hb H. apply Z.pow_lt_mono_r_iff in H; lia. Qed.

(** A mantissa lies below a power of two exactly when it has no more
    digits. *)
Lemma digits2_pos_le (p : positive) (d : Z) :
  (0 <= d)%Z -> (Zpos p < 2 ^ d)%Z -> (Zpos (digits2_pos p) <= d)%Z.
Proof.
  intros Hd H. pose proof (digits2_pos_bounds p) as [Hl _].
  assert (2 ^ (Zpos (digits2_pos p) - 1) < 2 ^ d)%Z by lia.
  apply pow2_lt_inv in H0; lia.
Qed.

Lemma digits2_pos_ge (p : positive) (d : Z) :
  (2 ^ (d - 1) <= Zpos p)%Z -> (d <= Zpos (digits2_pos p))%Z.
Proof.
  intros H. pose proof (digits2_pos_bounds p) as [_ Hu].
  destruct (Z.le_gt_cases d 0); [lia |].
  assert (2 ^ (d - 1) < 2 ^ Zpos (digits2_pos p))%Z by lia.
  apply pow2_lt_inv in H1; lia.
Qed.

Lemma shr_inv_start (m : Z) :
  (0 <= m)%Z -> shr_inv m 0 (shr_record_of_loc m loc_Exact).
Proof.
  intros Hm. exists 0%Z. simpl. repeat split; try lia; try discriminate.
Qed.

Lemma shr_1_inv (m : Z) (k : nat) (mrs : shr_record) :
  shr_inv m k mrs -> shr_inv m (S k) (shr_1 mrs).
Proof.
  intros (rem & Hm & Hrem & Hpos & Hr & Hs). unfold shr_inv.
  rewrite Nat2Z.inj_succ, Z.pow_succ_r by lia.
  assert (HP : (0 < 2 ^ Z.of_nat k)%Z) by (apply Z.pow_pos_nonneg; lia).
  set (P := (2 ^ Z.of_nat k)%Z) in *.
  destruct mrs as [mk r s]. cbn [shr_m shr_r shr_s] in *.
  assert (Hrs : orb r s = true <-> rem <> 0%Z).
  { rewrite orb_true_iff, Hr, Hs. lia. }
  destruct mk as [| [p | p |] | p]; try lia; cbn [shr_1 shr_m shr_r shr_s].
  - exists rem. rewrite Hrs. repeat split; try lia; try discriminate.
  - exists (P + rem)%Z. rewrite Hrs. repeat split; try lia.
  - exists rem. rewrite Hrs. repeat split; try lia; try discriminate.
  - exists (P + rem)%Z. rewrite Hrs. repeat split; try lia.
Qed.

Lemma shr_iter_inv (m : Z) (k : nat) (mrs : shr_record) :
  shr_inv m 0 mrs -> shr_inv m k (Nat.iter k shr_1 mrs).
Proof.
  intros H. induction k as [| k IH]; [exact H |].
  simpl. now apply shr_1_inv.
Qed.

(** Rounding to nearest keeps the quotient or takes the next integer, and
    takes the next one only when the remainder is not zero. *)
Lemma round_nearest_even_inv (m : Z) (k : nat) (mrs : shr_record) :
  shr_inv m k mrs ->
  exists md rem : Z,
    (m = md * 2 ^ Z.of_nat k + rem)%Z /\ (0 <= rem < 2 ^ Z.of_nat k)%Z /\
    (0 <= md)%Z /\
    (round_nearest_even (shr_m mrs) (loc_of_shr_record mrs) = md \/
     (round_nearest_even (shr_m mrs) (loc_of_shr_record mrs) = md + 1 /\
      rem <> 0)%Z).
Proof.
  intros (rem & Hm & Hrem & Hpos & Hr & Hs).
  exists (shr_m mrs), rem. repeat split; try lia.
  destruct mrs as [mk r s]. cbn [shr_m shr_r shr_s] in *.
  destruct r, s; cbn [loc_of_shr_record round_nearest_even].
  - right. split; [reflexivity |]. destruct Hs as [Hs _]. now apply Hs.
  - destruct (Z.even mk); [now left |]. right. split; [reflexivity |].
    destruct Hr as [Hr _]. specialize (Hr eq_refl). lia.
  - now left.
  - now left.
Qed.

Lemma fexp_eq (e : Z) : fexp prec emax e = Z.max (e - 53) (-1074).
Proof. reflexivity. Qed.

Lemma shr_nonpos (mrs : shr_record) (e n : Z) :
  (n <= 0)%Z -> shr mrs e n = (mrs, e).
Proof. intros H. destruct n; try reflexivity. lia. Qed.

Lemma shr_pos (mrs : shr_record) (e n : Z) :
  (0 < n)%Z ->
  shr mrs e n = (Nat.iter (Z.to_nat n) shr_1 mrs, (e + n)%Z).
Proof.
  intros H. destruct n as [| p | p]; try lia.
  unfold shr. now rewrite iter_pos_nat.
Qed.

(** The second normalisation of [binary_round_aux], on a mantissa of at most
    [2 ^ 53] at an exponent that is not below the smallest one. *)
Lemma shr_fexp_rounded (s : bool) (mr e : Z) :
  (0 <= mr <= 2 ^ 53)%Z -> (-1074 <= e)%Z ->
  (let '(mrs, e'') := shr_fexp prec emax mr e loc_Exact in
   match shr_m mrs with
   | Z0 => S754_zero s
   | Zpos mf =>
       if (e'' <=? emax - prec)%Z then S754_finite s mf e''
       else S754_infinity s
   | Zneg _ => S754_nan
   end) = SF_of_rounded s mr e.
Proof.
  intros Hmr He. unfold shr_fexp, SF_of_rounded. rewrite fexp_eq.
  destruct (Z.eqb_spec mr 0) as [-> | Hnz].
  { cbn [Zdigits2]. rewrite shr_nonpos by lia. reflexivity. }
  destruct (Z.eqb_spec mr (2 ^ 53)) as [-> | Hn53].
  { change (Zdigits2 (2 ^ 53)) with 54%Z.
    replace (Z.max (54 + e - 53) (-1074) - e)%Z with 1%Z by lia.
    reflexivity. }
  destruct mr as [| p | p]; try lia.
  cbn [Zdigits2].
  assert (Hd : (Zpos (digits2_pos p) <= 53)%Z).
  { apply digits2_pos_le; lia. }
  rewrite shr_nonpos by lia.
  reflexivity.
Qed.

(** Rounding a positive mantissa [m] at exponent [e], once [e] is not above
    the exponent of the format: the result is the quotient of [m] by the
    shift, or its successor when the remainder is not zero. *)
Lemma round_aux_exact (s : bool) (m : positive) (e : Z) :
  let e' := fexp prec emax (Zpos (digits2_pos m) + e) in
  (e <= e')%Z ->
  exists md mr rem : Z,
    (Zpos m = md * 2 ^ (e' - e) + rem)%Z /\
    (0 <= rem < 2 ^ (e' - e))%Z /\
    (0 <= md < 2 ^ 53)%Z /\
    (-1074 < e' -> 2 ^ 52 <= md)%Z /\
    (mr = md \/ (mr = md + 1 /\ rem <> 0)%Z) /\
    binary_round_aux prec emax s (Zpos m) e loc_Exact = SF_of_rounded s mr e'.
Proof.
  intros e' Hle.
  pose proof (digits2_pos_bounds m) as [Hdl Hdu].
  set (d := Zpos (digits2_pos m)) in *.
  assert (He' : e' = Z.max (d + e - 53) (-1074)) by apply fexp_eq.
  assert (Hinv : exists mrs,
            shr_fexp prec emax (Zpos m) e loc_Exact = (mrs, e') /\
            shr_inv (Zpos m) (Z.to_nat (e' - e)) mrs).
  { unfold shr_fexp. cbn [Zdigits2]. fold d. fold e'.
    destruct (Z.eq_dec (e' - e) 0) as [Hz | Hnz].
    - rewrite Hz, shr_nonpos by lia. eexists. split.
      + f_equal. lia.
      + apply shr_inv_start. lia.
    - rewrite shr_pos by lia. eexists. split.
      + f_equal. lia.
      + apply shr_iter_inv, shr_inv_start. lia. }
  destruct Hinv as (mrs & Hshr & Hinv).
  destruct (round_nearest_even_inv _ _ _ Hinv) as (md & rem & Hm & Hrem & Hmd & Hround).
  rewrite Z2Nat.id in Hm, Hrem by lia.
  set (mr := round_nearest_even (shr_m mrs) (loc_of_shr_record mrs)) in *.
  assert (HP : (0 < 2 ^ (e' - e))%Z) by (apply Z.pow_pos_nonneg; lia).
  assert (Hlt : (md < 2 ^ 53)%Z).
  { assert (Zpos m < 2 ^ (53 + (e' - e)))%Z.
    { eapply Z.lt_le_trans; [exact Hdu |].
      apply Z.pow_le_mono_r; lia. }
    rewrite Z.pow_add_r in H by lia. nia. }
  assert (Hge : (-1074 < e' -> 2 ^ 52 <= md)%Z).
  { intros Hn. assert (Hd : (e' - e = d - 53)%Z) by lia.
    assert (2 ^ (52 + (e' - e)) <= Zpos m)%Z.
    { replace (52 + (e' - e))%Z with (d - 1)%Z by lia. exact Hdl. }
    rewrite Z.pow_add_r in H by lia. nia. }
  exists md, mr, rem.
  repeat (split; [lia || assumption |]).
  unfold binary_round_aux. rewrite Hshr. fold mr.
  apply shr_fexp_rounded; lia.
Qed.

(** ** Canonical numbers and their order *)

Lemma bounded_facts (m : positive) (e : Z) :
  SpecFloat.bounded prec emax m e = true ->
  (-1074 <= e <= 971)%Z /\ (Zpos m < 2 ^ 53)%Z /\
  (-1074 < e -> 2 ^ 52 <= Zpos m)%Z.
Proof.
  unfold SpecFloat.bounded, canonical_mantissa. rewrite andb_true_iff, fexp_eq.
  intros [Hc Hr]. apply Z.eqb_eq in Hc. apply Z.leb_le in Hr.
  change (emax - prec)%Z with 971%Z in Hr.
  pose proof (digits2_pos_bounds m) as [Hl Hu].
  set (d := Zpos (digits2_pos m)) in *.
  assert (Hd : (d <= 53)%Z) by lia.
  repeat split; try lia.
  - eapply Z.lt_le_trans; [exact Hu |]. apply Z.pow_le_mono_r; lia.
  - intros He. assert (d = 53)%Z by lia. subst d. rewrite H in Hl. exact Hl.
Qed.

Lemma bounded_intro (m : positive) (e : Z) :
  (-1074 <= e <= 971)%Z -> (Zpos m < 2 ^ 53)%Z ->
  (-1074 < e -> 2 ^ 52 <= Zpos m)%Z ->
  SpecFloat.bounded prec emax m e = true.
Proof.
  intros He Hu Hl. unfold SpecFloat.bounded, canonical_mantissa.
  rewrite andb_true_iff, fexp_eq. split.
  - apply Z.eqb_eq.
    assert (Hd : (Zpos (digits2_pos m) <= 53)%Z) by (apply digits2_pos_le; lia).
    destruct (Z.eq_dec e (-1074)) as [-> | Hne]; [lia |].
    assert (53 <= Zpos (digits2_pos m))%Z by (apply digits2_pos_ge, Hl; lia).
    lia.
  - apply Z.leb_le. change (emax - prec)%Z with 971%Z. lia.
Qed.

Lemma mantissa_pos (m : positive) (e : Z) : (0 < IZR (Zpos m) * bpow e)%R.
Proof.
  apply Rmult_lt_0_compat; [apply IZR_lt; lia | apply bpow_pos].
Qed.

(** Between canonical numbers the exponent decides. *)
Lemma canonical_lt_exp (m1 m2 e1 e2 : Z) :
  (0 <= m1 < 2 ^ 53)%Z -> (2 ^ 52 <= m2)%Z -> (e1 < e2)%Z ->
  (IZR m1 * bpow e1 < IZR m2 * bpow e2)%R.
Proof.
  intros H1 H2 He.
  assert (Hb : (bpow (e1 + 1) <= bpow e2)%R) by (apply bpow_le; lia).
  rewrite bpow_succ in Hb.
  pose proof (bpow_pos e1) as Hp1. pose proof (bpow_pos e2) as Hp2.
  assert (Hm1 : (IZR m1 <= IZR (2 ^ 53) - 1)%R).
  { rewrite <- minus_IZR. apply IZR_le. lia. }
  assert (Hm2 : (IZR (2 ^ 52) <= IZR m2)%R) by (apply IZR_le; lia).
  change (2 ^ 53)%Z with (2 * 2 ^ 52)%Z in Hm1. rewrite mult_IZR in Hm1.
  assert (H52 : (0 < IZR (2 ^ 52))%R) by (apply IZR_lt; reflexivity).
  assert (Hm1' : (0 <= IZR m1)%R) by (apply IZR_le; lia).
  set (K := IZR (2 ^ 52)) in *.
  apply Rle_lt_trans with ((2 * K - 1) * bpow e1)%R.
  { apply Rmult_le_compat_r; lra. }
  apply Rlt_le_trans with (K * (2 * bpow e1))%R; [nra |].
  apply Rle_trans with (K * bpow e2)%R.
  - apply Rmult_le_compat_l; lra.
  - apply Rmult_le_compat_r; lra.
Qed.

(** The comparison of two finite numbers is the comparison of their
    values. *)
Lemma SFcompare_finite (x y : spec_float) :
  valid_binary x = true -> valid_binary y = true ->
  SF_finite x = true -> SF_finite y = true ->
  match SFcompare x y with
  | Some Lt => (SF2R x < SF2R y)%R
  | Some Eq => SF2R x = SF2R y
  | Some Gt => (SF2R y < SF2R x)%R
  | None => False
  end.
Proof.
  destruct x as [sx | sx | | sx mx ex], y as [sy | sy | | sy my ey];
    try discriminate; intros Vx Vy _ _.
  - simpl. reflexivity.
  - pose proof (mantissa_pos my ey). destruct sy; simpl.
    + rewrite <- Pos2Z.opp_pos, opp_IZR. lra.
    + lra.
  - pose proof (mantissa_pos mx ex). destruct sx; simpl.
    + rewrite <- Pos2Z.opp_pos, opp_IZR. lra.
    + lra.
  - simpl in Vx, Vy.
    destruct (bounded_facts _ _ Vx) as (Hex & Hmx & Hnx).
    destruct (bounded_facts _ _ Vy) as (Hey & Hmy & Hny).
    pose proof (mantissa_pos mx ex) as Px. pose proof (mantissa_pos my ey) as Py.
    assert (Hcmp : match Z.compare ex ey with
                   | Lt => (IZR (Zpos mx) * bpow ex < IZR (Zpos my) * bpow ey)%R
                   | Gt => (IZR (Zpos my) * bpow ey < IZR (Zpos mx) * bpow ex)%R
                   | Eq =>
                       match Pos.compare_cont Eq mx my with
                       | Lt => (IZR (Zpos mx) * bpow ex < IZR (Zpos my) * bpow ey)%R
                       | Gt => (IZR (Zpos my) * bpow ey < IZR (Zpos mx) * bpow ex)%R
                       | Eq => (IZR (Zpos mx) * bpow ex = IZR (Zpos my) * bpow ey)%R
                       end
                   end).
    { destruct (Z.compare_spec ex ey) as [-> | Hlt | Hgt].
      - change (Pos.compare_cont Eq mx my) with (Pos.compare mx my).
        pose proof (bpow_pos ey) as Hb.
        destruct (Pos.compare_spec mx my) as [-> | Hl | Hg].
        + reflexivity.
        + apply Rmult_lt_compat_r; [exact Hb | apply IZR_lt; lia].
        + apply Rmult_lt_compat_r; [exact Hb | apply IZR_lt; lia].
      - apply canonical_lt_exp; lia.
      - apply canonical_lt_exp; lia. }
    destruct sx, sy; simpl;
      rewrite <- ?Pos2Z.opp_pos, ?opp_IZR; try lra.
    + destruct (Z.compare ex ey); [destruct (Pos.compare_cont Eq mx my) | |];
        simpl; lra.
    + destruct (Z.compare ex ey); [destruct (Pos.compare_cont Eq mx my) | |];
        simpl; lra.
Qed.

Lemma SFleb_finite (x y : spec_float) :
  valid_binary x = true -> valid_binary y = true ->
  SF_finite x = true -> SF_finite y = true ->
  (SFleb x y = true <-> (SF2R x <= SF2R y)%R).
Proof.
  intros Vx Vy Fx Fy. pose proof (SFcompare_finite x y Vx Vy Fx Fy) as H.
  unfold SFleb. destruct (SFcompare x y) as [[| |] |]; try contradiction;
    split; intros; try discriminate; try reflexivity; lra.
Qed.

Lemma SFltb_finite (x y : spec_float) :
  valid_binary x = true -> valid_binary y = true ->
  SF_finite x = true -> SF_finite y = true ->
  (SFltb x y = true <-> (SF2R x < SF2R y)%R).
Proof.
  intros Vx Vy Fx Fy. pose proof (SFcompare_finite x y Vx Vy Fx Fy) as H.
  unfold SFltb. destruct (SFcompare x y) as [[| |] |]; try contradiction;
    split; intros; try discriminate; try reflexivity; lra.
Qed.

Lemma SFeqb_finite (x y : spec_float) :
  valid_binary x = true -> valid_binary y = true ->
  SF_finite x = true -> SF_finite y = true ->
  (SFeqb x y = true <-> SF2R x = SF2R y).
Proof.
  intros Vx Vy Fx Fy. pose proof (SFcompare_finite x y Vx Vy Fx Fy) as H.
  unfold SFeqb. destruct (SFcompare x y) as [[| |] |]; try contradiction;
    split; intros; try discriminate; try reflexivity; lra.
Qed.

(** A finite number lies strictly inside the range of the format. *)
Lemma SF2R_range (x : spec_float) :
  valid_binary x = true -> (- bpow 1024 < SF2R x < bpow 1024)%R.
Proof.
  intros V. pose proof (bpow_pos 1024) as Hp.
  destruct x as [s | s | | s m e]; cbn [SF2R]; try lra.
  cbn [SpecFloat.valid_binary] in V.
  destruct (bounded_facts _ _ V) as (He & Hm & _).
  assert (H : (IZR (Zpos m) * bpow e < bpow 1024)%R).
  { replace 1024%Z with (53 + 971)%Z by reflexivity. rewrite bpow_add.
    rewrite (bpow_IZR 53) by lia.
    pose proof (bpow_pos e). pose proof (bpow_le e 971 ltac:(lia)).
    assert (IZR (Zpos m) < IZR (2 ^ 53))%R by (apply IZR_lt; exact Hm).
    assert (0 < IZR (Zpos m))%R by (apply IZR_lt; lia).
    apply Rlt_le_trans with (IZR (2 ^ 53) * bpow e)%R.
    - apply Rmult_lt_compat_r; lra.
    - apply Rmult_le_compat_l; lra. }
  destruct s; cbn [cond_Zopp]; rewrite <- ?Pos2Z.opp_pos, ?opp_IZR;
    pose proof (mantissa_pos m e); lra.
Qed.

(** ** Rounding stays between representable bounds *)

Lemma bpow_shift (e e' : Z) :
  (e <= e')%Z -> bpow e' = (IZR (2 ^ (e' - e)) * bpow e)%R.
Proof.
  intros H. replace e' with ((e' - e) + e)%Z at 1 by lia.
  rewrite bpow_add, bpow_IZR by lia. reflexivity.
Qed.

(** The next multiple of [2 ^ e'] above a canonical mantissa is not passed by
    any representable number above that mantissa. *)
Lemma grid_up (md e' : Z) (B : spec_float) :
  valid_binary B = true -> SF_finite B = true ->
  (0 <= md)%Z -> (-1074 <= e')%Z -> (-1074 < e' -> 2 ^ 52 <= md)%Z ->
  (IZR md * bpow e' < SF2R B)%R ->
  (IZR (md + 1) * bpow e' <= SF2R B)%R.
Proof.
  intros V F Hmd He' Hn Hlt.
  pose proof (bpow_pos e') as Hb'.
  assert (Hmd' : (0 <= IZR md)%R) by (apply IZR_le; lia).
  destruct B as [s | s | | s mb eb]; try discriminate; cbn [SF2R] in *.
  { nra. }
  cbn [SpecFloat.valid_binary] in V.
  destruct (bounded_facts _ _ V) as (Heb & Hmb & Hnb).
  pose proof (mantissa_pos mb eb) as Pb.
  destruct s; cbn [cond_Zopp] in *.
  { rewrite <- ?Pos2Z.opp_pos, ?opp_IZR in Hlt. nra. }
  destruct (Z.le_gt_cases e' eb) as [Hle | Hgt].
  - rewrite (bpow_shift e' eb Hle), <- Rmult_assoc, <- mult_IZR in *.
    apply Rmult_lt_reg_r in Hlt; [| exact Hb'].
    apply lt_IZR in Hlt.
    apply Rmult_le_compat_r; [lra |]. apply IZR_le. lia.
  - exfalso.
    pose proof (canonical_lt_exp (Zpos mb) md eb e' ltac:(lia) ltac:(lia) Hgt).
    lra.
Qed.

Lemma grid_down (md e' : Z) (B : spec_float) :
  valid_binary B = true -> SF_finite B = true ->
  (0 <= md)%Z -> (-1074 <= e')%Z -> (-1074 < e' -> 2 ^ 52 <= md)%Z ->
  (SF2R B < IZR (md + 1) * bpow e')%R ->
  (SF2R B <= IZR md * bpow e')%R.
Proof.
  intros V F Hmd He' Hn Hlt.
  pose proof (bpow_pos e') as Hb'.
  assert (Hmd' : (0 <= IZR md)%R) by (apply IZR_le; lia).
  destruct B as [s | s | | s mb eb]; try discriminate; cbn [SF2R] in *.
  { nra. }
  cbn [SpecFloat.valid_binary] in V.
  destruct (bounded_facts _ _ V) as (Heb & Hmb & Hnb).
  pose proof (mantissa_pos mb eb) as Pb.
  destruct s; cbn [cond_Zopp] in *.
  { rewrite <- ?Pos2Z.opp_pos, ?opp_IZR. nra. }
  destruct (Z.le_gt_cases e' eb) as [Hle | Hgt].
  - rewrite (bpow_shift e' eb Hle), <- Rmult_assoc, <- mult_IZR in *.
    apply Rmult_lt_reg_r in Hlt; [| exact Hb'].
    apply lt_IZR in Hlt.
    apply Rmult_le_compat_r; [lra |]. apply IZR_le. lia.
  - pose proof (canonical_lt_exp (Zpos mb) md eb e' ltac:(lia) ltac:(lia) Hgt).
    lra.
Qed.

Lemma SF_of_rounded_valid (s : bool) (mr e : Z) :
  (0 <= mr <= 2 ^ 53)%Z -> (-1074 <= e)%Z -> (-1074 < e -> 2 ^ 52 <= mr)%Z ->
  valid_binary (SF_of_rounded s mr e) = true.
Proof.
  intros Hmr He Hn. unfold SF_of_rounded.
  destruct (Z.eqb_spec mr 0); [reflexivity |].
  destruct (Z.eqb_spec mr (2 ^ 53)).
  - destruct (Z.leb_spec (e + 1) 971); [| reflexivity].
    cbn [SpecFloat.valid_binary].
    apply bounded_intro;
      [lia | apply Z.ltb_lt; reflexivity | intros _; apply Z.leb_le; reflexivity].
  - destruct (Z.leb_spec e 971); [| reflexivity].
    cbn [SpecFloat.valid_binary]. apply bounded_intro; rewrite ?Z2Pos.id; lia.
Qed.

(** The rounded number has the value of its mantissa, unless it
    overflows. *)
Lemma SF_of_rounded_value (s : bool) (mr e : Z) :
  (0 <= mr <= 2 ^ 53)%Z -> (-1074 < e -> 2 ^ 52 <= mr)%Z ->
  (SF_of_rounded s mr e = S754_infinity s /\
   (bpow 1024 <= IZR mr * bpow e)%R) \/
  (SF_finite (SF_of_rounded s mr e) = true /\
   SF2R (SF_of_rounded s mr e) = (IZR (cond_Zopp s mr) * bpow e)%R).
Proof.
  intros Hmr Hn. unfold SF_of_rounded.
  assert (H1024 : bpow 1024 = (IZR (2 ^ 53) * bpow 971)%R).
  { replace 1024%Z with (53 + 971)%Z by reflexivity.
    now rewrite bpow_add, bpow_IZR by lia. }
  assert (H1024' : bpow 1024 = (IZR (2 ^ 52) * bpow 972)%R).
  { replace 1024%Z with (52 + 972)%Z by reflexivity.
    now rewrite bpow_add, bpow_IZR by lia. }
  pose proof (bpow_pos e) as Hb.
  destruct (Z.eqb_spec mr 0) as [-> | Hnz].
  { right. split; [reflexivity |]. destruct s; simpl; lra. }
  destruct (Z.eqb_spec mr (2 ^ 53)) as [-> | Hn53].
  - destruct (Z.leb_spec (e + 1) 971) as [Hle | Hgt].
    + right. split; [reflexivity |]. cbn [SF2R].
      rewrite bpow_succ.
      change (Zpos (Z.to_pos (2 ^ 52))) with (2 ^ 52)%Z.
      change (2 ^ 53)%Z with (2 * 2 ^ 52)%Z.
      destruct s; cbn [cond_Zopp]; rewrite ?opp_IZR, ?mult_IZR; lra.
    + left. split; [reflexivity |]. rewrite H1024.
      apply Rmult_le_compat_l; [apply IZR_le; lia | apply bpow_le; lia].
  - destruct (Z.leb_spec e 971) as [Hle | Hgt].
    + right. split; [reflexivity |]. cbn [SF2R].
      rewrite Z2Pos.id by lia. reflexivity.
    + left. split; [reflexivity |]. rewrite H1024'.
      assert (IZR (2 ^ 52) <= IZR mr)%R by (apply IZR_le; lia).
      assert (bpow 972 <= bpow e)%R by (apply bpow_le; lia).
      pose proof (bpow_pos 972).
      assert (0 < IZR (2 ^ 52))%R by (apply IZR_lt; reflexivity).
      apply Rle_trans with (IZR (2 ^ 52) * bpow e)%R.
      * apply Rmult_le_compat_l; lra.
      * apply Rmult_le_compat_r; lra.
Qed.

(** Rounding of a positive number [m * 2 ^ e]: the result is valid, it is
    not below a representable number that [m * 2 ^ e] is not below, and not
    above one that it is not above. *)
Lemma round_aux_bounds (m : positive) (e : Z) :
  let e' := fexp prec emax (Zpos (digits2_pos m) + e) in
  let z := binary_round_aux prec emax false (Zpos m) e loc_Exact in
  let x := (IZR (Zpos m) * bpow e)%R in
  (e <= e')%Z ->
  valid_binary z = true /\
  (z = S754_infinity false \/ (SF_finite z = true /\ (0 <= SF2R z)%R)) /\
  (forall B, valid_binary B = true -> SF_finite B = true ->
     (x <= SF2R B)%R -> SF_finite z = true /\ (SF2R z <= SF2R B)%R) /\
  (forall B, valid_binary B = true -> SF_finite B = true ->
     (SF2R B <= x)%R ->
     z = S754_infinity false \/ (SF_finite z = true /\ (SF2R B <= SF2R z)%R)) /\
  (e = e' -> SF_finite z = true -> SF2R z = x).
Proof.
  intros e' z x Hle.
  destruct (round_aux_exact false m e Hle)
    as (md & mr & rem & Hm & Hrem & Hmd & Hn & Hround & Hz).
  fold e' in Hm, Hrem, Hn, Hz. fold z in Hz.
  assert (He' : (-1074 <= e')%Z) by (unfold e'; rewrite fexp_eq; lia).
  assert (Hmr : (0 <= mr <= 2 ^ 53)%Z) by lia.
  assert (Hnr : (-1074 < e' -> 2 ^ 52 <= mr)%Z) by (intros H; specialize (Hn H); lia).
  pose proof (bpow_pos e) as Hb. pose proof (bpow_pos e') as Hb'.
  pose proof (bpow_shift e e' Hle) as Hs.
  assert (HP : (0 < 2 ^ (e' - e))%Z) by (apply Z.pow_pos_nonneg; lia).
  (* the value between its two neighbours *)
  assert (Hx : x = (IZR md * bpow e' + IZR rem * bpow e)%R).
  { unfold x. rewrite Hm, plus_IZR, mult_IZR, Hs. ring. }
  assert (Hrem0 : (0 <= IZR rem * bpow e)%R).
  { apply Rmult_le_pos; [apply IZR_le; lia | lra]. }
  assert (Hrem1 : (IZR rem * bpow e < bpow e')%R).
  { rewrite Hs. apply Rmult_lt_compat_r; [lra | apply IZR_lt; lia]. }
  assert (Hrem2 : rem <> 0%Z -> (0 < IZR rem * bpow e)%R).
  { intros H. apply Rmult_lt_0_compat; [apply IZR_lt; lia | lra]. }
  assert (Hup : (IZR (md + 1) * bpow e' = IZR md * bpow e' + bpow e')%R).
  { rewrite plus_IZR. ring. }
  assert (Kup : forall B, valid_binary B = true -> SF_finite B = true ->
            (x <= SF2R B -> IZR mr * bpow e' <= SF2R B)%R).
  { intros B VB FB HB. destruct Hround as [-> | [-> Hr]]; [lra |].
    apply grid_up; trivial; try lia. specialize (Hrem2 Hr). lra. }
  assert (Kdown : forall B, valid_binary B = true -> SF_finite B = true ->
            (SF2R B <= x -> SF2R B <= IZR mr * bpow e')%R).
  { intros B VB FB HB. destruct Hround as [-> | [-> Hr]]; [| lra].
    apply grid_down; trivial; try lia. lra. }
  assert (Hmr0 : (0 <= IZR mr)%R) by (apply IZR_le; lia).
  rewrite Hz.
  destruct (SF_of_rounded_value false mr e' Hmr Hnr) as [[Hinf Hbig] | [Hfin Hval]];
    cbn [cond_Zopp] in *.
  - rewrite Hinf. split; [reflexivity |]. split; [now left |].
    split; [| split].
    + intros B VB FB HB. exfalso.
      pose proof (Kup B VB FB HB). pose proof (SF2R_range B VB). lra.
    + intros. now left.
    + discriminate.
  - split; [apply SF_of_rounded_valid; trivial |].
    split; [right; split; [exact Hfin | rewrite Hval; nra] |].
    split; [| split].
    + intros B VB FB HB. split; [exact Hfin |]. rewrite Hval. now apply Kup.
    + intros B VB FB HB. right. split; [exact Hfin |]. rewrite Hval.
      now apply Kdown.
    + intros Heq _. rewrite Hval.
      assert (rem = 0)%Z.
      { rewrite <- Heq, Z.sub_diag in Hrem. simpl in Hrem. lia. }
      destruct Hround as [-> | [_ Hr]]; [| contradiction].
      rewrite Hx, H. lra.
Qed.

(** ** Normalisation of an integer multiple of a power of two *)

Lemma Zpos_iter_xO (m d : positive) :
  Zpos (Pos.iter xO m d) = (Zpos m * 2 ^ Zpos d)%Z.
Proof.
  rewrite (Pos.iter_swap_gen _ _ Zpos xO (Z.mul 2)) by reflexivity.
  change (Pos.iter (Z.mul 2) (Zpos m) d) with (Z.shiftl (Zpos m) (Zpos d)).
  apply Z.shiftl_mul_pow2. lia.
Qed.

Lemma digits2_pos_shift (m d : positive) :
  Zpos (digits2_pos (Pos.iter xO m d)) = (Zpos (digits2_pos m) + Zpos d)%Z.
Proof.
  pose proof (digits2_pos_bounds m) as [Hl Hu].
  pose proof (Zpos_iter_xO m d) as Hv.
  assert (HP : (0 < 2 ^ Zpos d)%Z) by (apply Z.pow_pos_nonneg; lia).
  apply Z.le_antisymm.
  - apply digits2_pos_le; [lia |]. rewrite Hv, Z.pow_add_r by lia. nia.
  - apply digits2_pos_ge. rewrite Hv.
    replace (Zpos (digits2_pos m) + Zpos d - 1)%Z
      with ((Zpos (digits2_pos m) - 1) + Zpos d)%Z by lia.
    rewrite Z.pow_add_r by lia. nia.
Qed.

Lemma SF2R_opp (x : spec_float) : SF2R (SFopp x) = (- SF2R x)%R.
Proof.
  destruct x as [s | s | | s m e]; cbn [SFopp SF2R]; try lra.
  destruct s; cbn [negb cond_Zopp]; rewrite ?opp_IZR; lra.
Qed.

Lemma valid_opp (x : spec_float) : valid_binary (SFopp x) = valid_binary x.
Proof. now destruct x. Qed.

Lemma finite_opp (x : spec_float) : SF_finite (SFopp x) = SF_finite x.
Proof. now destruct x. Qed.

Lemma SFopp_involutive (x : spec_float) : SFopp (SFopp x) = x.
Proof. destruct x as [s | s | | s m e]; cbn [SFopp]; now rewrite ?negb_involutive. Qed.

(** The sign only labels the result of a rounding. *)
Lemma round_aux_opp (m e : Z) (l : location) :
  binary_round_aux prec emax true m e l
  = SFopp (binary_round_aux prec emax false m e l).
Proof.
  unfold binary_round_aux.
  destruct (shr_fexp prec emax m e l) as [mrs' e'].
  destruct (shr_fexp prec emax _ e' loc_Exact) as [mrs'' e''].
  destruct (shr_m mrs''); try reflexivity.
  now destruct (e'' <=? emax - prec)%Z.
Qed.

Lemma binary_round_opp (m : positive) (e : Z) :
  binary_round prec emax true m e = SFopp (binary_round prec emax false m e).
Proof.
  unfold binary_round. destruct (shl_align m e _) as [mz ez].
  apply round_aux_opp.
Qed.

Lemma binary_round_bounds (m : positive) (e : Z) :
  let z := binary_round prec emax false m e in
  let x := (IZR (Zpos m) * bpow e)%R in
  valid_binary z = true /\
  (z = S754_infinity false \/ (SF_finite z = true /\ (0 <= SF2R z)%R)) /\
  (forall B, valid_binary B = true -> SF_finite B = true ->
     (x <= SF2R B)%R -> SF_finite z = true /\ (SF2R z <= SF2R B)%R) /\
  (forall B, valid_binary B = true -> SF_finite B = true ->
     (SF2R B <= x)%R ->
     z = S754_infinity false \/ (SF_finite z = true /\ (SF2R B <= SF2R z)%R)) /\
  ((fexp prec emax (Zpos (digits2_pos m) + e) <= e)%Z ->
   SF_finite z = true -> SF2R z = x).
Proof.
  intros z x. unfold z, binary_round, shl_align.
  set (f := fexp prec emax (Zpos (digits2_pos m) + e)).
  destruct (f - e)%Z as [| d | d] eqn:Hd.
  - pose proof (round_aux_bounds m e) as H. cbv zeta in H. fold f in H.
    destruct (H ltac:(lia)) as (H1 & H2 & H3 & H4 & H5).
    refine (conj H1 (conj H2 (conj H3 (conj H4 _)))).
    intros _. apply H5. lia.
  - pose proof (round_aux_bounds m e) as H. cbv zeta in H. fold f in H.
    destruct (H ltac:(lia)) as (H1 & H2 & H3 & H4 & H5).
    refine (conj H1 (conj H2 (conj H3 (conj H4 _)))).
    intros Hc. lia.
  - pose proof (round_aux_bounds (Pos.iter xO m d) f) as H. cbv zeta in H.
    rewrite digits2_pos_shift in H.
    replace (Zpos (digits2_pos m) + Zpos d + f)%Z
      with (Zpos (digits2_pos m) + e)%Z in H by lia.
    fold f in H.
    assert (Hx : (IZR (Zpos (Pos.iter xO m d)) * bpow f)%R = x).
    { unfold x. rewrite Zpos_iter_xO, mult_IZR.
      rewrite (bpow_shift f e) by lia.
      replace (e - f)%Z with (Zpos d) by lia. ring. }
    rewrite Hx in H.
    destruct (H ltac:(lia)) as (H1 & H2 & H3 & H4 & H5).
    refine (conj H1 (conj H2 (conj H3 (conj H4 _)))).
    intros _. now apply H5.
Qed.

Lemma SFleb_pinf (B : spec_float) :
  SF_finite B = true -> SFleb B (S754_infinity false) = true.
Proof. destruct B; try discriminate; reflexivity. Qed.

Lemma SFleb_ninf (B : spec_float) :
  SF_finite B = true -> SFleb (S754_infinity true) B = true.
Proof. destruct B; try discriminate; reflexivity. Qed.

(** A number between two finite numbers is finite, and its value lies
    between theirs. *)
Lemma SFleb_between (lo hi z : spec_float) :
  valid_binary lo = true -> valid_binary hi = true -> valid_binary z = true ->
  SF_finite lo = true -> SF_finite hi = true ->
  SFleb lo z = true -> SFleb z hi = true ->
  SF_finite z = true /\ (SF2R lo <= SF2R z <= SF2R hi)%R.
Proof.
  intros Vlo Vhi Vz Flo Fhi H1 H2.
  assert (Fz : SF_finite z = true).
  { destruct z as [s | [|] | | s m e]; try reflexivity.
    - destruct lo; discriminate.
    - destruct hi; discriminate.
    - destruct lo; discriminate. }
  split; [exact Fz |]. split; now apply SFleb_finite.
Qed.

(** The normalisation of [m * 2 ^ e] is not above a finite number that
    [m * 2 ^ e] is not above, and not below one it is not below; it is
    [m * 2 ^ e] itself when that is representable. *)
Lemma normalize_bounds (m e : Z) :
  let z := binary_normalize prec emax m e false in
  let x := (IZR m * bpow e)%R in
  valid_binary z = true /\ z <> S754_nan /\
  (forall B, valid_binary B = true -> SF_finite B = true ->
     (x <= SF2R B)%R -> SFleb z B = true) /\
  (forall B, valid_binary B = true -> SF_finite B = true ->
     (SF2R B <= x)%R -> SFleb B z = true) /\
  ((Z.abs m < 2 ^ 53)%Z -> (-1074 <= e)%Z -> SF_finite z = true -> SF2R z = x).
Proof.
  intros z x. unfold z, x, binary_normalize.
  destruct m as [| m | m].
  - rewrite Rmult_0_l.
    split; [reflexivity |]. split; [discriminate |].
    split; [| split]; intros; try reflexivity;
      apply SFleb_finite; trivial.
  - destruct (binary_round_bounds m e) as (V & Hc & Hup & Hdown & Hex).
    split; [exact V |].
    split; [destruct Hc as [-> | [Hf _]]; [discriminate | intros E; now rewrite E in Hf] |].
    split; [| split].
    + intros B VB FB HB. destruct (Hup B VB FB HB) as [Fz Hz].
      now apply SFleb_finite.
    + intros B VB FB HB. destruct (Hdown B VB FB HB) as [-> | [Fz Hz]].
      * now apply SFleb_pinf.
      * now apply SFleb_finite.
    + intros Hm He. apply Hex. rewrite fexp_eq.
      assert (Zpos (digits2_pos m) <= 53)%Z by (apply digits2_pos_le; lia).
      lia.
  - rewrite binary_round_opp.
    destruct (binary_round_bounds m e) as (V & Hc & Hup & Hdown & Hex).
    set (z0 := binary_round prec emax false m e) in *.
    assert (Hx : (IZR (Zneg m) * bpow e = - (IZR (Zpos m) * bpow e))%R).
    { rewrite <- Pos2Z.opp_pos, opp_IZR. ring. }
    rewrite Hx.
    split; [now rewrite valid_opp |].
    split; [destruct Hc as [-> | [Hf _]]; [discriminate |
            intros E; destruct z0; discriminate] |].
    split; [| split].
    + intros B VB FB HB.
      destruct (Hdown (SFopp B)) as [-> | [Fz Hz]];
        rewrite ?valid_opp, ?finite_opp, ?SF2R_opp; trivial; try lra.
      * now apply SFleb_ninf.
      * rewrite SF2R_opp in Hz.
        apply SFleb_finite; rewrite ?valid_opp, ?finite_opp, ?SF2R_opp; trivial.
        lra.
    + intros B VB FB HB.
      destruct (Hup (SFopp B)) as [Fz Hz];
        rewrite ?valid_opp, ?finite_opp, ?SF2R_opp; trivial; try lra.
      rewrite SF2R_opp in Hz.
      apply SFleb_finite; rewrite ?valid_opp, ?finite_opp, ?SF2R_opp; trivial.
      lra.
    + intros Hm He Fz. rewrite finite_opp in Fz. rewrite SF2R_opp.
      rewrite Hex; trivial. rewrite fexp_eq.
      assert (Zpos (digits2_pos m) <= 53)%Z by (apply digits2_pos_le; lia).
      lia.
Qed.

(** ** Bounds on sums, differences and products *)

Lemma shl_align_fst (m : positive) (e ez : Z) :
  (ez <= e)%Z ->
  Zpos (fst (shl_align m e ez)) = (Zpos m * 2 ^ (e - ez))%Z.
Proof.
  intros H. unfold shl_align.
  destruct (ez - e)%Z as [| d | d] eqn:Hd; cbn [fst]; try lia.
  - replace (e - ez)%Z with 0%Z by lia. simpl. lia.
  - rewrite Zpos_iter_xO. f_equal. f_equal. lia.
Qed.

Lemma aligned_value (s : bool) (m : positive) (e ez : Z) :
  (ez <= e)%Z ->
  (IZR (cond_Zopp s (Zpos (fst (shl_align m e ez)))) * bpow ez)%R
  = SF2R (S754_finite s m e).
Proof.
  intros H. cbn [SF2R]. rewrite shl_align_fst by exact H.
  rewrite (bpow_shift ez e H).
  destruct s; cbn [cond_Zopp]; rewrite ?opp_IZR, mult_IZR; ring.
Qed.

Lemma SFleb_value (z B : spec_float) :
  valid_binary z = true -> valid_binary B = true ->
  SF_finite z = true -> SF_finite B = true ->
  (SF2R z <= SF2R B)%R -> SFleb z B = true.
Proof. intros. now apply SFleb_finite. Qed.

Lemma SFadd_bounds (x y : spec_float) :
  valid_binary x = true -> valid_binary y = true ->
  SF_finite x = true -> SF_finite y = true ->
  let z := SFadd prec emax x y in
  z <> S754_nan /\
  (forall B, valid_binary B = true -> SF_finite B = true ->
     (SF2R x + SF2R y <= SF2R B)%R -> SFleb z B = true) /\
  (forall B, valid_binary B = true -> SF_finite B = true ->
     (SF2R B <= SF2R x + SF2R y)%R -> SFleb B z = true).
Proof.
  intros Vx Vy Fx Fy z. unfold z.
  destruct x as [sx | sx | | sx mx ex]; try discriminate;
    destruct y as [sy | sy | | sy my ey]; try discriminate.
  - assert (E : exists s, SFadd prec emax (S754_zero sx) (S754_zero sy) = S754_zero s).
    { destruct sx, sy; eexists; reflexivity. }
    destruct E as [s ->]. cbn [SF2R].
    split; [discriminate |].
    split; intros; apply SFleb_finite; trivial; cbn [SF2R]; lra.
  - cbn [SFadd]. split; [discriminate |]. cbn [SF2R].
    split; intros; apply SFleb_finite; trivial; cbn [SF2R]; lra.
  - cbn [SFadd]. split; [discriminate |]. cbn [SF2R].
    split; intros; apply SFleb_finite; trivial; cbn [SF2R]; lra.
  - cbn [SFadd].
    set (ez := Z.min ex ey).
    set (sum := (cond_Zopp sx (Zpos (fst (shl_align mx ex ez))) +
                 cond_Zopp sy (Zpos (fst (shl_align my ey ez))))%Z).
    destruct (normalize_bounds sum ez) as (V & Hn & Hup & Hdown & _).
    assert (Hv : (IZR sum * bpow ez
                  = SF2R (S754_finite sx mx ex) + SF2R (S754_finite sy my ey))%R).
    { unfold sum. rewrite plus_IZR, Rmult_plus_distr_r.
      rewrite !aligned_value by (unfold ez; lia). reflexivity. }
    rewrite Hv in Hup, Hdown. now repeat split.
Qed.

Lemma SFsub_bounds (x y : spec_float) :
  valid_binary x = true -> valid_binary y = true ->
  SF_finite x = true -> SF_finite y = true ->
  let z := SFsub prec emax x y in
  z <> S754_nan /\
  (forall B, valid_binary B = true -> SF_finite B = true ->
     (SF2R x - SF2R y <= SF2R B)%R -> SFleb z B = true) /\
  (forall B, valid_binary B = true -> SF_finite B = true ->
     (SF2R B <= SF2R x - SF2R y)%R -> SFleb B z = true).
Proof.
  intros Vx Vy Fx Fy z. unfold z.
  destruct x as [sx | sx | | sx mx ex]; try discriminate;
    destruct y as [sy | sy | | sy my ey]; try discriminate.
  - assert (E : exists s, SFsub prec emax (S754_zero sx) (S754_zero sy) = S754_zero s).
    { destruct sx, sy; eexists; reflexivity. }
    destruct E as [s ->]. cbn [SF2R].
    split; [discriminate |].
    split; intros; apply SFleb_finite; trivial; cbn [SF2R]; lra.
  - cbn [SFsub]. split; [discriminate |].
    assert (Hv : SF2R (S754_finite (negb sy) my ey)
                 = (SF2R (S754_zero sx) - SF2R (S754_finite sy my ey))%R).
    { change (S754_finite (negb sy) my ey) with (SFopp (S754_finite sy my ey)).
      rewrite SF2R_opp. cbn [SF2R]. lra. }
    rewrite <- Hv.
    split; intros; apply SFleb_finite; trivial.
  - cbn [SFsub]. split; [discriminate |]. cbn [SF2R].
    split; intros; apply SFleb_finite; trivial; cbn [SF2R]; lra.
  - cbn [SFsub].
    set (ez := Z.min ex ey).
    set (dif := (cond_Zopp sx (Zpos (fst (shl_align mx ex ez))) -
                 cond_Zopp sy (Zpos (fst (shl_align my ey ez))))%Z).
    destruct (normalize_bounds dif ez) as (V & Hn & Hup & Hdown & _).
    assert (Hv : (IZR dif * bpow ez
                  = SF2R (S754_finite sx mx ex) - SF2R (S754_finite sy my ey))%R).
    { unfold dif. rewrite minus_IZR, Rmult_minus_distr_r.
      rewrite !aligned_value by (unfold ez; lia). reflexivity. }
    rewrite Hv in Hup, Hdown. now repeat split.
Qed.

(** The exponent of a product of canonical numbers is not above the exponent
    of the format. *)
Lemma product_exponent (mx my : positive) (ex ey : Z) :
  SpecFloat.bounded prec emax mx ex = true ->
  SpecFloat.bounded prec emax my ey = true ->
  (ex + ey <= fexp prec emax (Zpos (digits2_pos (mx * my)) + (ex + ey)))%Z.
Proof.
  intros Bx By.
  destruct (bounded_facts _ _ Bx) as (Hex & Hmx & Hnx).
  destruct (bounded_facts _ _ By) as (Hey & Hmy & Hny).
  rewrite fexp_eq.
  destruct (Z.eq_dec ex (-1074)) as [Hx | Hx];
    [destruct (Z.eq_dec ey (-1074)) as [Hy | Hy]; [lia |] |].
  - assert (Hd : (53 <= Zpos (digits2_pos (mx * my)))%Z).
    { apply digits2_pos_ge. rewrite Pos2Z.inj_mul.
      change (2 ^ (53 - 1))%Z with (1 * 2 ^ 52)%Z.
      apply Z.mul_le_mono_nonneg; lia. }
    lia.
  - assert (Hd : (53 <= Zpos (digits2_pos (mx * my)))%Z).
    { apply digits2_pos_ge. rewrite Pos2Z.inj_mul.
      change (2 ^ (53 - 1))%Z with (2 ^ 52 * 1)%Z.
      apply Z.mul_le_mono_nonneg; lia. }
    lia.
Qed.

Lemma SFmul_bounds (x y : spec_float) :
  valid_binary x = true -> valid_binary y = true ->
  SF_finite x = true -> SF_finite y = true ->
  let z := SFmul prec emax x y in
  z <> S754_nan /\
  (forall B, valid_binary B = true -> SF_finite B = true ->
     (SF2R x * SF2R y <= SF2R B)%R -> SFleb z B = true) /\
  (forall B, valid_binary B = true -> SF_finite B = true ->
     (SF2R B <= SF2R x * SF2R y)%R -> SFleb B z = true).
Proof.
  intros Vx Vy Fx Fy z. unfold z.
  destruct x as [sx | sx | | sx mx ex]; try discriminate;
    destruct y as [sy | sy | | sy my ey]; try discriminate;
    try (cbn [SFmul SF2R]; rewrite ?Rmult_0_l, ?Rmult_0_r;
         split; [discriminate |];
         split; intros; apply SFleb_finite; trivial; cbn [SF2R]; lra).
  cbn [SFmul]. cbn [SpecFloat.valid_binary] in Vx, Vy.
  pose proof (product_exponent mx my ex ey Vx Vy) as Hle.
  destruct (round_aux_bounds (mx * my) (ex + ey) Hle) as (V & Hc & Hup & Hdown & _).
  set (z0 := binary_round_aux prec emax false (Zpos (mx * my)) (ex + ey) loc_Exact) in *.
  assert (Hv : (SF2R (S754_finite sx mx ex) * SF2R (S754_finite sy my ey)
                = IZR (cond_Zopp (xorb sx sy) 1) *
                  (IZR (Zpos (mx * my)) * bpow (ex + ey)))%R).
  { cbn [SF2R]. rewrite Pos2Z.inj_mul, mult_IZR, bpow_add.
    destruct sx, sy; cbn [xorb cond_Zopp]; rewrite ?opp_IZR; ring. }
  destruct (xorb sx sy) eqn:Hs; cbn [cond_Zopp] in Hv;
    rewrite ?opp_IZR in Hv; rewrite Hv.
  - rewrite round_aux_opp. fold z0.
    split; [destruct Hc as [-> | [Hf _]]; [discriminate |
            intros E; destruct z0; discriminate] |].
    split.
    + intros B VB FB HB.
      destruct (Hdown (SFopp B)) as [-> | [Fz Hz]];
        rewrite ?valid_opp, ?finite_opp, ?SF2R_opp; trivial; try lra.
      * now apply SFleb_ninf.
      * rewrite SF2R_opp in Hz.
        apply SFleb_finite; rewrite ?valid_opp, ?finite_opp, ?SF2R_opp; trivial.
        lra.
    + intros B VB FB HB.
      destruct (Hup (SFopp B)) as [Fz Hz];
        rewrite ?valid_opp, ?finite_opp, ?SF2R_opp; trivial; try lra.
      rewrite SF2R_opp in Hz.
      apply SFleb_finite; rewrite ?valid_opp, ?finite_opp, ?SF2R_opp; trivial.
      lra.
  - fold z0.
    split; [destruct Hc as [E | [Hf _]];
            [rewrite E; discriminate | intros E; rewrite E in Hf; discriminate] |].
    split.
    + intros B VB FB HB. destruct (Hup B VB FB) as [Fz Hz]; [lra |].
      now apply SFleb_finite.
    + intros B VB FB HB. destruct (Hdown B VB FB) as [-> | [Fz Hz]]; [lra | |].
      * now apply SFleb_pinf.
      * now apply SFleb_finite.
Qed.

(** ** Sign and magnitude of a rounding with any location *)

Lemma shr_1_m (mrs : shr_record) :
  (0 <= shr_m mrs)%Z -> shr_m (shr_1 mrs) = (shr_m mrs / 2)%Z.
Proof.
  destruct mrs as [m r s]. cbn [shr_m]. intros H.
  destruct m as [| [p | p |] | p]; try lia; cbn [shr_1 shr_m].
  - reflexivity.
  - rewrite Pos2Z.inj_xI. apply Z.div_unique with 1%Z; lia.
  - rewrite Pos2Z.inj_xO. apply Z.div_unique with 0%Z; lia.
  - reflexivity.
Qed.

Lemma shr_iter_m (k : nat) : forall mrs,
  (0 <= shr_m mrs)%Z ->
  shr_m (Nat.iter k shr_1 mrs) = (shr_m mrs / 2 ^ Z.of_nat k)%Z.
Proof.
  induction k as [| k IH]; intros mrs H.
  - simpl. now rewrite Z.div_1_r.
  - rewrite Nat.iter_succ_r, IH.
    + rewrite shr_1_m by exact H.
      rewrite Nat2Z.inj_succ, Z.pow_succ_r by lia.
      rewrite Z.div_div by (try apply Z.pow_pos_nonneg; lia). reflexivity.
    + rewrite shr_1_m by exact H. apply Z.div_pos; lia.
Qed.

Lemma shr_record_of_loc_m (m : Z) (l : location) :
  shr_m (shr_record_of_loc m l) = m.
Proof. destruct l as [| []]; reflexivity. Qed.

Lemma round_nearest_even_cases (m : Z) (l : location) :
  round_nearest_even m l = m \/ round_nearest_even m l = (m + 1)%Z.
Proof.
  destruct l as [| []]; cbn [round_nearest_even]; auto.
  destruct (Z.even m); auto.
Qed.

(** One normalisation step keeps a mantissa that is not negative, and keeps
    it positive when the number lies in the normal range. *)
Lemma shr_fexp_stage (m e : Z) (l : location) :
  (0 <= m)%Z ->
  (0 <= shr_m (fst (shr_fexp prec emax m e l)))%Z /\
  (0 < m -> -1074 <= Zdigits2 m + e - 53 ->
   2 ^ 52 <= shr_m (fst (shr_fexp prec emax m e l)) \/
   (shr_fexp prec emax m e l = (shr_record_of_loc m l, e)))%Z.
Proof.
  intros Hm. unfold shr_fexp.
  set (n := (fexp prec emax (Zdigits2 m + e) - e)%Z).
  destruct (Z.le_gt_cases n 0) as [Hn | Hn].
  - rewrite shr_nonpos by exact Hn. cbn [fst]. rewrite shr_record_of_loc_m.
    split; [exact Hm |]. intros _ _. now right.
  - rewrite shr_pos by exact Hn. cbn [fst].
    rewrite shr_iter_m by (rewrite shr_record_of_loc_m; exact Hm).
    rewrite shr_record_of_loc_m, Z2Nat.id by lia.
    assert (HP : (0 < 2 ^ n)%Z) by (apply Z.pow_pos_nonneg; lia).
    split; [apply Z.div_pos; lia |].
    intros Hpos Hnorm. left.
    destruct m as [| p | p]; try lia. cbn [Zdigits2] in *.
    pose proof (digits2_pos_bounds p) as [Hl _].
    assert (En : n = (Zpos (digits2_pos p) - 53)%Z).
    { unfold n. rewrite fexp_eq. lia. }
    apply Z.div_le_lower_bound; [exact HP |].
    rewrite <- Z.pow_add_r by lia.
    replace (n + 52)%Z with (Zpos (digits2_pos p) - 1)%Z by lia.
    exact Hl.
Qed.

(** A rounding of a mantissa that is not negative carries the sign it was
    given: it is never NaN. *)
Lemma round_aux_sign (s : bool) (m e : Z) (l : location) :
  (0 <= m)%Z ->
  let z := binary_round_aux prec emax s m e l in
  z = S754_zero s \/ z = S754_infinity s \/ exists mf ef, z = S754_finite s mf ef.
Proof.
  intros Hm z. unfold z, binary_round_aux.
  destruct (shr_fexp_stage m e l Hm) as [H1 _].
  destruct (shr_fexp prec emax m e l) as [mrs' e']. cbn [fst] in H1.
  set (mr := round_nearest_even (shr_m mrs') (loc_of_shr_record mrs')).
  assert (Hmr : (0 <= mr)%Z).
  { destruct (round_nearest_even_cases (shr_m mrs') (loc_of_shr_record mrs'));
      fold mr in H; lia. }
  destruct (shr_fexp_stage mr e' loc_Exact Hmr) as [H2 _].
  destruct (shr_fexp prec emax mr e' loc_Exact) as [mrs'' e'']. cbn [fst] in H2.
  destruct (shr_m mrs'') as [| p | p]; try lia.
  - now left.
  - destruct (e'' <=? emax - prec)%Z; right; [right; eauto | now left].
Qed.

Lemma Zdigits2_mono (a b : Z) :
  (0 < a <= b)%Z -> (Zdigits2 a <= Zdigits2 b)%Z.
Proof.
  intros H. destruct a as [| a | a], b as [| b | b]; try lia. cbn [Zdigits2].
  pose proof (digits2_pos_bounds a) as [Ha _].
  apply digits2_pos_ge. lia.
Qed.

(** In the normal range a positive mantissa does not round to zero. *)
Lemma round_aux_positive (s : bool) (q e : Z) (l : location) :
  (0 < q)%Z -> (-1074 <= Zdigits2 q + e - 53)%Z ->
  let z := binary_round_aux prec emax s q e l in
  z = S754_infinity s \/ exists mf ef, z = S754_finite s mf ef.
Proof.
  intros Hq Hnorm z. unfold z, binary_round_aux.
  destruct (shr_fexp_stage q e l ltac:(lia)) as [H1 H1'].
  specialize (H1' Hq Hnorm).
  destruct (shr_fexp prec emax q e l) as [mrs' e'] eqn:Hs1. cbn [fst] in *.
  set (mr := round_nearest_even (shr_m mrs') (loc_of_shr_record mrs')).
  assert (Hmr : (shr_m mrs' <= mr)%Z).
  { destruct (round_nearest_even_cases (shr_m mrs') (loc_of_shr_record mrs'));
      fold mr in H; lia. }
  assert (Hpos : (0 < shr_m mrs')%Z).
  { destruct H1' as [H | H]; [lia |].
    injection H as -> _. now rewrite shr_record_of_loc_m. }
  assert (Hnorm' : (-1074 <= Zdigits2 mr + e' - 53)%Z).
  { destruct H1' as [H | H].
    - (* shifted: the mantissa has 53 digits and the exponent is in range *)
      assert (53 <= Zdigits2 mr)%Z.
      { destruct mr as [| p | p]; try lia. cbn [Zdigits2].
        apply digits2_pos_ge. lia. }
      assert (-1074 <= e')%Z.
      { unfold shr_fexp in Hs1.
        set (n := (fexp prec emax (Zdigits2 q + e) - e)%Z) in Hs1.
        destruct (Z.le_gt_cases n 0) as [Hn | Hn].
        - rewrite shr_nonpos in Hs1 by exact Hn. injection Hs1 as <- <-.
          unfold n in Hn. rewrite fexp_eq in Hn. lia.
        - rewrite shr_pos in Hs1 by exact Hn. injection Hs1 as _ <-.
          unfold n. rewrite fexp_eq. lia. }
      lia.
    - injection H as Hm He. subst e'.
      assert (Zdigits2 q <= Zdigits2 mr)%Z.
      { apply Zdigits2_mono. rewrite Hm, shr_record_of_loc_m in Hmr.
        lia. }
      lia. }
  destruct (shr_fexp_stage mr e' loc_Exact ltac:(lia)) as [H2 H2'].
  specialize (H2' ltac:(lia) Hnorm').
  destruct (shr_fexp prec emax mr e' loc_Exact) as [mrs'' e''] eqn:Hs2.
  cbn [fst] in *.
  assert (Hpos2 : (0 < shr_m mrs'')%Z).
  { destruct H2' as [H | H]; [lia |].
    injection H as -> _. cbn [shr_record_of_loc shr_m]. lia. }
  destruct (shr_m mrs'') as [| p | p]; try lia.
  destruct (e'' <=? emax - prec)%Z; [right; eauto | now left].
Qed.

(** ** Binary64 numbers and their values *)

Lemma finite_valid (x : float) : valid_binary (Prim2SF x) = true.
Proof. apply Prim2SF_valid. Qed.

Lemma leb_B2R (a b : float) :
  finite a = true -> finite b = true ->
  ((a <=? b)%float = true <-> (B2R a <= B2R b)%R).
Proof.
  intros Fa Fb. rewrite FloatAxioms.leb_spec.
  apply SFleb_finite; trivial; apply Prim2SF_valid.
Qed.

Lemma ltb_B2R (a b : float) :
  finite a = true -> finite b = true ->
  ((a <? b)%float = true <-> (B2R a < B2R b)%R).
Proof.
  intros Fa Fb. rewrite FloatAxioms.ltb_spec.
  apply SFltb_finite; trivial; apply Prim2SF_valid.
Qed.

Lemma eqb_B2R (a b : float) :
  finite a = true -> finite b = true ->
  ((a =? b)%float = true <-> B2R a = B2R b).
Proof.
  intros Fa Fb. rewrite FloatAxioms.eqb_spec.
  apply SFeqb_finite; trivial; apply Prim2SF_valid.
Qed.

(** A number that compares with two finite numbers is finite. *)
Lemma leb_between (lo hi z : float) :
  finite lo = true -> finite hi = true ->
  (lo <=? z)%float = true -> (z <=? hi)%float = true ->
  finite z = true /\ (B2R lo <= B2R z <= B2R hi)%R.
Proof.
  intros Flo Fhi H1 H2. rewrite FloatAxioms.leb_spec in H1, H2.
  apply SFleb_between; trivial; apply Prim2SF_valid.
Qed.

Lemma add_bounds (a b lo hi : float) :
  finite a = true -> finite b = true -> finite lo = true -> finite hi = true ->
  (B2R lo <= B2R a + B2R b <= B2R hi)%R ->
  finite (a + b) = true /\ (B2R lo <= B2R (a + b) <= B2R hi)%R.
Proof.
  intros Fa Fb Flo Fhi [H1 H2].
  destruct (SFadd_bounds (Prim2SF a) (Prim2SF b)) as (_ & Hup & Hdown);
    trivial; try apply Prim2SF_valid.
  apply leb_between; trivial; rewrite FloatAxioms.leb_spec, FloatAxioms.add_spec.
  - apply Hdown; trivial. apply Prim2SF_valid.
  - apply Hup; trivial. apply Prim2SF_valid.
Qed.

Lemma sub_bounds (a b lo hi : float) :
  finite a = true -> finite b = true -> finite lo = true -> finite hi = true ->
  (B2R lo <= B2R a - B2R b <= B2R hi)%R ->
  finite (a - b) = true /\ (B2R lo <= B2R (a - b) <= B2R hi)%R.
Proof.
  intros Fa Fb Flo Fhi [H1 H2].
  destruct (SFsub_bounds (Prim2SF a) (Prim2SF b)) as (_ & Hup & Hdown);
    trivial; try apply Prim2SF_valid.
  apply leb_between; trivial; rewrite FloatAxioms.leb_spec, FloatAxioms.sub_spec.
  - apply Hdown; trivial. apply Prim2SF_valid.
  - apply Hup; trivial. apply Prim2SF_valid.
Qed.

Lemma mul_bounds (a b lo hi : float) :
  finite a = true -> finite b = true -> finite lo = true -> finite hi = true ->
  (B2R lo <= B2R a * B2R b <= B2R hi)%R ->
  finite (a * b) = true /\ (B2R lo <= B2R (a * b) <= B2R hi)%R.
Proof.
  intros Fa Fb Flo Fhi [H1 H2].
  destruct (SFmul_bounds (Prim2SF a) (Prim2SF b)) as (_ & Hup & Hdown);
    trivial; try apply Prim2SF_valid.
  apply leb_between; trivial; rewrite FloatAxioms.leb_spec, FloatAxioms.mul_spec.
  - apply Hdown; trivial. apply Prim2SF_valid.
  - apply Hup; trivial. apply Prim2SF_valid.
Qed.

(** NaN is the one number that differs from itself. *)
Lemma is_nan_spec (x : float) :
  is_nan x = true <-> Prim2SF x = S754_nan.
Proof.
  unfold is_nan. rewrite FloatAxioms.eqb_spec. unfold SFeqb.
  destruct (Prim2SF x) as [s | s | | s m e]; cbn [SFcompare].
  - split; discriminate.
  - destruct s; split; discriminate.
  - split; reflexivity.
  - rewrite Z.compare_refl.
    change (Pos.compare_cont Eq m m) with (Pos.compare m m).
    rewrite Pos.compare_refl. destruct s; split; discriminate.
Qed.

Lemma is_nan_eq (x : float) : is_nan x = true <-> x = nan.
Proof.
  rewrite is_nan_spec. split.
  - intros H. apply Prim2SF_inj. rewrite H. reflexivity.
  - intros ->. reflexivity.
Qed.

Lemma finite_not_nan (x : float) : finite x = true -> is_nan x = false.
Proof.
  intros F. destruct (is_nan x) eqn:E; [| reflexivity].
  apply is_nan_spec in E. unfold finite in F. now rewrite E in F.
Qed.

(** The value of a constant whose exponent is negative, as a quotient of two
    integers. *)
Lemma bpow_neg (k : positive) : bpow (Zneg k) = (/ IZR (2 ^ Zpos k))%R.
Proof.
  assert (H : (bpow (Zneg k) * bpow (Zpos k) = 1)%R).
  { rewrite <- bpow_add. replace (Zneg k + Zpos k)%Z with 0%Z by lia.
    reflexivity. }
  rewrite (bpow_IZR (Zpos k)) in H by lia.
  pose proof (bpow_pos (Zneg k)).
  assert (0 < IZR (2 ^ Zpos k))%R by (apply IZR_lt, Z.pow_pos_nonneg; lia).
  assert (Hne : IZR (2 ^ Zpos k) <> 0%R) by (apply Rgt_not_eq; lra).
  apply Rmult_eq_reg_r with (IZR (2 ^ Zpos k)); [| exact Hne].
  rewrite H. symmetry. now apply Rinv_l.
Qed.

Lemma B2R_neg_exp (x : float) (s : bool) (m k : positive) (n d : Z) :
  Prim2SF x = S754_finite s m (Zneg k) ->
  cond_Zopp s (Zpos m) = n -> (2 ^ Zpos k)%Z = d ->
  B2R x = (IZR n / IZR d)%R.
Proof.
  intros Hx <- <-. unfold B2R. rewrite Hx. cbn [SF2R].
  now rewrite bpow_neg.
Qed.

Lemma B2R_pos_exp (x : float) (s : bool) (m : positive) (e n : Z) :
  Prim2SF x = S754_finite s m e -> (0 <= e)%Z ->
  (cond_Zopp s (Zpos m) * 2 ^ e)%Z = n ->
  B2R x = IZR n.
Proof.
  intros Hx He <-. unfold B2R. rewrite Hx. cbn [SF2R].
  rewrite bpow_IZR by exact He. now rewrite mult_IZR.
Qed.

Lemma B2R_zero : B2R 0 = 0%R.
Proof. reflexivity. Qed.

(** Rewrites the value of a binary64 constant into a quotient of integers. *)
Ltac B2R_const c :=
  let sf := eval vm_compute in (Prim2SF c) in
  lazymatch sf with
  | S754_finite ?s ?m (Zneg ?k) =>
      let n := eval vm_compute in (cond_Zopp s (Zpos m)) in
      let d := eval vm_compute in (2 ^ Zpos k)%Z in
      rewrite ?(B2R_neg_exp c s m k n d
                  eq_refl
                  eq_refl
                  eq_refl) in *
  | S754_finite ?s ?m ?e =>
      let n := eval vm_compute in (cond_Zopp s (Zpos m) * 2 ^ e)%Z in
      rewrite ?(B2R_pos_exp c s m e n
                  eq_refl
                  ltac:(lia)
                  eq_refl) in *
  | S754_zero _ => change (B2R c) with 0%R in *
  end.

Lemma B2R_180 : B2R 180 = 180%R.
Proof. B2R_const 180%float. lra. Qed.

Lemma B2R_m180 : B2R (-180) = (-180)%R.
Proof. B2R_const (-180)%float. lra. Qed.

Lemma B2R_360 : B2R 360 = 360%R.
Proof. B2R_const 360%float. lra. Qed.

(** ** The floored remainder *)

(** [fmod] of a finite number by a positive finite number: smaller in
    magnitude than the divisor, with the sign of the dividend. *)
Lemma fmod_spec (a b : float) (mb : positive) (eb : Z) :
  finite a = true -> Prim2SF b = S754_finite false mb eb ->
  let m := Float64.fmod a b in
  finite m = true /\ (Rabs (B2R m) < B2R b)%R /\
  ((0 <= B2R a)%R -> (0 <= B2R m)%R) /\
  ((B2R a <= 0)%R -> (B2R m <= 0)%R).
Proof.
  intros Fa Hb m.
  pose proof (Prim2SF_valid a) as Va. pose proof (Prim2SF_valid b) as Vb.
  assert (Pb : (0 < B2R b)%R).
  { unfold B2R. rewrite Hb. apply mantissa_pos. }
  unfold m, Float64.fmod. unfold finite in Fa. rewrite Hb.
  destruct (Prim2SF a) as [sa | sa | | sa ma ea] eqn:Ha; try discriminate.
  - (* a zero *)
    assert (Hz : B2R a = 0%R) by (unfold B2R; now rewrite Ha).
    unfold finite. rewrite Ha, Hz, Rabs_R0. repeat split; trivial; lra.
  - rewrite Hb in Vb. cbn [SpecFloat.valid_binary] in Va, Vb.
    destruct (bounded_facts _ _ Va) as (Hea & Hma & _).
    destruct (bounded_facts _ _ Vb) as (Heb & Hmb & _).
    set (e := Z.min ea eb).
    set (M := (Zpos ma * 2 ^ (ea - e))%Z).
    set (N := (Zpos mb * 2 ^ (eb - e))%Z).
    set (r := (M mod N)%Z).
    assert (HPa : (0 < 2 ^ (ea - e))%Z) by (apply Z.pow_pos_nonneg; unfold e; lia).
    assert (HPb : (0 < 2 ^ (eb - e))%Z) by (apply Z.pow_pos_nonneg; unfold e; lia).
    assert (HM : (0 < M)%Z) by (unfold M; lia).
    assert (HN : (0 < N)%Z) by (unfold N; lia).
    assert (Hr : (0 <= r < N)%Z) by (apply Z.mod_pos_bound; exact HN).
    assert (HrM : (r <= M)%Z) by (apply Z.mod_le; lia).
    assert (Hr53 : (r < 2 ^ 53)%Z).
    { destruct (Z.le_ge_cases ea eb).
      - assert (e = ea) by (unfold e; lia).
        assert (M = Zpos ma) by (unfold M; rewrite H0, Z.sub_diag; simpl; lia).
        lia.
      - assert (e = eb) by (unfold e; lia).
        assert (N = Zpos mb) by (unfold N; rewrite H0, Z.sub_diag; simpl; lia).
        lia. }
    assert (HNb : (IZR N * bpow e)%R = B2R b).
    { unfold B2R, N. rewrite Hb. cbn [SF2R cond_Zopp].
      rewrite mult_IZR, (bpow_shift e eb) by (unfold e; lia). ring. }
    assert (Sa : (if sa then B2R a <= 0 else 0 <= B2R a)%R).
    { unfold B2R. rewrite Ha. cbn [SF2R]. pose proof (mantissa_pos ma ea).
      destruct sa; cbn [cond_Zopp]; rewrite ?opp_IZR; lra. }
    assert (Sa' : (if sa then B2R a < 0 else 0 < B2R a)%R).
    { unfold B2R. rewrite Ha. cbn [SF2R]. pose proof (mantissa_pos ma ea).
      destruct sa; cbn [cond_Zopp]; rewrite ?opp_IZR; lra. }
    destruct (Z.eqb_spec r 0) as [Hr0 | Hr0].
    + assert (Hz : B2R (if sa then neg_zero else zero) = 0%R)
        by (destruct sa; reflexivity).
      assert (Fz : finite (if sa then neg_zero else zero) = true)
        by (destruct sa; reflexivity).
      rewrite Hz, Rabs_R0. repeat split; trivial; lra.
    + set (z := binary_normalize prec emax (if sa then (- r)%Z else r) e false).
      destruct (normalize_bounds (if sa then (- r)%Z else r) e)
        as (Vz & Nz & Hup & Hdown & Hex).
      fold z in Vz, Nz, Hup, Hdown, Hex.
      assert (Hrv : (0 < IZR r * bpow e < B2R b)%R).
      { rewrite <- HNb. pose proof (bpow_pos e). split.
        - apply Rmult_lt_0_compat; [apply IZR_lt; lia | lra].
        - apply Rmult_lt_compat_r; [lra | apply IZR_lt; lia]. }
      assert (Hxv : (IZR (if sa then (- r)%Z else r) * bpow e
                     = if sa then - (IZR r * bpow e) else IZR r * bpow e)%R).
      { destruct sa; rewrite ?opp_IZR; ring. }
      assert (Fz : SF_finite z = true).
      { apply (SFleb_between (SFopp (Prim2SF b)) (Prim2SF b) z);
          rewrite ?valid_opp, ?finite_opp; trivial;
          try apply Prim2SF_valid; try (rewrite Hb; reflexivity).
        - apply Hdown; rewrite ?valid_opp, ?finite_opp, ?SF2R_opp;
            try apply Prim2SF_valid; try (rewrite Hb; reflexivity).
          rewrite Hxv. fold (B2R b). destruct sa; lra.
        - apply Hup; try apply Prim2SF_valid; try (rewrite Hb; reflexivity).
          rewrite Hxv. fold (B2R b). destruct sa; lra. }
      assert (Hval : SF2R z = (if sa then - (IZR r * bpow e) else IZR r * bpow e)%R).
      { rewrite <- Hxv. apply Hex; trivial.
        - destruct sa; rewrite ?Z.abs_opp, Z.abs_eq; lia.
        - unfold e. lia. }
      assert (HB : B2R (SF2Prim z) = SF2R z).
      { unfold B2R. now rewrite Prim2SF_SF2Prim. }
      assert (HF : finite (SF2Prim z) = true).
      { unfold finite. now rewrite Prim2SF_SF2Prim. }
      rewrite HB, Hval.
      split; [exact HF |].
      split; [destruct sa; [rewrite Rabs_Ropp |]; rewrite Rabs_pos_eq; lra |].
      split; intros; destruct sa; lra.
Qed.

Lemma finite_zero : finite 0 = true.
Proof. reflexivity. Qed.

Lemma is_zero_B2R (x : float) :
  finite x = true -> (is_zero x = true <-> B2R x = 0%R).
Proof.
  intros F. unfold is_zero. change zero with 0%float.
  rewrite (eqb_B2R x 0 F finite_zero). rewrite B2R_zero. reflexivity.
Qed.

(** The floored remainder by a positive finite number lies between zero and
    the divisor; below the divisor when the dividend is not negative. *)
Lemma remainder_range (a b : float) (mb : positive) (eb : Z) :
  Prim2SF b = S754_finite false mb eb ->
  let r := Float64.remainder a b in
  is_nan r = true \/
  (finite a = true /\ finite r = true /\ (0 <= B2R r <= B2R b)%R /\
   ((0 <= B2R a)%R -> (B2R r < B2R b)%R)).
Proof.
  intros Hb r.
  assert (Fb : finite b = true) by (unfold finite; now rewrite Hb).
  assert (Pb : (0 < B2R b)%R).
  { unfold B2R. rewrite Hb. apply mantissa_pos. }
  assert (Zb : is_zero b = false).
  { destruct (is_zero b) eqn:E; [| reflexivity].
    apply is_zero_B2R in E; trivial. lra. }
  assert (Nb : (b <? 0)%float = false).
  { destruct (b <? 0)%float eqn:E; [| reflexivity].
    apply ltb_B2R in E; trivial. rewrite B2R_zero in E. lra. }
  unfold r, Float64.remainder. rewrite Zb, Nb. cbn [xorb].
  destruct (finite a) eqn:Fa.
  - destruct (fmod_spec a b mb eb Fa Hb) as (Fm & Hm & Hp & Hn).
    set (m := Float64.fmod a b) in *.
    apply Rabs_def2 in Hm.
    right. split; [reflexivity |].
    destruct (is_zero m) eqn:Zm.
    + change zero with 0%float. rewrite B2R_zero.
      repeat split; trivial; lra.
    + assert (Hm0 : B2R m <> 0%R).
      { intros E. apply is_zero_B2R in E; trivial. congruence. }
      destruct (m <? 0)%float eqn:Lm.
      * apply ltb_B2R in Lm; trivial. rewrite B2R_zero in Lm.
        destruct (add_bounds m b 0 b Fm Fb finite_zero Fb) as (F & H1 & H2).
        { rewrite B2R_zero. lra. }
        rewrite B2R_zero in H1.
        repeat split; trivial. intros Ha. specialize (Hp Ha). lra.
      * assert (~ (B2R m < 0)%R).
        { intros H. rewrite <- B2R_zero in H.
          apply ltb_B2R in H; trivial. congruence. }
        repeat split; trivial; lra.
  - left.
    assert (E : Float64.fmod a b = nan).
    { unfold Float64.fmod, finite in *. rewrite Hb.
      destruct (Prim2SF a); try discriminate; reflexivity. }
    rewrite E. reflexivity.
Qed.

(** ** NaN propagates through the arithmetic *)

Lemma SFadd_nan_l y : SFadd prec emax S754_nan y = S754_nan.
Proof. reflexivity. Qed.

Lemma add_nan_l (y : float) : (nan + y)%float = nan.
Proof.
  apply Prim2SF_inj. rewrite FloatAxioms.add_spec. reflexivity.
Qed.

Lemma add_nan_r (x : float) : (x + nan)%float = nan.
Proof.
  apply Prim2SF_inj. rewrite FloatAxioms.add_spec.
  change (Prim2SF nan) with S754_nan.
  destruct (Prim2SF x) as [s | s | | s m e]; reflexivity.
Qed.

Lemma sub_nan_l (y : float) : (nan - y)%float = nan.
Proof.
  apply Prim2SF_inj. rewrite FloatAxioms.sub_spec. reflexivity.
Qed.

Lemma sub_nan_r (x : float) : (x - nan)%float = nan.
Proof.
  apply Prim2SF_inj. rewrite FloatAxioms.sub_spec.
  change (Prim2SF nan) with S754_nan.
  destruct (Prim2SF x) as [s | s | | s m e]; reflexivity.
Qed.

Lemma mul_nan_l (y : float) : (nan * y)%float = nan.
Proof.
  apply Prim2SF_inj. rewrite FloatAxioms.mul_spec. reflexivity.
Qed.

Lemma mul_nan_r (x : float) : (x * nan)%float = nan.
Proof.
  apply Prim2SF_inj. rewrite FloatAxioms.mul_spec.
  change (Prim2SF nan) with S754_nan.
  destruct (Prim2SF x) as [s | s | | s m e]; reflexivity.
Qed.

Lemma div_nan_l (y : float) : (nan / y)%float = nan.
Proof.
  apply Prim2SF_inj. rewrite FloatAxioms.div_spec. reflexivity.
Qed.

Lemma div_nan_r (x : float) : (x / nan)%float = nan.
Proof.
  apply Prim2SF_inj. rewrite FloatAxioms.div_spec.
  change (Prim2SF nan) with S754_nan.
  destruct (Prim2SF x) as [s | s | | s m e]; reflexivity.
Qed.

Lemma sqrt_nan : PrimFloat.sqrt nan = nan.
Proof. reflexivity. Qed.

Lemma remainder_nan_l (b : float) : Float64.remainder nan b = nan.
Proof.
  unfold Float64.remainder.
  assert (E : Float64.fmod nan b = nan).
  { unfold Float64.fmod. change (Prim2SF nan) with S754_nan. reflexivity. }
  rewrite E. destruct (is_zero b); [reflexivity |].
  change (is_zero nan) with false. change (nan <? 0)%float with false.
  rewrite add_nan_l. destruct (b <? 0)%float; reflexivity.
Qed.

Lemma leb_nan_l (y : float) : (nan <=? y)%float = false.
Proof. rewrite FloatAxioms.leb_spec. reflexivity. Qed.

Lemma leb_nan_r (x : float) : (x <=? nan)%float = false.
Proof.
  rewrite FloatAxioms.leb_spec. change (Prim2SF nan) with S754_nan.
  unfold SFleb. destruct (Prim2SF x) as [s | s | | s m e];
    try destruct s; reflexivity.
Qed.

(** ** The sign of squares, sums and square roots *)

Lemma leb_zero_cases (x : float) :
  (0 <=? x)%float = true ->
  (exists s, Prim2SF x = S754_zero s) \/ Prim2SF x = S754_infinity false \/
  exists m e, Prim2SF x = S754_finite false m e.
Proof.
  rewrite FloatAxioms.leb_spec. change (Prim2SF 0) with (S754_zero false).
  destruct (Prim2SF x) as [s | s | | s m e]; unfold SFleb; cbn [SFcompare].
  - eauto.
  - destruct s; [discriminate | auto].
  - discriminate.
  - destruct s; [discriminate | eauto].
Qed.

Lemma leb_zero_intro (x : float) :
  ((exists s, Prim2SF x = S754_zero s) \/ Prim2SF x = S754_infinity false \/
   exists m e, Prim2SF x = S754_finite false m e) ->
  (0 <=? x)%float = true.
Proof.
  rewrite FloatAxioms.leb_spec. change (Prim2SF 0) with (S754_zero false).
  intros [[s ->] | [-> | [m [e ->]]]]; reflexivity.
Qed.

Lemma round_aux_nonneg (m e : Z) (l : location) (z : float) :
  (0 <= m)%Z -> Prim2SF z = binary_round_aux prec emax false m e l ->
  (0 <=? z)%float = true.
Proof.
  intros Hm Hz. apply leb_zero_intro. rewrite Hz.
  destruct (round_aux_sign false m e l Hm) as [-> | [-> | [mf [ef ->]]]]; eauto.
Qed.

(** A square root is NaN or not negative. *)
Lemma sqrt_nan_or_nonneg (x : float) :
  is_nan (PrimFloat.sqrt x) = true \/ (0 <=? PrimFloat.sqrt x)%float = true.
Proof.
  destruct (Prim2SF x) as [s | s | | s m e] eqn:Hx.
  - right. apply leb_zero_intro. left. exists s.
    now rewrite FloatAxioms.sqrt_spec, Hx.
  - destruct s.
    + left. apply is_nan_spec. now rewrite FloatAxioms.sqrt_spec, Hx.
    + right. apply leb_zero_intro. right. left.
      now rewrite FloatAxioms.sqrt_spec, Hx.
  - left. apply is_nan_spec. now rewrite FloatAxioms.sqrt_spec, Hx.
  - destruct s.
    + left. apply is_nan_spec. now rewrite FloatAxioms.sqrt_spec, Hx.
    + right.
      pose proof (FloatAxioms.sqrt_spec x) as Hs. rewrite Hx in Hs.
      unfold SF64sqrt in Hs. cbn [SFsqrt] in Hs.
      destruct (SFsqrt_core_binary prec emax (Zpos m) e) as [[mz ez] lz] eqn:Hc.
      apply (round_aux_nonneg mz ez lz); [| exact Hs].
      unfold SFsqrt_core_binary in Hc.
      match type of Hc with
      | (let (q, r) := Z.sqrtrem ?a in _) = _ =>
          pose proof (Z.sqrtrem_sqrt a) as Hq;
          destruct (Z.sqrtrem a) as [q r]
      end.
      injection Hc as <- _ _. cbn [fst] in Hq. rewrite Hq.
      apply Z.sqrt_nonneg.
Qed.

Lemma sqrt_nonneg (x : float) :
  (0 <=? x)%float = true -> (0 <=? PrimFloat.sqrt x)%float = true.
Proof.
  intros Hx. destruct (sqrt_nan_or_nonneg x) as [Hn | H]; [| exact H].
  exfalso. apply is_nan_spec in Hn. rewrite FloatAxioms.sqrt_spec in Hn.
  unfold SF64sqrt in Hn.
  destruct (leb_zero_cases x Hx) as [[s E] | [E | [m [e E]]]];
    rewrite E in Hn; cbn [SFsqrt] in Hn; try discriminate.
  destruct (SFsqrt_core_binary prec emax (Zpos m) e) as [[mz ez] lz] eqn:Hc.
  assert (Hm : (0 <= mz)%Z).
  { unfold SFsqrt_core_binary in Hc.
    match type of Hc with
    | (let (q, r) := Z.sqrtrem ?a in _) = _ =>
        pose proof (Z.sqrtrem_sqrt a) as Hq;
        destruct (Z.sqrtrem a) as [q r]
    end.
    injection Hc as <- _ _. cbn [fst] in Hq. rewrite Hq. apply Z.sqrt_nonneg. }
  destruct (round_aux_sign false mz ez lz Hm) as [E' | [E' | [mf [ef E']]]];
    rewrite E' in Hn; discriminate.
Qed.

(** The square of a number that is not NaN is not negative. *)
Lemma mul_self_nonneg (x : float) :
  is_nan x = false -> (0 <=? x * x)%float = true.
Proof.
  intros Hn. apply leb_zero_intro. rewrite FloatAxioms.mul_spec.
  unfold SF64mul.
  destruct (Prim2SF x) as [s | s | | s m e] eqn:Hx.
  - left. exists false. destruct s; reflexivity.
  - right. left. destruct s; reflexivity.
  - exfalso. apply is_nan_spec in Hx. congruence.
  - cbn [SFmul].
    replace (xorb s s) with false by (destruct s; reflexivity).
    destruct (round_aux_sign false (Zpos (m * m)) (e + e) loc_Exact)
      as [-> | [-> | [mf [ef ->]]]]; eauto. lia.
Qed.

(** The sum of two numbers that are not negative is not negative. *)
Lemma add_nonneg (a b : float) :
  (0 <=? a)%float = true -> (0 <=? b)%float = true ->
  (0 <=? a + b)%float = true.
Proof.
  intros Ha Hb.
  pose proof (Prim2SF_valid a) as Va. pose proof (Prim2SF_valid b) as Vb.
  rewrite FloatAxioms.leb_spec, FloatAxioms.add_spec.
  change (Prim2SF 0) with (S754_zero false). unfold SF64add.
  destruct (leb_zero_cases a Ha) as [[sa Ea] | [Ea | [ma [ea Ea]]]];
    destruct (leb_zero_cases b Hb) as [[sb Eb] | [Eb | [mb [eb Eb]]]];
    rewrite Ea, Eb in *; try reflexivity.
  - destruct sa, sb; reflexivity.
  - destruct (SFadd_bounds (S754_finite false ma ea) (S754_finite false mb eb))
      as (_ & _ & Hdown); trivial.
    apply (Hdown (S754_zero false)); trivial.
    cbn [SF2R cond_Zopp].
    pose proof (mantissa_pos ma ea). pose proof (mantissa_pos mb eb). lra.
Qed.

(** The difference of two finite numbers is not NaN. *)
Lemma sub_finite_not_nan (a b : float) :
  finite a = true -> finite b = true -> is_nan (a - b) = false.
Proof.
  intros Fa Fb.
  destruct (SFsub_bounds (Prim2SF a) (Prim2SF b)) as (Hn & _);
    trivial; try apply Prim2SF_valid.
  destruct (is_nan (a - b)) eqn:E; [| reflexivity].
  apply is_nan_spec in E. rewrite FloatAxioms.sub_spec in E. contradiction.
Qed.

(** A threshold that is not positive lies below every number that is not
    negative. *)
Lemma leb_via_zero (m d : float) :
  (m <=? 0)%float = true -> (0 <=? d)%float = true -> (m <=? d)%float = true.
Proof.
  intros Hm Hd. rewrite FloatAxioms.leb_spec in *.
  change (Prim2SF 0) with (S754_zero false) in *.
  unfold SFleb in *.
  destruct (Prim2SF m) as [sm | sm | | sm mm em];
    destruct (Prim2SF d) as [sd | sd | | sd md ed];
    cbn [SFcompare] in *; try discriminate; try reflexivity;
    try (destruct sm; try discriminate; destruct sd; try discriminate;
         reflexivity).
Qed.

Lemma leb_nan_false (x y : float) :
  (x <=? y)%float = true -> is_nan x = false /\ is_nan y = false.
Proof.
  intros H. split.
  - destruct (is_nan x) eqn:E; [| reflexivity].
    apply is_nan_eq in E. subst x. now rewrite leb_nan_l in H.
  - destruct (is_nan y) eqn:E; [| reflexivity].
    apply is_nan_eq in E. subst y. now rewrite leb_nan_r in H.
Qed.

(** ** Division *)

Lemma eqb_zero_inv (x : float) :
  (x =? 0)%float = true -> exists s, Prim2SF x = S754_zero s.
Proof.
  rewrite FloatAxioms.eqb_spec. change (Prim2SF 0) with (S754_zero false).
  unfold SFeqb.
  destruct (Prim2SF x) as [s | s | | s m e]; cbn [SFcompare];
    try (destruct s); try discriminate; eauto.
Qed.

(** Nothing divided by zero is a finite number. *)
Lemma div_zero_not_finite (w dt : float) :
  (dt =? 0)%float = true -> finite (w / dt) = false.
Proof.
  intros H. destruct (eqb_zero_inv dt H) as [s Hs].
  unfold finite. rewrite FloatAxioms.div_spec, Hs. unfold SF64div.
  destruct (Prim2SF w) as [sw | sw | | sw mw ew]; reflexivity.
Qed.

Lemma Zdigits2_pos (m : positive) : Zdigits2 (Zpos m) = Zpos (digits2_pos m).
Proof. reflexivity. Qed.

(** The quotient of two normal numbers has the sign of the exclusive or,
    unless it underflows. *)
Lemma div_sign (sx sy : bool) (mx my : positive) (ex ey : Z) (x y : float) :
  Prim2SF x = S754_finite sx mx ex -> Prim2SF y = S754_finite sy my ey ->
  (2 ^ 52 <= Zpos mx < 2 ^ 53)%Z -> (2 ^ 52 <= Zpos my < 2 ^ 53)%Z ->
  (-1021 <= ex - ey)%Z ->
  Prim2SF (x / y) = S754_infinity (xorb sx sy) \/
  exists m e, Prim2SF (x / y) = S754_finite (xorb sx sy) m e.
Proof.
  intros Hx Hy Hmx Hmy He.
  rewrite FloatAxioms.div_spec, Hx, Hy. unfold SF64div. cbn [SFdiv].
  destruct (SFdiv_core_binary prec emax (Zpos mx) ex (Zpos my) ey)
    as [[mz ez] lz] eqn:Hc.
  unfold SFdiv_core_binary in Hc.
  assert (Dx : Zdigits2 (Zpos mx) = 53%Z).
  { rewrite Zdigits2_pos.
    pose proof (digits2_pos_le mx 53) as H1.
    pose proof (digits2_pos_ge mx 53) as H2.
    change (53 - 1)%Z with 52%Z in *. lia. }
  assert (Dy : Zdigits2 (Zpos my) = 53%Z).
  { rewrite Zdigits2_pos.
    pose proof (digits2_pos_le my 53) as H1.
    pose proof (digits2_pos_ge my 53) as H2.
    change (53 - 1)%Z with 52%Z in *. lia. }
  rewrite Dx, Dy in Hc.
  replace (Z.min (fexp prec emax (53 + ex - (53 + ey))) (ex - ey))
    with (ex - ey - 53)%Z in Hc
    by (unfold fexp, emin, prec, emax; lia).
  replace (ex - ey - (ex - ey - 53))%Z with 53%Z in Hc by lia.
  rewrite Z.shiftl_mul_pow2 in Hc by lia.
  set (m' := (Zpos mx * 2 ^ 53)%Z) in Hc.
  assert (Hq : (2 ^ 52 <= m' / Zpos my)%Z).
  { apply Z.div_le_lower_bound; [lia |]. unfold m'. nia. }
  unfold Z.div in Hq.
  destruct (Z.div_eucl m' (Zpos my)) as [q r].
  cbn [fst] in Hq. injection Hc as <- <- _.
  apply round_aux_positive; [lia |].
  pose proof (Zdigits2_mono (2 ^ 52) q) as Hd.
  change (Zdigits2 (2 ^ 52)) with 53%Z in Hd. lia.
Qed.

(** A non-zero integer of less than 63 bits, rounded to binary64: a normal
    number of the sign of the integer. *)
Lemma of_int64_normal (d : Z) :
  (0 < Z.abs d <= 2 ^ 63)%Z ->
  exists m e, Prim2SF (Float64.of_int64 d) = S754_finite (d <? 0)%Z m e /\
              (2 ^ 52 <= Zpos m < 2 ^ 53)%Z /\ (-52 <= e)%Z.
Proof.
  intros Hd.
  assert (Hpos : forall p, (Zpos p <= 2 ^ 63)%Z ->
            exists m e, binary_round prec emax false p 0 = S754_finite false m e /\
                        (2 ^ 52 <= Zpos m < 2 ^ 53)%Z /\ (-52 <= e)%Z).
  { intros p Hp.
    destruct (binary_round_bounds p 0) as (Vz & _ & Hup & Hdown & _).
    set (z := binary_round prec emax false p 0) in *.
    assert (F1 : SF_finite (Prim2SF 1) = true) by reflexivity.
    assert (F63 : SF_finite (Prim2SF 0x1p+63) = true) by reflexivity.
    assert (R1 : SF2R (Prim2SF 1) = 1%R).
    { fold (B2R 1). B2R_const 1%float. lra. }
    assert (R63 : SF2R (Prim2SF 0x1p+63) = IZR (2 ^ 63)).
    { fold (B2R 0x1p+63). B2R_const 0x1p+63%float. reflexivity. }
    assert (Hx : (1 <= IZR (Zpos p) * bpow 0 <= IZR (2 ^ 63))%R).
    { change (bpow 0) with 1%R. rewrite Rmult_1_r. split; apply IZR_le; lia. }
    destruct (Hup (Prim2SF 0x1p+63)) as (Fz & Hhi);
      [apply Prim2SF_valid | exact F63 | rewrite R63; lra |].
    destruct (Hdown (Prim2SF 1)) as [E | (_ & Hlo)];
      [apply Prim2SF_valid | exact F1 | rewrite R1; lra
      | rewrite E in Fz; discriminate |].
    rewrite R1 in Hlo.
    destruct z as [s | s | | s m e]; try discriminate.
    - cbn [SF2R] in Hlo. lra.
    - cbn [SpecFloat.valid_binary] in Vz.
      destruct (bounded_facts _ _ Vz) as (He & Hm & Hn).
      assert (Hs : s = false).
      { destruct s; [| reflexivity]. exfalso.
        cbn [SF2R cond_Zopp] in Hlo. rewrite <- ?Pos2Z.opp_pos, ?opp_IZR in Hlo.
        pose proof (mantissa_pos m e). lra. }
      subst s. cbn [SF2R cond_Zopp] in Hlo.
      assert (He52 : (-53 < e)%Z).
      { destruct (Z_lt_le_dec (-53) e) as [H | H]; [exact H | exfalso].
        pose proof (bpow_le e (-53) H) as Hb.
        pose proof (bpow_pos e) as Hp0.
        assert (IZR (Zpos m) <= IZR (2 ^ 53 - 1))%R by (apply IZR_le; lia).
        assert (Hv : (IZR (Zpos m) * bpow e <= IZR (2 ^ 53 - 1) * bpow (-53))%R).
        { apply Rmult_le_compat; trivial; [apply IZR_le; lia | lra]. }
        rewrite bpow_neg in Hv. rewrite minus_IZR in Hv.
        change (2 ^ 53)%Z with 9007199254740992%Z in Hv.
        lra. }
      exists m, e. split; [reflexivity |]. split; [| lia].
      split; [apply Hn; lia | exact Hm]. }
  unfold Float64.of_int64.
  destruct (normalize_bounds d 0) as (Vz & _).
  rewrite Prim2SF_SF2Prim by exact Vz.
  destruct d as [| p | p]; [lia | |]; cbn [binary_normalize Z.ltb Z.compare].
  - apply Hpos. lia.
  - rewrite binary_round_opp.
    destruct (Hpos p) as (m & e & -> & H1 & H2); [lia |].
    exists m, e. auto.
Qed.

(** The quotient of a non-zero 64-bit integer by [10^9], in binary64, has
    the sign of the integer. *)
Lemma int64_seconds_sign (d : Z) :
  ((0 < d < 2 ^ 63)%Z ->
   (0 <? Float64.of_int64 d / 1000000000)%float = true) /\
  ((- 2 ^ 63 <= d < 0)%Z ->
   (Float64.of_int64 d / 1000000000 <? 0)%float = true).
Proof.
  assert (Hy : Prim2SF 1000000000 = S754_finite false 8388608000000000 (-23))
    by reflexivity.
  split; intros Hd;
    (destruct (of_int64_normal d) as (m & e & Hx & Hm & He); [lia |]);
    (destruct (div_sign _ _ _ _ _ _ _ _ Hx Hy Hm) as [E | (mq & eq & E)];
       [lia | lia | |]);
    rewrite FloatAxioms.ltb_spec, E; change (Prim2SF 0) with (S754_zero false);
    [ replace (d <? 0)%Z with false by (symmetry; apply Z.ltb_ge; lia)
    | replace (d <? 0)%Z with false by (symmetry; apply Z.ltb_ge; lia)
    | replace (d <? 0)%Z with true by (symmetry; apply Z.ltb_lt; lia)
    | replace (d <? 0)%Z with true by (symmetry; apply Z.ltb_lt; lia) ];
    reflexivity.
Qed.

(** ** The two wraps of the Kinematics Estimator *)

Lemma leb_intro (a b : float) :
  finite a = true -> finite b = true ->
  (B2R a <= B2R b)%R -> (a <=? b)%float = true.
Proof. intros Fa Fb H. now apply leb_B2R. Qed.

Lemma ltb_intro (a b : float) :
  finite a = true -> finite b = true ->
  (B2R a < B2R b)%R -> (a <? b)%float = true.
Proof. intros Fa Fb H. now apply ltb_B2R. Qed.

(** [(d + 180) % 360 - 180] is NaN or lies between -180 and 180, both
    included. *)
Lemma wrap_range (d : float) :
  let w := (Float64.remainder (d + 180) 360 - 180)%float in
  is_nan w = true \/ ((-180 <=? w) && (w <=? 180))%float = true.
Proof.
  cbv zeta.
  destruct (remainder_range (d + 180) 360 6333186975989760 (-44) eq_refl)
    as [Hn | (_ & Fr & Hr & _)].
  - left. apply is_nan_eq in Hn. rewrite Hn, sub_nan_l. reflexivity.
  - right. rewrite B2R_360 in Hr.
    destruct (sub_bounds (Float64.remainder (d + 180) 360) 180 (-180) 180)
      as (Fw & Hw); trivial.
    { rewrite B2R_180, B2R_m180. lra. }
    apply andb_true_intro. split; apply leb_intro; trivial; lra.
Qed.

(** [(deg + 360) % 360], where [deg] is the value in degrees of an angle
    between [-pi] and [pi], is NaN or lies in [[0, 360)]. *)
Lemma heading_range (rad : float) :
  is_nan rad = true \/
  ((- Float64.pi <=? rad) && (rad <=? Float64.pi))%float = true ->
  let h := Float64.remainder (Float64.degrees rad + 360) 360 in
  is_nan h = true \/ ((0 <=? h) && (h <? 360))%float = true.
Proof.
  intros [Hn | Hr]; cbv zeta.
  - left. apply is_nan_eq in Hn. subst rad. unfold Float64.degrees.
    rewrite mul_nan_l, add_nan_l, remainder_nan_l. reflexivity.
  - apply andb_prop in Hr. destruct Hr as [H1 H2].
    destruct (leb_between (- Float64.pi) Float64.pi rad) as (Fr & Hlo & Hhi);
      trivial.
    unfold Float64.degrees.
    destruct (mul_bounds rad Float64.rad2deg (-256) 256) as (Fd & Hd);
      trivial.
    { B2R_const (- Float64.pi)%float. B2R_const Float64.pi.
      B2R_const Float64.rad2deg. B2R_const (-256)%float. B2R_const 256%float.
      lra. }
    destruct (add_bounds (rad * Float64.rad2deg) 360 104 616) as (Fa & Ha);
      trivial.
    { B2R_const (-256)%float. B2R_const 256%float.
      B2R_const 104%float. B2R_const 616%float. rewrite B2R_360. lra. }
    destruct (remainder_range (rad * Float64.rad2deg + 360) 360
                6333186975989760 (-44) eq_refl)
      as [Hn | (_ & Fh & Hh & Hs)]; [now left | right].
    rewrite B2R_360 in Hh, Hs.
    apply andb_true_intro. split.
    + apply leb_intro; trivial. rewrite B2R_zero. lra.
    + apply ltb_intro; trivial. rewrite B2R_360. apply Hs.
      B2R_const 104%float. lra.
Qed.

(* ===================================================================== *)
(** * Frames *)
(* ===================================================================== *)

Lemma lookup_has_column df col c :
  lookup col (data df) = Some c -> has_column df col = true.
Proof.
  unfold has_column, columns. induction (data df) as [| [name c0] d IH]; simpl.
  - discriminate.
  - destruct (String.eqb col name); simpl; auto.
Qed.

Lemma has_column_lookup df col :
  has_column df col = true -> exists c, lookup col (data df) = Some c.
Proof.
  unfold has_column, columns. induction (data df) as [| [name c0] d IH]; simpl.
  - discriminate.
  - destruct (String.eqb col name); simpl; eauto.
Qed.

Lemma lookup_In col d c : lookup col d = Some c -> In (col, c) d.
Proof.
  induction d as [| [name c0] d IH]; simpl; [discriminate |].
  destruct (String.eqb_spec col name) as [-> | _].
  - intros [= ->]. now left.
  - intros H. right. auto.
Qed.

Lemma lookup_well_formed df col c :
  well_formed df -> lookup col (data df) = Some c -> col_length c = index df.
Proof.
  intros Hwf Hl. apply lookup_In in Hl.
  unfold well_formed in Hwf. rewrite Forall_forall in Hwf.
  exact (Hwf _ Hl).
Qed.

Lemma lookup_assign_eq col c d : lookup col (assign col c d) = Some c.
Proof.
  induction d as [| [name c0] d IH]; simpl.
  - now rewrite String.eqb_refl.
  - destruct (String.eqb col name) eqn:E; simpl; rewrite E; auto.
Qed.

Lemma lookup_assign_ne col col' c d :
  col' <> col -> lookup col' (assign col c d) = lookup col' d.
Proof.
  intros Hne. induction d as [| [name c0] d IH]; simpl.
  - destruct (String.eqb_spec col' col); [contradiction | reflexivity].
  - destruct (String.eqb_spec col name) as [-> | Hn]; simpl.
    + destruct (String.eqb_spec col' name); [contradiction | reflexivity].
    + now rewrite IH.
Qed.

Lemma lookup_setcol_eq df col c :
  lookup col (data (setcol df col c)) = Some c.
Proof. apply lookup_assign_eq. Qed.

Lemma lookup_setcol_ne df col col' c :
  col' <> col -> lookup col' (data (setcol df col c)) = lookup col' (data df).
Proof. apply lookup_assign_ne. Qed.

Lemma assign_assign col c c' d :
  assign col c' (assign col c d) = assign col c' d.
Proof.
  induction d as [| [name c0] d IH]; simpl.
  - now rewrite String.eqb_refl.
  - destruct (String.eqb col name) eqn:E; simpl; rewrite E; [reflexivity |].
    now rewrite IH.
Qed.

Lemma assign_not_nil col c d : assign col c d <> [].
Proof.
  destruct d as [| [name c0] d]; simpl; [discriminate |].
  destruct (String.eqb col name); discriminate.
Qed.

Lemma lookup_select_rows col df idxs :
  lookup col (data (select_rows df idxs)) =
  option_map (take_col idxs) (lookup col (data df)).
Proof.
  unfold select_rows; simpl.
  induction (data df) as [| [name c0] d IH]; simpl; [reflexivity |].
  destruct (String.eqb col name); auto.
Qed.

Lemma take_seq {A : Type} (d : A) (l : list A) :
  take d (seq 0 (length l)) l = l.
Proof.
  unfold take.
  induction l as [| a l IH]; simpl; [reflexivity |].
  f_equal. rewrite <- seq_shift, map_map. exact IH.
Qed.

Lemma take_length {A : Type} (d : A) (idxs : list nat) (l : list A) :
  length (take d idxs l) = length idxs.
Proof. apply length_map. Qed.

Lemma take_indep {A : Type} (d d' : A) (idxs : list nat) (l : list A) :
  Forall (fun i => i < length l) idxs -> take d idxs l = take d' idxs l.
Proof.
  intros H. unfold take. apply map_ext_in. intros i Hi.
  rewrite Forall_forall in H. apply nth_indep. now apply H.
Qed.

Lemma take_map {A B : Type} (f : A -> B) (d : A) (idxs : list nat) (l : list A) :
  take (f d) idxs (map f l) = map f (take d idxs l).
Proof.
  unfold take. rewrite map_map. apply map_ext. intros i. apply map_nth.
Qed.

Lemma take_combine {A B : Type} (da : A) (db : B) (idxs : list nat)
  (xs : list A) (ys : list B) :
  length xs = length ys ->
  combine (take da idxs xs) (take db idxs ys) =
  take (da, db) idxs (combine xs ys).
Proof.
  intros Hlen. unfold take.
  induction idxs as [| i idxs IH]; simpl; [reflexivity |].
  rewrite IH. f_equal. now rewrite combine_nth.
Qed.

Lemma select_rows_all df :
  well_formed df -> select_rows df (seq 0 (index df)) = df.
Proof.
  destruct df as [n d]. unfold well_formed, select_rows; simpl.
  intros Hwf. rewrite length_seq. f_equal.
  induction Hwf as [| [name c] d Hc _ IH]; simpl; [reflexivity |].
  f_equal; [| exact IH].
  simpl in Hc. f_equal.
  destruct c; simpl in *; subst n; now rewrite take_seq.
Qed.

Lemma col_length_take_col idxs c : col_length (take_col idxs c) = length idxs.
Proof. destruct c; simpl; unfold take; apply length_map. Qed.

Lemma cells_length c : length (cells c) = col_length c.
Proof. destruct c; simpl; apply length_map. Qed.

Lemma cells_take_col idxs c :
  cells (take_col idxs c) = take (default_cell c) idxs (cells c).
Proof. destruct c; simpl; now rewrite take_map. Qed.

Lemma well_formed_select_rows df idxs : well_formed (select_rows df idxs).
Proof.
  unfold well_formed, select_rows; simpl.
  apply Forall_map. apply Forall_forall. intros [name c] _; simpl.
  apply col_length_take_col.
Qed.

Lemma well_formed_setcol df col c :
  well_formed df -> col_length c = index df -> well_formed (setcol df col c).
Proof.
  unfold well_formed, setcol; simpl. intros Hwf Hc.
  induction Hwf as [| [name c0] d H0 Hd IH]; simpl.
  - constructor; [exact Hc | constructor].
  - destruct (String.eqb col name); constructor; trivial.
Qed.

Lemma cell_at_take_col (c : column) (idxs : list nat) (k : nat) :
  k < length idxs -> nth k idxs 0 < col_length c ->
  cell_at (take_col idxs c) k = cell_at c (nth k idxs 0).
Proof.
  intros Hk Hin. unfold cell_at. rewrite cells_take_col. unfold take.
  rewrite nth_error_map, (nth_error_nth' idxs 0 Hk). simpl.
  symmetry. apply nth_error_nth'. now rewrite cells_length.
Qed.

Lemma row_select_rows df idxs k :
  well_formed df -> k < length idxs -> nth k idxs 0 < index df ->
  row (select_rows df idxs) k = row df (nth k idxs 0).
Proof.
  intros Hwf Hk Hin. unfold row, select_rows; simpl. rewrite map_map; simpl.
  apply map_ext_in. intros [name c] Hc; simpl. f_equal.
  apply cell_at_take_col; trivial.
  unfold well_formed in Hwf. rewrite Forall_forall in Hwf.
  specialize (Hwf _ Hc). simpl in Hwf. now rewrite Hwf.
Qed.

Lemma planar_coords_length df xc yc xs ys :
  well_formed df ->
  lookup xc (data df) = Some (FloatCol xs) ->
  lookup yc (data df) = Some (FloatCol ys) ->
  length xs = index df /\ length ys = index df /\
  length (combine xs ys) = index df.
Proof.
  intros Hwf Hx Hy.
  pose proof (lookup_well_formed df xc _ Hwf Hx) as Lx.
  pose proof (lookup_well_formed df yc _ Hwf Hy) as Ly.
  simpl in Lx, Ly. rewrite length_combine. lia.
Qed.

Lemma empty_false df : empty df = false -> 0 < index df.
Proof.
  unfold empty. intros H. apply orb_false_elim in H. destruct H as [H _].
  apply Nat.eqb_neq in H. lia.
Qed.

Lemma columns_assign col c d :
  map fst (assign col c d) =
  if existsb (String.eqb col) (map fst d) then map fst d
  else map fst d ++ [col].
Proof.
  induction d as [| [name c0] d IH]; simpl; [reflexivity |].
  destruct (String.eqb col name); simpl; [reflexivity |].
  rewrite IH. now destruct (existsb (String.eqb col) (map fst d)).
Qed.

(** An assignment keeps the columns and their order; a new column comes
    last. *)
Lemma columns_setcol df col c :
  columns (setcol df col c) =
  if has_column df col then columns df else columns df ++ [col].
Proof. apply columns_assign. Qed.

Lemma columns_select_rows df idxs : columns (select_rows df idxs) = columns df.
Proof.
  unfold columns, select_rows; simpl. rewrite map_map. reflexivity.
Qed.

(** The rows of the two-column array of a frame, when both columns exist. *)
Lemma to_numpy_lookup df xc yc cx cy :
  lookup xc (data df) = Some cx -> lookup yc (data df) = Some cy ->
  to_numpy df xc yc = Ok (combine (cells cx) (cells cy)).
Proof. intros Hx Hy. unfold to_numpy, getcol. now rewrite Hx, Hy. Qed.

Lemma float_rows (xs ys : list float64) :
  combine (cells (FloatCol xs)) (cells (FloatCol ys))
  = map float_row (combine xs ys).
Proof.
  simpl. revert ys. induction xs as [| x xs IH]; intros [| y ys]; simpl;
    try reflexivity.
  now rewrite IH.
Qed.

(* ===================================================================== *)
(** * Columns, element by element *)
(* ===================================================================== *)

Lemma nth_error_combine {A B : Type} (l : list A) : forall (l' : list B) i a b,
  nth_error l i = Some a -> nth_error l' i = Some b ->
  nth_error (combine l l') i = Some (a, b).
Proof.
  induction l as [| x l IH]; intros [| y l'] [| i] a b Ha Hb;
    simpl in *; try discriminate.
  - congruence.
  - now apply IH.
Qed.

Lemma nth_error_combine_inv {A B : Type} (l : list A) :
  forall (l' : list B) i p,
  nth_error (combine l l') i = Some p ->
  nth_error l i = Some (fst p) /\ nth_error l' i = Some (snd p).
Proof.
  induction l as [| x l IH]; intros [| y l'] [| i] p H;
    simpl in *; try discriminate.
  - injection H as <-. auto.
  - now apply IH.
Qed.

Lemma nth_error_map2 f (u v : list float64) i x y :
  nth_error u i = Some x -> nth_error v i = Some y ->
  nth_error (map2 f u v) i = Some (f x y).
Proof.
  intros Hu Hv. unfold map2.
  now rewrite nth_error_map, (nth_error_combine u v i x y Hu Hv).
Qed.

Lemma nth_error_map2_inv f (u v : list float64) i z :
  nth_error (map2 f u v) i = Some z ->
  exists x y, nth_error u i = Some x /\ nth_error v i = Some y /\ z = f x y.
Proof.
  unfold map2. rewrite nth_error_map.
  destruct (nth_error (combine u v) i) as [p |] eqn:Hp; [| discriminate].
  intros [= <-]. apply nth_error_combine_inv in Hp. destruct Hp.
  eauto.
Qed.

Lemma map2_length f (u v : list float64) :
  length u = length v -> length (map2 f u v) = length u.
Proof.
  intros H. unfold map2. rewrite length_map, length_combine. lia.
Qed.

Lemma diff_length (v : list float64) : length (diff v) = length v.
Proof.
  destruct v as [| x tl]; [reflexivity |].
  unfold diff. cbn [length].
  rewrite length_map, length_combine. cbn [length]. lia.
Qed.

Lemma diff_first (v : list float64) :
  v <> [] -> nth_error (diff v) 0 = Some nan.
Proof. destruct v; [congruence | reflexivity]. Qed.

Lemma diff_next (v : list float64) i a b :
  nth_error v i = Some a -> nth_error v (S i) = Some b ->
  nth_error (diff v) (S i) = Some (b - a)%float.
Proof.
  destruct v as [| x tl]; [destruct i; discriminate |].
  intros Ha Hb. cbn [nth_error] in Hb. unfold diff. cbn [nth_error].
  now rewrite nth_error_map, (nth_error_combine (x :: tl) tl i a b Ha Hb).
Qed.

Lemma diff_next_inv (v : list float64) i d :
  nth_error (diff v) (S i) = Some d ->
  exists a b, nth_error v i = Some a /\ nth_error v (S i) = Some b /\
              d = (b - a)%float.
Proof.
  destruct v as [| x tl]; [discriminate |].
  unfold diff. cbn [nth_error]. rewrite nth_error_map.
  destruct (nth_error (combine (x :: tl) tl) i) as [p |] eqn:Hp;
    [| discriminate].
  intros [= <-]. apply nth_error_combine_inv in Hp. destruct Hp as [Ha Hb].
  exists (fst p), (snd p). auto.
Qed.

(* ===================================================================== *)
(** * The loop of the Resampler *)
(* ===================================================================== *)

Section Loop.

Variable other_distance : coord -> coord -> result float64.

Lemma for_each_scan m rest : forall pre acc last,
  (st <- for_each (filter_step other_distance (pre ++ rest) m)
                  (seq (length pre) (length rest)) (acc, last) ;;
   Ok (fst st))
  = (tl <- scan other_distance m last (length pre) rest ;; Ok (acc ++ tl)).
Proof.
  induction rest as [| c rest IH]; intros pre acc last.
  - simpl. now rewrite app_nil_r.
  - cbn [length seq for_each scan].
    unfold filter_step at 1. cbn [fst snd]. rewrite nth_middle.
    destruct (row_distance other_distance c last) as [d | e];
      [| reflexivity].
    cbn [bind].
    replace (pre ++ c :: rest) with ((pre ++ [c]) ++ rest)
      by now rewrite <- app_assoc.
    replace (S (length pre)) with (length (pre ++ [c]))
      by (rewrite length_app; simpl; lia).
    destruct (Float64.geb d m); cbn [bind].
    + rewrite IH.
      destruct (scan other_distance m c (length (pre ++ [c])) rest);
        cbn [bind]; [| reflexivity].
      now rewrite <- app_assoc.
    + apply IH.
Qed.

Lemma retained_indices_scan c0 cs m :
  retained_indices other_distance (c0 :: cs) m
  = (tl <- scan other_distance m c0 1 cs ;; Ok (0 :: tl)).
Proof.
  unfold retained_indices. cbn [length nth]. rewrite Nat.sub_1_r. cbn [pred].
  exact (for_each_scan m cs [c0] [0] c0).
Qed.

Lemma scan_bounds m rest : forall last i idxs,
  scan other_distance m last i rest = Ok idxs ->
  Forall (fun j => i <= j < i + length rest) idxs.
Proof.
  induction rest as [| c rest IH]; intros last i idxs H; cbn [scan] in H.
  - injection H as <-. constructor.
  - destruct (row_distance other_distance c last) as [d | e];
      [| discriminate].
    cbn [bind] in H. destruct (Float64.geb d m).
    + destruct (scan other_distance m c (S i) rest) as [tl | e] eqn:E;
        [| discriminate].
      cbn [bind] in H. injection H as <-.
      constructor; [simpl; lia |].
      eapply Forall_impl; [| exact (IH _ _ _ E)]. simpl. intros j Hj. lia.
    + eapply Forall_impl; [| exact (IH _ _ _ H)]. simpl. intros j Hj. lia.
Qed.

Lemma scan_sorted m rest : forall last i idxs,
  scan other_distance m last i rest = Ok idxs -> StronglySorted lt idxs.
Proof.
  induction rest as [| c rest IH]; intros last i idxs H; cbn [scan] in H.
  - injection H as <-. constructor.
  - destruct (row_distance other_distance c last) as [d | e];
      [| discriminate].
    cbn [bind] in H. destruct (Float64.geb d m).
    + destruct (scan other_distance m c (S i) rest) as [tl | e] eqn:E;
        [| discriminate].
      cbn [bind] in H. injection H as <-.
      constructor; [exact (IH _ _ _ E) |].
      eapply Forall_impl; [| exact (scan_bounds _ _ _ _ _ E)].
      simpl. intros j Hj. lia.
    + exact (IH _ _ _ H).
Qed.

Lemma scan_spaced_all m rest : forall last i,
  spaced_rows other_distance m (last :: rest) ->
  scan other_distance m last i rest = Ok (seq i (length rest)).
Proof.
  induction rest as [| c rest IH]; intros last i Hs; [reflexivity |].
  destruct Hs as [Hd Hs]. cbn [scan length seq].
  unfold keeps in Hd.
  destruct (row_distance other_distance c last) as [d | e];
    [| discriminate].
  cbn [bind]. rewrite Hd, (IH c (S i) Hs). reflexivity.
Qed.

(** The rows that the loop retains are spaced. *)
Lemma scan_spaced m rest : forall pre last idxs,
  scan other_distance m last (length pre) rest = Ok idxs ->
  spaced_rows other_distance m (last :: take nan_row idxs (pre ++ rest)).
Proof.
  induction rest as [| c rest IH]; intros pre last idxs H; cbn [scan] in H.
  - injection H as <-. exact I.
  - assert (Hsplit : pre ++ c :: rest = (pre ++ [c]) ++ rest)
      by now rewrite <- app_assoc.
    assert (Hlen : S (length pre) = length (pre ++ [c]))
      by (rewrite length_app; simpl; lia).
    destruct (row_distance other_distance c last) as [d | e] eqn:Hd;
      [| discriminate].
    cbn [bind] in H. destruct (Float64.geb d m) eqn:Hg.
    + destruct (scan other_distance m c (S (length pre)) rest)
        as [tl | e] eqn:E; [| discriminate].
      cbn [bind] in H. injection H as <-.
      unfold take. cbn [map]. rewrite nth_middle.
      split.
      * unfold keeps. now rewrite Hd.
      * rewrite Hsplit. rewrite Hlen in E. exact (IH _ _ _ E).
    + rewrite Hsplit. rewrite Hlen in H. exact (IH _ _ _ H).
Qed.

Lemma filter_lt_all (l : list nat) (i : nat) :
  Forall (fun j => j < i) l -> filter (fun j => j <? i) l = l.
Proof.
  induction 1 as [| j l Hj _ IH]; simpl; [reflexivity |].
  apply Nat.ltb_lt in Hj. now rewrite Hj, IH.
Qed.

Lemma filter_lt_none (l : list nat) (i : nat) :
  Forall (fun j => i <= j) l -> filter (fun j => j <? i) l = [].
Proof.
  induction 1 as [| j l Hj _ IH]; simpl; [reflexivity |].
  apply Nat.ltb_ge in Hj. now rewrite Hj.
Qed.

Lemma last_retained_before_split pre post i :
  Forall (fun j => j < i) pre -> Forall (fun j => i <= j) post ->
  last_retained_before (pre ++ post) i = last pre 0.
Proof.
  intros Hpre Hpost. unfold last_retained_before.
  now rewrite filter_app, filter_lt_all, filter_lt_none, app_nil_r.
Qed.

(** The rule of the specification holds along the loop: [pre] are the
    positions retained so far, all before the position of [rest]. *)
Lemma scan_rule m rest : forall pre_coords pre last idxs,
  pre <> [] ->
  Forall (fun j => j < length pre_coords) pre ->
  last = nth (List.last pre 0) (pre_coords ++ rest) nan_row ->
  scan other_distance m last (length pre_coords) rest = Ok idxs ->
  forall i, length pre_coords <= i < length (pre_coords ++ rest) ->
    (In i (pre ++ idxs) <->
     keeps other_distance m
       (nth i (pre_coords ++ rest) nan_row)
       (nth (last_retained_before (pre ++ idxs) i)
            (pre_coords ++ rest) nan_row) = true).
Proof.
  induction rest as [| c rest IH];
    intros pcs pre last idxs Hne Hpre Hlast Hscan i Hi.
  - rewrite app_nil_r in Hi. lia.
  - cbn [scan] in Hscan.
    assert (Hsplit : pcs ++ c :: rest = (pcs ++ [c]) ++ rest)
      by now rewrite <- app_assoc.
    assert (Hlen : S (length pcs) = length (pcs ++ [c]))
      by (rewrite length_app; simpl; lia).
    destruct (row_distance other_distance c last) as [d | e] eqn:Hd;
      [| discriminate].
    cbn [bind] in Hscan.
    destruct (Float64.geb d m) eqn:Hg.
    + destruct (scan other_distance m c (S (length pcs)) rest)
        as [tl | e] eqn:E; [| discriminate].
      cbn [bind] in Hscan. injection Hscan as <-.
      pose proof (scan_bounds _ _ _ _ _ E) as Hb.
      destruct (Nat.eq_dec i (length pcs)) as [-> | Hneq].
      * rewrite nth_middle.
        rewrite last_retained_before_split; trivial.
        -- rewrite <- Hlast. unfold keeps. rewrite Hd, Hg.
           split; [reflexivity |].
           intros _. apply in_or_app. right. now left.
        -- constructor; [lia |].
           eapply Forall_impl; [| exact Hb]. simpl. intros; lia.
      * replace (pre ++ length pcs :: tl)
          with ((pre ++ [length pcs]) ++ tl)
          by now rewrite <- app_assoc.
        rewrite Hsplit. rewrite Hlen in E.
        apply (IH (pcs ++ [c]) (pre ++ [length pcs]) c tl); trivial.
        -- intros Hnil. apply app_eq_nil in Hnil. destruct Hnil; discriminate.
        -- rewrite <- Hlen. apply Forall_app. split.
           ++ eapply Forall_impl; [| exact Hpre]. simpl. intros; lia.
           ++ constructor; [lia | constructor].
        -- rewrite last_last, <- Hsplit. now rewrite nth_middle.
        -- rewrite <- Hlen, <- Hsplit. lia.
    + pose proof (scan_bounds _ _ _ _ _ Hscan) as Hb.
      destruct (Nat.eq_dec i (length pcs)) as [-> | Hneq].
      * rewrite nth_middle.
        rewrite last_retained_before_split; trivial.
        -- rewrite <- Hlast. unfold keeps. rewrite Hd, Hg.
           split; [| discriminate].
           intros Hin. apply in_app_or in Hin. destruct Hin as [Hin | Hin].
           ++ rewrite Forall_forall in Hpre. apply Hpre in Hin. lia.
           ++ rewrite Forall_forall in Hb. apply Hb in Hin. lia.
        -- eapply Forall_impl; [| exact Hb]. simpl. intros; lia.
      * rewrite Hsplit. rewrite Hlen in Hscan.
        apply (IH (pcs ++ [c]) pre last idxs); trivial.
        -- rewrite <- Hlen.
           eapply Forall_impl; [| exact Hpre]. simpl. intros; lia.
        -- now rewrite <- Hsplit.
        -- rewrite <- Hlen, <- Hsplit. lia.
Qed.

(** What a run of the loop that ends normally has retained. *)
Lemma retained_indices_inv coords m idxs :
  retained_indices other_distance coords m = Ok idxs -> coords <> [] ->
  exists tl, idxs = 0 :: tl /\
    StronglySorted lt idxs /\
    Forall (fun i => i < length coords) idxs /\
    (forall i, 1 <= i < length coords ->
       (In i idxs <->
        keeps other_distance m (nth i coords nan_row)
          (nth (last_retained_before idxs i) coords nan_row) = true)) /\
    spaced_rows other_distance m (take nan_row idxs coords).
Proof.
  destruct coords as [| c0 cs]; [congruence | intros H _].
  rewrite retained_indices_scan in H.
  destruct (scan other_distance m c0 1 cs) as [tl | e] eqn:E;
    [| discriminate].
  cbn [bind] in H. injection H as <-.
  pose proof (scan_bounds _ _ _ _ _ E) as Hb.
  exists tl. split; [reflexivity |].
  split; [| split; [| split]].
  - constructor; [exact (scan_sorted _ _ _ _ _ E) |].
    eapply Forall_impl; [| exact Hb]. simpl. intros; lia.
  - constructor; [simpl; lia |].
    eapply Forall_impl; [| exact Hb]. simpl. intros; lia.
  - intros i Hi.
    apply (scan_rule m cs [c0] [0] c0 tl); simpl; trivial; try lia.
    + discriminate.
    + constructor; [lia | constructor].
  - exact (scan_spaced m cs [c0] c0 tl E).
Qed.

Lemma retained_indices_all coords m :
  coords <> [] -> spaced_rows other_distance m coords ->
  retained_indices other_distance coords m = Ok (seq 0 (length coords)).
Proof.
  destruct coords as [| c0 cs]; intros Hne Hs; [congruence |].
  rewrite retained_indices_scan, (scan_spaced_all m cs c0 1 Hs).
  reflexivity.
Qed.

(** A second pass over the retained rows retains them all. *)
Lemma retained_indices_again coords m idxs :
  retained_indices other_distance coords m = Ok idxs -> coords <> [] ->
  retained_indices other_distance (take nan_row idxs coords) m
  = Ok (seq 0 (length idxs)).
Proof.
  intros H Hne.
  destruct (retained_indices_inv coords m idxs H Hne)
    as (tl & -> & _ & _ & _ & Hs).
  rewrite <- (take_length nan_row (0 :: tl) coords).
  apply retained_indices_all; [discriminate | exact Hs].
Qed.

(** ** Rows of a float64 array *)

Lemma row_distance_float (p q : point) :
  row_distance other_distance (float_row p) (float_row q)
  = Ok (euclidean p q).
Proof. destruct p, q. reflexivity. Qed.

Lemma keeps_float m (p q : point) :
  keeps other_distance m (float_row p) (float_row q)
  = (m <=? euclidean p q)%float.
Proof. unfold keeps. now rewrite row_distance_float. Qed.

Lemma nth_float_row (pts : list point) i :
  nth i (map float_row pts) nan_row = float_row (nth i pts nan_point).
Proof. unfold nan_row. apply map_nth. Qed.

Lemma scan_float m rest : forall last i,
  exists idxs,
    scan other_distance m (float_row last) i (map float_row rest) = Ok idxs.
Proof.
  induction rest as [| c rest IH]; intros last i; cbn [map scan].
  - eauto.
  - rewrite row_distance_float. cbn [bind].
    destruct (Float64.geb (euclidean c last) m).
    + destruct (IH c (S i)) as [tl ->]. cbn [bind]. eauto.
    + apply IH.
Qed.

(** On rows of floats the loop raises nothing. *)
Lemma retained_indices_float (pts : list point) m :
  pts <> [] ->
  exists idxs, retained_indices other_distance (map float_row pts) m = Ok idxs.
Proof.
  destruct pts as [| p pts]; [congruence | intros _].
  cbn [map]. rewrite retained_indices_scan.
  destruct (scan_float m pts p 1) as [tl ->]. cbn [bind]. eauto.
Qed.

Lemma spaced_rows_float m (pts : list point) :
  spaced_rows other_distance m (map float_row pts) <-> spaced m pts.
Proof.
  induction pts as [| p pts IH]; [reflexivity |].
  destruct pts as [| q pts]; [reflexivity |].
  cbn [map spaced_rows spaced] in *. rewrite keeps_float, IH. reflexivity.
Qed.

Lemma retained_indices_greedy (pts : list point) m idxs :
  retained_indices other_distance (map float_row pts) m = Ok idxs ->
  pts <> [] ->
  greedy_subsequence pts m idxs /\ nth 0 idxs 0 = 0 /\
  spaced m (take nan_point idxs pts).
Proof.
  intros H Hne.
  destruct (retained_indices_inv (map float_row pts) m idxs H)
    as (tl & -> & Hs & Hr & Hrule & Hsp).
  { destruct pts; [congruence | discriminate]. }
  rewrite length_map in Hr, Hrule.
  split; [| split; [reflexivity |]].
  - constructor; trivial; [now left |].
    intros i Hi. rewrite (Hrule i Hi), !nth_float_row, keeps_float.
    reflexivity.
  - apply spaced_rows_float.
    unfold nan_row in Hsp. rewrite take_map in Hsp. exact Hsp.
Qed.

End Loop.

(* ===================================================================== *)
(** * Uniqueness of the greedy subsequence *)
(* ===================================================================== *)

Lemma sorted_filter (f : nat -> bool) (l : list nat) :
  StronglySorted lt l -> StronglySorted lt (filter f l).
Proof.
  induction 1 as [| a l Hs IH Ha]; simpl; [constructor |].
  destruct (f a); [| exact IH].
  constructor; [exact IH |].
  rewrite Forall_forall in *. intros x Hx. apply filter_In in Hx.
  apply Ha. tauto.
Qed.

Lemma sorted_ext (A : list nat) : forall B,
  StronglySorted lt A -> StronglySorted lt B ->
  (forall x, In x A <-> In x B) -> A = B.
Proof.
  induction A as [| a A IH]; intros B HA HB Hext.
  - destruct B as [| b B]; [reflexivity |].
    exfalso. apply (Hext b). now left.
  - destruct B as [| b B].
    + exfalso. apply (Hext a). now left.
    + inversion HA as [| ? ? HA' Ha]; subst.
      inversion HB as [| ? ? HB' Hb]; subst.
      rewrite Forall_forall in Ha, Hb.
      assert (a = b) as ->.
      { destruct (proj1 (Hext a) (or_introl eq_refl)) as [E | Hin]; [auto |].
        destruct (proj2 (Hext b) (or_introl eq_refl)) as [E | Hin']; [auto |].
        apply Hb in Hin. apply Ha in Hin'. lia. }
      f_equal. apply IH; trivial.
      intros x. split; intros Hx.
      * destruct (proj1 (Hext x) (or_intror Hx)) as [E | Hin]; [| exact Hin].
        apply Ha in Hx. lia.
      * destruct (proj2 (Hext x) (or_intror Hx)) as [E | Hin]; [| exact Hin].
        apply Hb in Hx. lia.
Qed.

Lemma greedy_subsequence_agree coords m A B :
  greedy_subsequence coords m A -> greedy_subsequence coords m B ->
  forall n i, i < n -> (In i A <-> In i B).
Proof.
  intros [HsA HrA HfA HA] [HsB HrB HfB HB].
  induction n as [| n IH]; intros i Hi; [lia |].
  destruct (Nat.eq_dec i 0) as [-> | Hpos]; [tauto |].
  destruct (le_lt_dec (length coords) i) as [Hout | Hin].
  - rewrite Forall_forall in HrA, HrB.
    split; intros H; [apply HrA in H | apply HrB in H]; lia.
  - assert (Hsame : last_retained_before A i = last_retained_before B i).
    { unfold last_retained_before. f_equal.
      apply sorted_ext; try now apply sorted_filter.
      intros x. rewrite !filter_In, Nat.ltb_lt.
      split; intros [Hx Hlt]; split; trivial; apply (IH x); trivial; lia. }
    rewrite (HA i), (HB i), Hsame by lia. tauto.
Qed.

Lemma greedy_subsequence_unique coords m A B :
  greedy_subsequence coords m A -> greedy_subsequence coords m B -> A = B.
Proof.
  intros HA HB.
  apply sorted_ext; try apply gs_order with (coords := coords) (m := m); trivial.
  intros x. apply (greedy_subsequence_agree coords m A B HA HB (S x)). lia.
Qed.

(* ===================================================================== *)
(** * Distances in binary64 *)
(* ===================================================================== *)

(** A computed distance is NaN or not negative. *)
Lemma euclidean_nan_or_nonneg (p q : point) :
  is_nan (euclidean p q) = true \/ (0 <=? euclidean p q)%float = true.
Proof. apply sqrt_nan_or_nonneg. Qed.

(** Between two points with finite coordinates the computed distance is not
    negative: it is a number or, on overflow, plus infinity. *)
Lemma euclidean_finite (p q : point) :
  finite_point p -> finite_point q -> (0 <=? euclidean p q)%float = true.
Proof.
  intros [Hp1 Hp2] [Hq1 Hq2]. unfold euclidean.
  apply sqrt_nonneg. apply add_nonneg; apply mul_self_nonneg;
    now apply sub_finite_not_nan.
Qed.

(** Against a threshold of zero, of either sign, a distance passes unless it
    is NaN. *)
Lemma leb_zero_threshold (m d : float) :
  (m =? 0)%float = true ->
  is_nan d = true \/ (0 <=? d)%float = true ->
  (m <=? d)%float = negb (is_nan d).
Proof.
  intros Hm Hd. destruct (eqb_zero_inv m Hm) as [s Hs].
  assert (E : (m <=? d)%float = (0 <=? d)%float).
  { rewrite !FloatAxioms.leb_spec, Hs.
    change (Prim2SF 0) with (S754_zero false).
    unfold SFleb. destruct (Prim2SF d) as [sd | sd | | sd md ed];
      reflexivity. }
  rewrite E. destruct Hd as [Hn | Hd].
  - rewrite Hn. apply is_nan_eq in Hn. subst d. apply leb_nan_r.
  - rewrite Hd. destruct (leb_nan_false _ _ Hd) as [_ ->]. reflexivity.
Qed.

Lemma spaced_finite m cs :
  non_positive m -> Forall finite_point cs -> spaced m cs.
Proof.
  intros Hm. induction 1 as [| p tl Hp Htl IH]; simpl; [exact I |].
  destruct tl as [| q tl]; [exact I |].
  split; [| exact IH].
  inversion Htl; subst.
  apply leb_via_zero; [exact Hm | now apply euclidean_finite].
Qed.

Lemma spaced_nth m cs : spaced m cs ->
  forall k, S k < length cs ->
    (m <=? euclidean (nth (S k) cs nan_point) (nth k cs nan_point))%float = true.
Proof.
  induction cs as [| p tl IH]; intros Hs k Hk; [simpl in Hk; lia |].
  destruct tl as [| q tl]; [simpl in Hk; lia |].
  destruct Hs as [Hd Hs].
  destruct k as [| k]; [exact Hd |].
  apply (IH Hs k). simpl in *. lia.
Qed.

Lemma nth_take {A : Type} (d : A) (idxs : list nat) (l : list A) k :
  k < length idxs -> nth k (take d idxs l) d = nth (nth k idxs 0) l d.
Proof.
  intros Hk. unfold take.
  rewrite (nth_indep _ d (nth 0 l d)) by now rewrite length_map.
  now rewrite (map_nth (fun i => nth i l d) idxs 0 k).
Qed.

(* ===================================================================== *)
(** * The Resampler on a frame *)
(* ===================================================================== *)

Lemma retained_in_range od coords m idxs n :
  retained_indices od coords m = Ok idxs -> coords <> [] ->
  length coords = n ->
  forallb (fun i => i <? n) idxs = true.
Proof.
  intros H Hne <-.
  destruct (retained_indices_inv od coords m idxs H Hne)
    as (_ & _ & _ & Hr & _).
  apply forallb_forall. intros i Hi. apply Nat.ltb_lt.
  rewrite Forall_forall in Hr. now apply Hr.
Qed.

(** On a non-empty frame that has the two planar columns, the stage returns
    the rows that the loop retains, with the threshold as a new column. *)
Lemma resampler_run_columns od df config xc yc m cx cy :
  x_col config = Some xc -> y_col config = Some yc ->
  min_distance config = Some m ->
  well_formed df -> empty df = false ->
  lookup xc (data df) = Some cx -> lookup yc (data df) = Some cy ->
  length (combine (cells cx) (cells cy)) = index df /\
  data_filter_points_by_distance od df config =
    (idxs <- retained_indices od (combine (cells cx) (cells cy)) m ;;
     Ok (setcol (select_rows df idxs) "min_distance"
                (FloatCol (repeat m (length idxs))))).
Proof.
  intros Hxc Hyc Hm Hwf Hne Hx Hy.
  pose proof (lookup_well_formed df xc _ Hwf Hx) as Lx.
  pose proof (lookup_well_formed df yc _ Hwf Hy) as Ly.
  pose proof (empty_false df Hne) as Hpos.
  assert (Hlen : length (combine (cells cx) (cells cy)) = index df).
  { rewrite length_combine, !cells_length. lia. }
  split; [exact Hlen |].
  unfold data_filter_points_by_distance.
  rewrite Hxc, Hyc, Hm. cbn [getitem bind]. rewrite Hne.
  cbn [require_columns].
  rewrite (lookup_has_column df xc _ Hx), (lookup_has_column df yc _ Hy).
  cbn [bind]. rewrite (to_numpy_lookup df xc yc cx cy Hx Hy). cbn [bind].
  destruct (combine (cells cx) (cells cy)) as [| c0 cs] eqn:Hc;
    [simpl in Hlen; lia |].
  destruct (retained_indices od (c0 :: cs) m) as [idxs | e] eqn:Hr;
    [| reflexivity].
  cbn [bind]. unfold iloc.
  rewrite (retained_in_range od (c0 :: cs) m idxs (index df) Hr)
    by (trivial; discriminate).
  reflexivity.
Qed.

Section PlanarTrace.

(** A non-empty, well-formed frame whose planar columns, as the
    configuration names them, are float columns. *)
Variable other_distance : coord -> coord -> result float64.
Variables (df : DataFrame) (config : Config).
Variables (xc yc : string) (m : float64) (xs ys : list float64).
Hypothesis config_x : x_col config = Some xc.
Hypothesis config_y : y_col config = Some yc.
Hypothesis config_m : min_distance config = Some m.
Hypothesis frame_wf : well_formed df.
Hypothesis frame_rows : empty df = false.
Hypothesis planar_x : lookup xc (data df) = Some (FloatCol xs).
Hypothesis planar_y : lookup yc (data df) = Some (FloatCol ys).

Lemma planar_coords_rows :
  length (combine xs ys) = index df /\ combine xs ys <> [].
Proof.
  destruct (planar_coords_length df xc yc xs ys frame_wf planar_x planar_y)
    as [_ [_ Hlen]].
  pose proof (empty_false df frame_rows) as Hpos.
  split; [exact Hlen |].
  intros Hnil. rewrite Hnil in Hlen. simpl in Hlen. lia.
Qed.

(** The Resampler returns the rows at the positions that the loop retains,
    with the threshold as a new column. *)
Lemma resampler_run :
  exists idxs,
    retained_indices other_distance (map float_row (combine xs ys)) m
      = Ok idxs /\
    data_filter_points_by_distance other_distance df config =
      Ok (setcol (select_rows df idxs) "min_distance"
                 (FloatCol (repeat m (length idxs)))).
Proof.
  destruct planar_coords_rows as [Hlen Hne].
  destruct (retained_indices_float other_distance (combine xs ys) m Hne)
    as [idxs Hr].
  exists idxs. split; [exact Hr |].
  destruct (resampler_run_columns other_distance df config xc yc m _ _
              config_x config_y config_m frame_wf frame_rows planar_x planar_y)
    as [_ ->].
  rewrite float_rows, Hr. reflexivity.
Qed.

(** What the frame that the Resampler returns holds: the rows of the input
    at the retained positions, in their order, and the threshold in the
    column [min_distance]. *)
Lemma resampler_output :
  exists idxs out,
    data_filter_points_by_distance other_distance df config = Ok out /\
    out = setcol (select_rows df idxs) "min_distance"
                 (FloatCol (repeat m (length idxs))) /\
    greedy_subsequence (combine xs ys) m idxs /\
    nth 0 idxs 0 = 0 /\ 0 < length idxs /\
    spaced m (take nan_point idxs (combine xs ys)) /\
    index out = length idxs /\
    columns out = (if has_column df "min_distance" then columns df
                   else columns df ++ ["min_distance"]) /\
    lookup "min_distance" (data out)
      = Some (FloatCol (repeat m (length idxs))) /\
    (forall col c, col <> "min_distance" ->
       lookup col (data df) = Some c ->
       exists c', lookup col (data out) = Some c' /\
                  col_length c' = length idxs /\
                  forall k, k < length idxs ->
                    cell_at c' k = cell_at c (nth k idxs 0)).
Proof.
  destruct planar_coords_rows as [Hlen Hne].
  destruct resampler_run as (idxs & Hr & Hrun).
  destruct (retained_indices_greedy other_distance _ m idxs Hr Hne)
    as (Hg & Hhead & Hsp).
  exists idxs. eexists. split; [exact Hrun |]. split; [reflexivity |].
  split; [exact Hg |]. split; [exact Hhead |].
  split.
  { pose proof (gs_first _ _ _ Hg) as H0.
    destruct idxs; [contradiction | simpl; lia]. }
  split; [exact Hsp |].
  split; [reflexivity |].
  split.
  { rewrite columns_setcol. unfold has_column.
    now rewrite !columns_select_rows. }
  split; [apply lookup_setcol_eq |].
  intros col c Hcol Hc.
  exists (take_col idxs c).
  split; [| split].
  - rewrite lookup_setcol_ne by exact Hcol.
    now rewrite lookup_select_rows, Hc.
  - apply col_length_take_col.
  - intros k Hk. apply cell_at_take_col; trivial.
    rewrite (lookup_well_formed df col c frame_wf Hc), <- Hlen.
    pose proof (gs_range _ _ _ Hg) as Hrg. rewrite Forall_forall in Hrg.
    apply Hrg. now apply nth_In.
Qed.

(** With a non-positive threshold and finite coordinates every row stays. *)
Lemma resampler_keeps_all :
  non_positive m -> Forall finite_point (combine xs ys) ->
  data_filter_points_by_distance other_distance df config =
    Ok (setcol df "min_distance" (FloatCol (repeat m (index df)))).
Proof.
  intros Hnp Hfin.
  destruct planar_coords_rows as [Hlen Hne].
  destruct (resampler_run_columns other_distance df config xc yc m _ _
              config_x config_y config_m frame_wf frame_rows planar_x planar_y)
    as [_ ->].
  rewrite float_rows, retained_indices_all.
  - cbn [bind]. rewrite length_map, Hlen, select_rows_all, length_seq;
      trivial.
  - destruct (combine xs ys); [congruence | discriminate].
  - apply spaced_rows_float. now apply spaced_finite.
Qed.

(** C1, amended.  On a non-empty trace whose planar columns are present, the
    Resampler returns the rows at the positions [idxs], in their original
    order and with the threshold in the column [min_distance], where [idxs]
    is the one list of positions that contains the first sample and contains
    every later sample exactly when its distance to the retained sample
    before it, as binary64 arithmetic computes it, is at least
    [min_distance]. *)
Theorem resampler_greedy_subsequence :
  exists idxs out,
    data_filter_points_by_distance other_distance df config = Ok out /\
    StronglySorted lt idxs /\
    Forall (fun i => i < index df) idxs /\
    In 0 idxs /\
    (forall i, 1 <= i < index df ->
       let j := last_retained_before idxs i in
       let dx := (nth i xs nan - nth j xs nan)%float in
       let dy := (nth i ys nan - nth j ys nan)%float in
       (In i idxs <->
        (m <=? PrimFloat.sqrt (dx * dx + dy * dy))%float = true)) /\
    (forall idxs', greedy_subsequence (combine xs ys) m idxs' -> idxs' = idxs) /\
    index out = length idxs /\
    columns out = (if has_column df "min_distance" then columns df
                   else columns df ++ ["min_distance"]) /\
    lookup "min_distance" (data out)
      = Some (FloatCol (repeat m (length idxs))) /\
    (forall col c, col <> "min_distance" ->
       lookup col (data df) = Some c ->
       exists c', lookup col (data out) = Some c' /\
                  col_length c' = length idxs /\
                  forall k, k < length idxs ->
                    cell_at c' k = cell_at c (nth k idxs 0)).
Proof.
  destruct planar_coords_rows as [Hlen Hne].
  destruct (planar_coords_length df xc yc xs ys frame_wf planar_x planar_y)
    as (Lx & Ly & _).
  destruct resampler_output
    as (idxs & out & Hrun & _ & Hg & _ & _ & _ & Hi & Hcols & Hm & Hcells).
  exists idxs, out.
  split; [exact Hrun |].
  split; [exact (gs_order _ _ _ Hg) |].
  split; [rewrite <- Hlen; exact (gs_range _ _ _ Hg) |].
  split; [exact (gs_first _ _ _ Hg) |].
  split.
  { intros i Hrange. cbv zeta. rewrite (gs_rule _ _ _ Hg i) by lia.
    unfold euclidean, nan_point.
    rewrite !combine_nth by lia. reflexivity. }
  split.
  { intros idxs' H'. now apply greedy_subsequence_unique with (1 := H'). }
  auto.
Qed.

(** C3, amended.  On a non-empty trace, every two consecutive rows of the
    output are rows of the input whose computed distance is at least
    [min_distance], and the first input sample is the first row of the
    output.  With [min_distance = 0] a later row is retained exactly when
    its computed distance to the retained row before it is not NaN; when all
    coordinates are finite, the output is the input with the [min_distance]
    column set. *)
Theorem resampler_spacing :
  exists idxs out,
    data_filter_points_by_distance other_distance df config = Ok out /\
    index out = length idxs /\
    (forall col c, col <> "min_distance" ->
       lookup col (data df) = Some c ->
       exists c', lookup col (data out) = Some c' /\
                  forall k, k < length idxs ->
                    cell_at c' k = cell_at c (nth k idxs 0)) /\
    lookup "min_distance" (data out)
      = Some (FloatCol (repeat m (length idxs))) /\
    (forall k, S k < length idxs ->
       let i := nth (S k) idxs 0 in
       let j := nth k idxs 0 in
       let dx := (nth i xs nan - nth j xs nan)%float in
       let dy := (nth i ys nan - nth j ys nan)%float in
       (m <=? PrimFloat.sqrt (dx * dx + dy * dy))%float = true) /\
    0 < length idxs /\ nth 0 idxs 0 = 0 /\
    ((m =? 0)%float = true ->
     (forall i, 1 <= i < index df ->
        let j := last_retained_before idxs i in
        let dx := (nth i xs nan - nth j xs nan)%float in
        let dy := (nth i ys nan - nth j ys nan)%float in
        (In i idxs <->
         is_nan (PrimFloat.sqrt (dx * dx + dy * dy))%float = false)) /\
     (Forall finite_point (combine xs ys) ->
      idxs = seq 0 (index df) /\
      index out = index df /\
      lookup "min_distance" (data out)
        = Some (FloatCol (repeat m (index df))) /\
      forall col, col <> "min_distance" ->
        lookup col (data out) = lookup col (data df))).
Proof.
  destruct planar_coords_rows as [Hlen Hne].
  destruct (planar_coords_length df xc yc xs ys frame_wf planar_x planar_y)
    as (Lx & Ly & _).
  destruct resampler_output
    as (idxs & out & Hrun & Hout & Hg & Hhead & Hpos & Hsp & Hi & _ & Hm
        & Hcells).
  assert (Hrg : forall k, k < length idxs -> nth k idxs 0 < index df).
  { intros k Hk. rewrite <- Hlen.
    pose proof (gs_range _ _ _ Hg) as H. rewrite Forall_forall in H.
    apply H. now apply nth_In. }
  exists idxs, out.
  split; [exact Hrun |]. split; [exact Hi |].
  split.
  { intros col c Hcol Hc. destruct (Hcells col c Hcol Hc) as (c' & H1 & _ & H2).
    eauto. }
  split; [exact Hm |].
  split.
  { intros k Hk. cbv zeta.
    pose proof (spaced_nth m _ Hsp k) as H. rewrite take_length in H.
    specialize (H Hk). rewrite !nth_take in H by lia.
    unfold euclidean, nan_point in H.
    rewrite !combine_nth in H by lia. exact H. }
  split; [exact Hpos |]. split; [exact Hhead |].
  intros Hzero. split.
  - intros i Hrange. cbv zeta. rewrite (gs_rule _ _ _ Hg i) by lia.
    rewrite (leb_zero_threshold m _ Hzero (euclidean_nan_or_nonneg _ _)).
    unfold euclidean, nan_point. rewrite !combine_nth by lia.
    cbn [fst snd].
    match goal with |- context [is_nan ?d] => destruct (is_nan d) end;
      simpl; split; congruence.
  - intros Hfin.
    assert (Hnp : non_positive m).
    { unfold non_positive. destruct (eqb_zero_inv m Hzero) as [s Hs].
      rewrite FloatAxioms.leb_spec, Hs. reflexivity. }
    pose proof (resampler_keeps_all Hnp Hfin) as Hall.
    rewrite Hrun in Hall. injection Hall as Hall.
    assert (Hidx : idxs = seq 0 (index df)).
    { apply (greedy_subsequence_unique (combine xs ys) m); [exact Hg |].
      assert (Hr : retained_indices other_distance
                     (map float_row (combine xs ys)) m
                   = Ok (seq 0 (index df))).
      { rewrite <- Hlen, <- (length_map float_row).
        apply retained_indices_all.
        - destruct (combine xs ys); [congruence | discriminate].
        - apply spaced_rows_float. now apply spaced_finite. }
      exact (proj1 (retained_indices_greedy other_distance _ m _ Hr Hne)). }
    split; [exact Hidx |].
    rewrite Hall.
    split; [reflexivity |].
    split; [apply lookup_setcol_eq |].
    intros col Hcol. now apply lookup_setcol_ne.
Qed.


End PlanarTrace.

(** C2. Running the Resampler on its own output, with the same configuration,
    changes nothing: the second pass retains every row, and a run that raises
    raises again.  The planar columns are columns other than the
    [min_distance] column that the stage writes. *)
Theorem resampler_idempotent other_distance df config :
  well_formed df ->
  x_col config <> Some "min_distance" ->
  y_col config <> Some "min_distance" ->
  (out <- data_filter_points_by_distance other_distance df config ;;
   data_filter_points_by_distance other_distance out config)
  = data_filter_points_by_distance other_distance df config.
Proof.
  intros Hwf Hxn Hyn.
  destruct (x_col config) as [xc |] eqn:Hxc;
    [| unfold data_filter_points_by_distance; rewrite Hxc; reflexivity].
  destruct (y_col config) as [yc |] eqn:Hyc;
    [| unfold data_filter_points_by_distance; rewrite Hxc, Hyc; reflexivity].
  destruct (min_distance config) as [m |] eqn:Hm;
    [| unfold data_filter_points_by_distance; rewrite Hxc, Hyc, Hm; reflexivity].
  assert (Hunfold : forall d, data_filter_points_by_distance other_distance d config =
            if empty d then Ok d
            else _ <- require_columns d [xc; yc] ;;
                 coords <- to_numpy d xc yc ;;
                 match coords with
                 | [] => Raise IndexError
                 | _ :: _ =>
                     idxs <- retained_indices other_distance coords m ;;
                     filtered <- iloc d idxs ;;
                     Ok (setcol filtered "min_distance"
                                (FloatCol (repeat m (index filtered))))
                 end).
  { intros d. unfold data_filter_points_by_distance.
    now rewrite Hxc, Hyc, Hm. }
  destruct (empty df) eqn:Hne.
  { rewrite (Hunfold df), Hne. simpl. now rewrite (Hunfold df), Hne. }
  destruct (has_column df xc) eqn:Hhx;
    [| rewrite (Hunfold df), Hne; simpl; rewrite Hhx; reflexivity].
  destruct (has_column df yc) eqn:Hhy;
    [| rewrite (Hunfold df), Hne; simpl; rewrite Hhx, Hhy; reflexivity].
  destruct (has_column_lookup df xc Hhx) as [cx Hx].
  destruct (has_column_lookup df yc Hhy) as [cy Hy].
  clear Hunfold.
  destruct (resampler_run_columns other_distance df config xc yc m cx cy
              Hxc Hyc Hm Hwf Hne Hx Hy) as [Hlen ->].
  set (coords := combine (cells cx) (cells cy)) in *.
  pose proof (empty_false df Hne) as Hpos.
  assert (Hcne : coords <> []).
  { intros E. rewrite E in Hlen. simpl in Hlen. lia. }
  destruct (retained_indices other_distance coords m) as [idxs | e] eqn:Hr;
    [| reflexivity].
  cbn [bind].
  destruct (retained_indices_inv other_distance coords m idxs Hr Hcne)
    as (tl & Hidx & _ & Hrg & _ & _).
  set (out := setcol (select_rows df idxs) "min_distance"
                     (FloatCol (repeat m (length idxs)))).
  assert (Hwf' : well_formed out).
  { apply well_formed_setcol; [apply well_formed_select_rows |].
    simpl. now rewrite repeat_length. }
  assert (Hne' : empty out = false).
  { unfold empty. apply orb_false_intro; apply Nat.eqb_neq; simpl.
    - rewrite Hidx. simpl. lia.
    - pose proof (assign_not_nil "min_distance"
                    (FloatCol (repeat m (length idxs)))
                    (data (select_rows df idxs))) as Hn.
      destruct (assign _ _ _); [congruence | simpl; lia]. }
  assert (Hx' : lookup xc (data out) = Some (take_col idxs cx)).
  { unfold out. rewrite lookup_setcol_ne by congruence.
    now rewrite lookup_select_rows, Hx. }
  assert (Hy' : lookup yc (data out) = Some (take_col idxs cy)).
  { unfold out. rewrite lookup_setcol_ne by congruence.
    now rewrite lookup_select_rows, Hy. }
  destruct (resampler_run_columns other_distance out config xc yc m _ _
              Hxc Hyc Hm Hwf' Hne' Hx' Hy') as [_ ->].
  rewrite !cells_take_col, take_combine.
  2:{ rewrite !cells_length.
      rewrite (lookup_well_formed df xc cx Hwf Hx),
              (lookup_well_formed df yc cy Hwf Hy). reflexivity. }
  fold coords.
  rewrite (take_indep _ nan_row idxs coords Hrg).
  rewrite (retained_indices_again other_distance coords m idxs Hr Hcne).
  cbn [bind].
  replace (length idxs) with (index out) at 1 by reflexivity.
  rewrite select_rows_all by exact Hwf'.
  rewrite length_seq.
  unfold out, setcol; simpl. now rewrite assign_assign.
Qed.

(** C10. The emptiness check comes before the column check: an empty frame
    is returned as it is, whether or not it has the planar columns, and a
    missing-column error can only come from a frame that is not empty. *)
Theorem resampler_empty_unchanged other_distance df config :
  x_col config <> None -> y_col config <> None -> min_distance config <> None ->
  (empty df = true ->
   data_filter_points_by_distance other_distance df config = Ok df) /\
  (forall message,
     data_filter_points_by_distance other_distance df config
       = Raise (ValueError message) ->
     empty df = false).
Proof.
  intros Hx Hy Hm. unfold data_filter_points_by_distance.
  destruct (x_col config); [| congruence].
  destruct (y_col config); [| congruence].
  destruct (min_distance config); [| congruence].
  simpl. split.
  - intros He. now rewrite He.
  - intros message. destruct (empty df); [discriminate | reflexivity].
Qed.

(* ===================================================================== *)
(** * Claims about the Projector and the Smoothing Stage *)
(* ===================================================================== *)



(* ===================================================================== *)
(** * Claims about the Kinematics Estimator *)
(* ===================================================================== *)

Lemma eqb_zero_cases (x : float) :
  (x =? 0)%float = true -> x = 0%float \/ x = (-0)%float.
Proof.
  intros H. destruct (eqb_zero_inv x H) as [[|] Hs].
  - right. apply Prim2SF_inj. rewrite Hs. reflexivity.
  - left. apply Prim2SF_inj. rewrite Hs. reflexivity.
Qed.

Lemma wrap_diff_nan : wrap_diff nan = nan.
Proof. reflexivity. Qed.

Lemma normalize_heading_nan : normalize_heading (Float64.degrees nan) = nan.
Proof. reflexivity. Qed.

Section HeadingFromPositions.

Variable arctan2 : float64 -> float64 -> float64.

(** What is assumed of [np.arctan2], from Annex F of C99: NaN for a NaN
    argument; a result between [-pi] and [pi]; a zero over a positive number
    is that zero; a positive number over a zero is [pi / 2], that is, the
    binary64 number nearest to it. *)
Hypothesis arctan2_nan : forall y x,
  is_nan y = true \/ is_nan x = true -> arctan2 y x = nan.
Hypothesis arctan2_range : forall y x,
  is_nan (arctan2 y x) = true \/
  ((- Float64.pi <=? arctan2 y x) && (arctan2 y x <=? Float64.pi))%float = true.
Hypothesis arctan2_east : forall y x,
  (y =? 0)%float = true -> (0 <? x)%float = true -> arctan2 y x = y.
Hypothesis arctan2_north : forall y x,
  (0 <? y)%float = true -> (x =? 0)%float = true ->
  arctan2 y x = 0x1.921fb54442d18p+0%float.

Lemma heading_east (dy : float64) :
  (dy =? 0)%float = true ->
  normalize_heading (Float64.degrees (arctan2 dy 1)) = 0%float.
Proof.
  intros H. rewrite (arctan2_east dy 1 H eq_refl).
  destruct (eqb_zero_cases dy H) as [-> | ->]; reflexivity.
Qed.

Lemma heading_north (dx : float64) :
  (dx =? 0)%float = true ->
  normalize_heading (Float64.degrees (arctan2 1 dx)) = 90%float.
Proof.
  intros H. rewrite (arctan2_north 1 dx eq_refl H). reflexivity.
Qed.

(** C4. With the planar columns present, the stage writes for every row after
    the first the heading [atan2 (dy, dx)], converted to degrees by the
    factor [180 / pi] and normalized by [(deg + 360) mod 360], every
    operation in binary64; every heading that is not NaN lies in
    [[0, 360)]; a step due east has heading 0 and a step due north heading
    90; the heading of the first row is NaN.  The other columns are left as
    they are. *)
Theorem heading_from_xy df config xs ys :
  well_formed df ->
  lookup (get (x_col config) "x") (data df) = Some (FloatCol xs) ->
  lookup (get (y_col config) "y") (data df) = Some (FloatCol ys) ->
  exists out headings,
    data_compute_heading_from_xy arctan2 df config = Ok out /\
    index out = index df /\
    lookup (get (heading_col config) "heading_deg") (data out)
      = Some (FloatCol headings) /\
    (forall col, col <> get (heading_col config) "heading_deg" ->
       lookup col (data out) = lookup col (data df)) /\
    length headings = index df /\
    (0 < index df -> nth_error headings 0 = Some nan) /\
    (forall i h, nth_error headings i = Some h ->
       is_nan h = true \/ ((0 <=? h) && (h <? 360))%float = true) /\
    (forall i x0 y0 x1 y1,
       nth_error xs i = Some x0 -> nth_error ys i = Some y0 ->
       nth_error xs (S i) = Some x1 -> nth_error ys (S i) = Some y1 ->
       let dx := (x1 - x0)%float in
       let dy := (y1 - y0)%float in
       nth_error headings (S i) =
         Some (Float64.remainder
                 (arctan2 dy dx * (180 / Float64.pi) + 360) 360)%float /\
       (dx = 1%float -> (dy =? 0)%float = true ->
        nth_error headings (S i) = Some 0%float) /\
       (dy = 1%float -> (dx =? 0)%float = true ->
        nth_error headings (S i) = Some 90%float)).
Proof.
  intros Hwf Hx Hy.
  destruct (planar_coords_length df _ _ xs ys Hwf Hx Hy) as [Lx [Ly _]].
  set (headings := map normalize_heading
                     (map Float64.degrees (map2 arctan2 (diff ys) (diff xs)))).
  assert (Hnext : forall i x0 y0 x1 y1,
            nth_error xs i = Some x0 -> nth_error ys i = Some y0 ->
            nth_error xs (S i) = Some x1 -> nth_error ys (S i) = Some y1 ->
            nth_error headings (S i)
            = Some (normalize_heading
                      (Float64.degrees (arctan2 (y1 - y0) (x1 - x0))))).
  { intros i x0 y0 x1 y1 Hx0 Hy0 Hx1 Hy1. unfold headings.
    rewrite !nth_error_map.
    rewrite (nth_error_map2 _ _ _ (S i) _ _
               (diff_next ys i _ _ Hy0 Hy1) (diff_next xs i _ _ Hx0 Hx1)).
    reflexivity. }
  exists (setcol df (get (heading_col config) "heading_deg")
                 (FloatCol headings)), headings.
  split; [| split; [| split; [| split; [| split; [| split; [| split]]]]]].
  - unfold data_compute_heading_from_xy, getcol.
    rewrite (lookup_has_column df _ _ Hx), (lookup_has_column df _ _ Hy).
    simpl. now rewrite Hx, Hy.
  - reflexivity.
  - apply lookup_setcol_eq.
  - intros col Hcol. now apply lookup_setcol_ne.
  - unfold headings.
    rewrite !length_map, map2_length; rewrite !diff_length; lia.
  - intros Hpos. unfold headings. rewrite !nth_error_map.
    rewrite (nth_error_map2 _ _ _ 0 nan nan).
    + cbn [option_map]. rewrite arctan2_nan by (left; reflexivity).
      reflexivity.
    + apply diff_first; intros ->; simpl in *; lia.
    + apply diff_first; intros ->; simpl in *; lia.
  - intros i h Hh. unfold headings in Hh.
    rewrite !nth_error_map in Hh. unfold map2 in Hh.
    rewrite nth_error_map in Hh.
    destruct (nth_error (combine (diff ys) (diff xs)) i) as [[dy dx] |];
      [| discriminate].
    simpl in Hh. injection Hh as <-.
    apply heading_range, arctan2_range.
  - intros i x0 y0 x1 y1 Hx0 Hy0 Hx1 Hy1. cbv zeta.
    rewrite (Hnext i x0 y0 x1 y1) by assumption.
    split; [reflexivity |]. split.
    + intros -> Hdy. now rewrite heading_east.
    + intros -> Hdx. now rewrite heading_north.
Qed.

End HeadingFromPositions.

Lemma wrap_diff_359_1 : wrap_diff (1 - 359) = 2%float.
Proof. reflexivity. Qed.

Lemma wrap_diff_1_359 : wrap_diff (359 - 1) = (-2)%float.
Proof. reflexivity. Qed.

(** C5, amended.  With the heading and time-delta columns present, the stage
    wraps every difference of consecutive headings by
    [(diff + 180) mod 360 - 180] and divides it by [dt], every operation in
    binary64.  The wrapped difference is NaN or lies between -180 and 180,
    both included; from 359 to 1 it is 2, from 1 to 359 it is -2.  Where
    [dt] is zero the yaw rate is an infinity or NaN, never a finite number.
    The yaw rate of the first row is NaN, and the other columns are left as
    they are. *)
Theorem yaw_rate_from_heading df config headings dts :
  well_formed df ->
  lookup (get (heading_col config) "heading_deg") (data df)
    = Some (FloatCol headings) ->
  lookup (get (dt_col config) "dt") (data df) = Some (FloatCol dts) ->
  exists out yaw,
    data_compute_yaw_rate_from_heading df config = Ok out /\
    index out = index df /\
    lookup "yaw_rate_deg_s" (data out) = Some (FloatCol yaw) /\
    (forall col, col <> "yaw_rate_deg_s" ->
       lookup col (data out) = lookup col (data df)) /\
    length yaw = index df /\
    (0 < index df -> nth_error yaw 0 = Some nan) /\
    (forall i h0 h1 dt,
       nth_error headings i = Some h0 ->
       nth_error headings (S i) = Some h1 ->
       nth_error dts (S i) = Some dt ->
       let w := (Float64.remainder (h1 - h0 + 180) 360 - 180)%float in
       nth_error yaw (S i) = Some (w / dt)%float /\
       (is_nan w = true \/ ((-180 <=? w) && (w <=? 180))%float = true) /\
       (h0 = 359%float -> h1 = 1%float -> w = 2%float) /\
       (h0 = 1%float -> h1 = 359%float -> w = (-2)%float)) /\
    (forall i dt y,
       nth_error dts i = Some dt -> (dt =? 0)%float = true ->
       nth_error yaw i = Some y -> finite y = false).
Proof.
  intros Hwf Hh Hd.
  pose proof (lookup_well_formed df _ _ Hwf Hh) as Lh.
  pose proof (lookup_well_formed df _ _ Hwf Hd) as Ld.
  simpl in Lh, Ld.
  set (yaw := map2 PrimFloat.div (map wrap_diff (diff headings)) dts).
  exists (setcol df "yaw_rate_deg_s" (FloatCol yaw)), yaw.
  split; [| split; [| split; [| split; [| split; [| split; [| split]]]]]].
  - unfold data_compute_yaw_rate_from_heading, getcol.
    rewrite (lookup_has_column df _ _ Hh), (lookup_has_column df _ _ Hd).
    simpl. now rewrite Hh, Hd.
  - reflexivity.
  - apply lookup_setcol_eq.
  - intros col Hcol. now apply lookup_setcol_ne.
  - unfold yaw. rewrite map2_length; rewrite length_map, diff_length; lia.
  - intros Hpos.
    destruct dts as [| dt0 dts']; [simpl in Ld; lia |].
    unfold yaw.
    rewrite (nth_error_map2 _ _ _ 0 nan dt0); [| | reflexivity].
    + now rewrite div_nan_l.
    + rewrite nth_error_map, diff_first; [reflexivity |].
      intros ->. simpl in Lh. lia.
  - intros i h0 h1 dt H0 H1 Hdt. cbv zeta.
    split; [| split; [| split]].
    + unfold yaw. apply nth_error_map2; [| exact Hdt].
      rewrite nth_error_map, (diff_next headings i _ _ H0 H1). reflexivity.
    + apply wrap_range.
    + intros -> ->. exact wrap_diff_359_1.
    + intros -> ->. exact wrap_diff_1_359.
  - intros i dt y Hdt Hz Hy. unfold yaw in Hy.
    apply nth_error_map2_inv in Hy. destruct Hy as [w [dt' [_ [Hdt' ->]]]].
    rewrite Hdt in Hdt'. injection Hdt' as <-.
    now apply div_zero_not_finite.
Qed.

(* ===================================================================== *)
(** * Claims about the Temporal Differencer *)
(* ===================================================================== *)

Lemma sequence_map_inv {A B : Type} (f : A -> result B) (l : list A) :
  forall r, sequence (map f l) = Ok r ->
  length r = length l /\
  forall i a, nth_error l i = Some a ->
    exists b, f a = Ok b /\ nth_error r i = Some b.
Proof.
  induction l as [| x l IH]; intros r H; cbn [map sequence] in H.
  - injection H as <-. split; [reflexivity |]. intros [| i] a; discriminate.
  - destruct (f x) as [b |] eqn:Hx; [| discriminate]. cbn [bind] in H.
    destruct (sequence (map f l)) as [tl |] eqn:Hl; [| discriminate].
    cbn [bind] in H. injection H as <-.
    destruct (IH tl eq_refl) as [Hlen Hnth].
    split; [simpl; now rewrite Hlen |].
    intros [| i] a Ha; cbn [nth_error] in *.
    + injection Ha as <-. eauto.
    + now apply Hnth.
Qed.

Lemma sequence_map_ok {A B : Type} (f : A -> result B) (l : list A) :
  (forall a, In a l -> exists b, f a = Ok b) ->
  exists r, sequence (map f l) = Ok r.
Proof.
  induction l as [| x l IH]; intros H; cbn [map sequence]; [eauto |].
  destruct (H x (or_introl eq_refl)) as [b ->]. cbn [bind].
  destruct IH as [tl ->]; [intros a Ha; apply H; now right |].
  cbn [bind]. eauto.
Qed.

(** When the computations of a list raise one exception only, and one of
    them raises, the list raises it. *)
Lemma sequence_map_raise {A B : Type} (f : A -> result B) (l : list A) e0 :
  (forall a e, f a = Raise e -> e = e0) ->
  (exists a, In a l /\ f a = Raise e0) ->
  sequence (map f l) = Raise e0.
Proof.
  intros Hone. induction l as [| x l IH]; intros [a [Hin Ha]];
    [contradiction |].
  cbn [map sequence].
  destruct (f x) as [b | e] eqn:Hx.
  - cbn [bind]. rewrite IH; [reflexivity |].
    destruct Hin as [-> | Hin]; [congruence | eauto].
  - cbn [bind]. now rewrite (Hone x e Hx).
Qed.

Lemma sub_datetime_in_range (a b : Z) :
  (int64_min < b - a <= int64_max)%Z ->
  sub_datetime (Some b) (Some a) = Ok (Some (b - a)%Z).
Proof.
  intros H. unfold sub_datetime. cbv zeta.
  replace (b - a <? int64_min)%Z with false by (symmetry; apply Z.ltb_ge; lia).
  replace (int64_max <? b - a)%Z with false by (symmetry; apply Z.ltb_ge; lia).
  replace (b - a =? int64_min)%Z with false by (symmetry; apply Z.eqb_neq; lia).
  reflexivity.
Qed.

Lemma sub_datetime_nat (a b : Z) :
  (b - a = int64_min)%Z -> sub_datetime (Some b) (Some a) = Ok None.
Proof.
  intros H. unfold sub_datetime. cbv zeta. rewrite H. reflexivity.
Qed.

Lemma sub_datetime_overflow (a b : Z) :
  (b - a < int64_min \/ int64_max < b - a)%Z ->
  sub_datetime (Some b) (Some a) = Raise OverflowError.
Proof.
  intros H. unfold sub_datetime. cbv zeta.
  destruct H as [H | H].
  - replace (b - a <? int64_min)%Z with true
      by (symmetry; apply Z.ltb_lt; lia).
    reflexivity.
  - replace (int64_max <? b - a)%Z with true
      by (symmetry; apply Z.ltb_lt; lia).
    now rewrite orb_true_r.
Qed.

Lemma sub_datetime_raise (later earlier : datetime64) e :
  sub_datetime later earlier = Raise e -> e = OverflowError.
Proof.
  unfold sub_datetime. destruct later as [b |], earlier as [a |];
    try discriminate.
  cbv zeta.
  destruct ((b - a <? int64_min)%Z || (int64_max <? b - a)%Z);
    [congruence |].
  destruct (b - a =? int64_min)%Z; discriminate.
Qed.

Lemma sub_datetime_ok (later earlier : datetime64) :
  (forall a b, later = Some b -> earlier = Some a ->
     (int64_min <= b - a <= int64_max)%Z) ->
  exists td, sub_datetime later earlier = Ok td.
Proof.
  intros H. destruct later as [b |], earlier as [a |];
    try (eexists; reflexivity).
  specialize (H a b eq_refl eq_refl).
  destruct (Z.eq_dec (b - a) int64_min) as [E | E].
  - rewrite sub_datetime_nat by exact E. eauto.
  - rewrite sub_datetime_in_range by lia. eauto.
Qed.

(** The differences of a column of timestamps, when none overflows. *)
Lemma diff_datetime_ok (ts : list datetime64) :
  (forall i a b, nth_error ts i = Some (Some a) ->
                 nth_error ts (S i) = Some (Some b) ->
                 (int64_min <= b - a <= int64_max)%Z) ->
  exists deltas,
    diff_datetime ts = Ok deltas /\
    length deltas = length ts /\
    (ts <> [] -> nth_error deltas 0 = Some None) /\
    forall i ta tb, nth_error ts i = Some ta -> nth_error ts (S i) = Some tb ->
      exists td, sub_datetime tb ta = Ok td /\
                 nth_error deltas (S i) = Some td.
Proof.
  intros Hrange. destruct ts as [| t tl].
  - exists []. repeat split; try congruence.
    intros [| i] ta tb; discriminate.
  - unfold diff_datetime.
    destruct (sequence_map_ok (fun p => sub_datetime (snd p) (fst p))
                (combine (t :: tl) tl)) as [rest Hrest].
    { intros [ta tb] Hin. cbn [fst snd].
      apply In_nth_error in Hin. destruct Hin as [i Hi].
      apply nth_error_combine_inv in Hi. destruct Hi as [Ha Hb].
      cbn [fst snd] in Ha, Hb.
      apply sub_datetime_ok. intros a b -> ->.
      exact (Hrange i a b Ha Hb). }
    rewrite Hrest. cbn [bind].
    destruct (sequence_map_inv _ _ _ Hrest) as [Hlen Hnth].
    exists (None :: rest).
    split; [reflexivity |]. split.
    { cbn [length]. rewrite Hlen, length_combine. cbn [length]. lia. }
    split; [reflexivity |].
    intros i ta tb Ha Hb. cbn [nth_error] in Hb |- *.
    destruct (Hnth i (ta, tb) (nth_error_combine _ _ _ _ _ Ha Hb))
      as [td [H1 H2]].
    eauto.
Qed.

Lemma diff_datetime_overflow (ts : list datetime64) i a b :
  nth_error ts i = Some (Some a) -> nth_error ts (S i) = Some (Some b) ->
  (b - a < int64_min \/ int64_max < b - a)%Z ->
  diff_datetime ts = Raise OverflowError.
Proof.
  intros Ha Hb Ho. destruct ts as [| t tl]; [destruct i; discriminate |].
  unfold diff_datetime. cbn [nth_error] in Hb.
  rewrite (sequence_map_raise _ _ OverflowError); [reflexivity | |].
  - intros [ta tb] e. apply sub_datetime_raise.
  - exists (Some a, Some b). split.
    + apply (nth_error_In _ i). now apply nth_error_combine.
    + cbn [fst snd]. now apply sub_datetime_overflow.
Qed.

(** C6, amended.  When the timestamp column parses and no two consecutive
    timestamps are more than the 64-bit range of nanoseconds apart, the
    stage sets [dt] of every row after the first to the difference of its
    timestamp and the one before, a count of nanoseconds converted to
    float64 and divided by [10^9], and [dt] of the first row to NaN; the
    parsed timestamps replace the column and the other columns are left as
    they are.  A later timestamp gives a positive value, an earlier one a
    negative value, and nothing is raised; a missing timestamp gives NaN.
    When two consecutive timestamps are further apart, the stage raises
    [OverflowError]. *)
Theorem temporal_differences to_datetime df datetime_col raw ts :
  lookup datetime_col (data df) = Some raw ->
  to_datetime raw = Ok ts ->
  ((forall i a b, nth_error ts i = Some (Some a) ->
                  nth_error ts (S i) = Some (Some b) ->
                  (int64_min <= b - a <= int64_max)%Z) ->
   exists out dts,
     parse_time_and_compute_dt to_datetime df datetime_col = Ok out /\
     index out = index df /\
     lookup "dt" (data out) = Some (FloatCol dts) /\
     (datetime_col <> "dt" ->
      lookup datetime_col (data out) = Some (DatetimeCol ts)) /\
     (forall col, col <> "dt" -> col <> datetime_col ->
        lookup col (data out) = lookup col (data df)) /\
     length dts = length ts /\
     (ts <> [] -> nth_error dts 0 = Some nan) /\
     (forall i a b,
        nth_error ts i = Some (Some a) -> nth_error ts (S i) = Some (Some b) ->
        (int64_min < b - a)%Z ->
        nth_error dts (S i)
          = Some (Float64.of_int64 (b - a) / 1000000000)%float /\
        ((a < b)%Z ->
         (0 <? Float64.of_int64 (b - a) / 1000000000)%float = true) /\
        ((b < a)%Z ->
         (Float64.of_int64 (b - a) / 1000000000 <? 0)%float = true)) /\
     (forall i ta tb,
        nth_error ts i = Some ta -> nth_error ts (S i) = Some tb ->
        ta = None \/ tb = None -> nth_error dts (S i) = Some nan) /\
     (forall stamps,
        ts = map Some stamps ->
        (forall i a b, nth_error stamps i = Some a ->
                       nth_error stamps (S i) = Some b -> (a < b)%Z) ->
        forall i d, nth_error dts (S i) = Some d -> (0 <? d)%float = true)) /\
  ((exists i a b,
      nth_error ts i = Some (Some a) /\ nth_error ts (S i) = Some (Some b) /\
      (b - a < int64_min \/ int64_max < b - a)%Z) ->
   parse_time_and_compute_dt to_datetime df datetime_col = Raise OverflowError).
Proof.
  intros Hraw Hparse.
  assert (Hrun : parse_time_and_compute_dt to_datetime df datetime_col =
            (deltas <- diff_datetime ts ;;
             Ok (setcol (setcol df datetime_col (DatetimeCol ts)) "dt"
                        (FloatCol (map total_seconds deltas))))).
  { unfold parse_time_and_compute_dt, getcol.
    rewrite Hraw. cbn [bind]. rewrite Hparse. cbn [bind].
    now rewrite lookup_setcol_eq. }
  split.
  - intros Hrange.
    destruct (diff_datetime_ok ts Hrange) as (deltas & Hd & Hlen & H0 & Hnext).
    rewrite Hrun, Hd. cbn [bind].
    assert (Hstep : forall i a b,
              nth_error ts i = Some (Some a) ->
              nth_error ts (S i) = Some (Some b) ->
              (int64_min < b - a)%Z ->
              nth_error (map total_seconds deltas) (S i)
              = Some (Float64.of_int64 (b - a) / 1000000000)%float).
    { intros i a b Ha Hb Hlt.
      destruct (Hnext i _ _ Ha Hb) as [td [H1 H2]].
      rewrite sub_datetime_in_range in H1
        by (pose proof (Hrange i a b Ha Hb); lia).
      injection H1 as <-. now rewrite nth_error_map, H2. }
    eexists. exists (map total_seconds deltas).
    split; [reflexivity |].
    split; [reflexivity |].
    split; [apply lookup_setcol_eq |].
    split.
    { intros Hne. rewrite lookup_setcol_ne by exact Hne.
      apply lookup_setcol_eq. }
    split.
    { intros col H1 H2. now rewrite !lookup_setcol_ne. }
    split; [now rewrite length_map |].
    split.
    { intros Hne. now rewrite nth_error_map, (H0 Hne). }
    split.
    { intros i a b Ha Hb Hlt.
      split; [now apply Hstep |].
      pose proof (Hrange i a b Ha Hb) as Hr. unfold int64_min, int64_max in *.
      split; intros Hab; apply int64_seconds_sign; lia. }
    split.
    { intros i ta tb Ha Hb Hnat.
      destruct (Hnext i _ _ Ha Hb) as [td [H1 H2]].
      rewrite nth_error_map, H2.
      destruct Hnat as [-> | ->]; [destruct tb |];
        cbn in H1; injection H1 as <-; reflexivity. }
    intros stamps -> Hinc i d Hdt.
    destruct (nth_error stamps (S i)) as [b |] eqn:Eb.
    2:{ apply nth_error_None in Eb.
        assert (length (map total_seconds deltas) <= S i)
          by (rewrite length_map, Hlen, length_map; exact Eb).
        apply nth_error_None in H. congruence. }
    destruct (nth_error stamps i) as [a |] eqn:Ea.
    2:{ apply nth_error_None in Ea.
        assert (S i < length stamps) by (apply nth_error_Some; congruence).
        lia. }
    assert (Ha : nth_error (map Some stamps) i = Some (Some a))
      by now rewrite nth_error_map, Ea.
    assert (Hb : nth_error (map Some stamps) (S i) = Some (Some b))
      by now rewrite nth_error_map, Eb.
    pose proof (Hinc i a b Ea Eb) as Hab.
    pose proof (Hrange i a b Ha Hb) as Hr. unfold int64_min, int64_max in *.
    rewrite (Hstep i a b Ha Hb) in Hdt by (unfold int64_min; lia).
    injection Hdt as <-. apply int64_seconds_sign. lia.
  - intros (i & a & b & Ha & Hb & Ho).
    now rewrite Hrun, (diff_datetime_overflow ts i a b Ha Hb Ho).
Qed.

(* ===================================================================== *)
(** * The stages on concrete traces *)
(* ===================================================================== *)

(** The string methods of the Projector on a smoothed column name. *)
Example split_last_savitzky :
  split_last "GPS_lat_smooth_savitzky" = "savitzky".
Proof. reflexivity. Qed.

Example replace_lat_lon :
  replace "GPS_lat" "GPS_lon" "GPS_lat_smooth_savitzky"
  = "GPS_lon_smooth_savitzky".
Proof. reflexivity. Qed.

(** With a single smoothed variant the Projector uses it without asking. *)
Example projector_single_variant :
  forall ask_user,
  data_convert_to_planar ask_user sample_transform gaussian_trace
                         (planar_config 1)
  = Ok {| index := 1;
          data := [("GPS_lat", FloatCol [52]%float);
                   ("GPS_lon", FloatCol [13]%float);
                   ("GPS_lat_smooth_gaussian", FloatCol [51]%float);
                   ("GPS_lon_smooth_gaussian", FloatCol [12]%float);
                   ("x", FloatCol [12]%float);
                   ("y", FloatCol [51]%float);
                   ("selected_smoothing_method", ObjectCol ["gaussian"])] |}.
Proof. reflexivity. Qed.

(** With a threshold of half a metre the samples a quarter of a metre after
    a retained one are dropped. *)
Example resampler_near :
  data_filter_points_by_distance sample_other_distance near_trace
                                 (planar_config 0.5)
  = Ok {| index := 2;
          data := [("x", FloatCol [0; 1]%float);
                   ("y", FloatCol [0; 0]%float);
                   ("min_distance", FloatCol [0.5; 0.5]%float)] |}.
Proof. reflexivity. Qed.

(** A frame of one row is returned with the threshold added, whatever its
    planar columns hold: the loop that takes distances does not run. *)
Example resampler_single_row :
  forall other_distance,
  data_filter_points_by_distance other_distance label_trace (planar_config 1)
  = Ok {| index := 1;
          data := [("x", ObjectCol ["east"]); ("y", ObjectCol ["north"]);
                   ("min_distance", FloatCol [1]%float)] |}.
Proof. reflexivity. Qed.

(** Between two rows with infinite coordinates the distance is
    [inf - inf], NaN: the first is retained, at an infinite distance, and
    the second is dropped. *)
Example resampler_zero_threshold_drops_inf :
  data_filter_points_by_distance sample_other_distance inf_trace
                                 (planar_config 0)
  = Ok {| index := 2;
          data := [("x", FloatCol [0; infinity]%float);
                   ("y", FloatCol [0; infinity]%float);
                   ("min_distance", FloatCol [0; 0]%float)] |}.
Proof. reflexivity. Qed.

(** Where two samples share a timestamp the yaw rate is an infinity. *)
Example yaw_rate_stalled :
  data_compute_yaw_rate_from_heading stalled_trace (planar_config 1)
  = Ok (setcol stalled_trace "yaw_rate_deg_s"
               (FloatCol [nan; infinity]%float)).
Proof. reflexivity. Qed.

(** Timestamps out of order give a negative time delta. *)
Example unsorted_dt :
  parse_time_and_compute_dt sample_to_datetime unsorted_trace "DatumZeit"
  = Ok (setcol unsorted_trace "dt" (FloatCol [nan; -2; 1]%float)).
Proof. reflexivity. Qed.

(** A heading just below zero degrees is normalized to 0, not to 360: the
    sum [deg + 360] rounds to 360 before the remainder is taken. *)
Example heading_below_zero :
  normalize_heading (- 0x1p-60) = 0%float /\
  normalize_heading (-180) = 180%float /\
  normalize_heading 180 = 180%float.
Proof. repeat split; reflexivity. Qed.

(** ** The stand-in for [np.arctan2] *)

Lemma ltb_not_nan (a b : float) :
  (a <? b)%float = true -> is_nan a = false /\ is_nan b = false.
Proof.
  intros H. split.
  - destruct (is_nan a) eqn:E; [| reflexivity].
    apply is_nan_eq in E. subst a.
    rewrite FloatAxioms.ltb_spec in H. discriminate.
  - destruct (is_nan b) eqn:E; [| reflexivity].
    apply is_nan_eq in E. subst b.
    rewrite FloatAxioms.ltb_spec in H. change (Prim2SF nan) with S754_nan in H.
    unfold SFltb in H.
    destruct (Prim2SF a) as [s | s | | s m e]; try destruct s; discriminate.
Qed.

Lemma eqb_zero_not_nan (a : float) :
  (a =? 0)%float = true -> is_nan a = false.
Proof.
  intros H. destruct (eqb_zero_cases a H) as [-> | ->]; reflexivity.
Qed.

Lemma positive_not_zero (a : float) :
  (0 <? a)%float = true -> (a =? 0)%float = false.
Proof.
  rewrite FloatAxioms.ltb_spec, FloatAxioms.eqb_spec.
  change (Prim2SF 0) with (S754_zero false). unfold SFltb, SFeqb.
  destruct (Prim2SF a) as [s | s | | s m e]; cbn [SFcompare];
    try destruct s; try discriminate; reflexivity.
Qed.

Lemma sample_arctan2_nan (y x : float64) :
  is_nan y = true \/ is_nan x = true -> sample_arctan2 y x = nan.
Proof.
  intros H. unfold sample_arctan2.
  destruct H as [-> | ->]; [reflexivity | now rewrite orb_true_r].
Qed.

Lemma sample_arctan2_east (y x : float64) :
  (y =? 0)%float = true -> (0 <? x)%float = true -> sample_arctan2 y x = y.
Proof.
  intros Hy Hx. unfold sample_arctan2.
  rewrite (eqb_zero_not_nan y Hy), (proj2 (ltb_not_nan 0 x Hx)), Hy, Hx.
  reflexivity.
Qed.

Lemma sample_arctan2_north (y x : float64) :
  (0 <? y)%float = true -> (x =? 0)%float = true ->
  sample_arctan2 y x = 0x1.921fb54442d18p+0%float.
Proof.
  intros Hy Hx. unfold sample_arctan2.
  rewrite (eqb_zero_not_nan x Hx), (proj2 (ltb_not_nan 0 y Hy)).
  rewrite (positive_not_zero y Hy), Hy, Hx. reflexivity.
Qed.

Lemma sample_arctan2_range (y x : float64) :
  is_nan (sample_arctan2 y x) = true \/
  ((- Float64.pi <=? sample_arctan2 y x)
   && (sample_arctan2 y x <=? Float64.pi))%float = true.
Proof.
  unfold sample_arctan2.
  destruct (is_nan y || is_nan x); [left; reflexivity | right].
  destruct ((y =? 0)%float && (0 <? x)%float) eqn:E.
  - apply andb_prop in E. destruct E as [E _].
    destruct (eqb_zero_cases y E) as [-> | ->]; reflexivity.
  - destruct ((0 <? y)%float && (x =? 0)%float); reflexivity.
Qed.

(** The end-to-end scenario: with [min_distance = 0.5] all three samples are
    retained, the headings are NaN, 0 and 90 degrees and the yaw rates NaN,
    NaN and 90 degrees per second. *)
Example scenario_end_to_end :
  (df <- data_filter_points_by_distance sample_other_distance scenario_trace
           (planar_config 0.5) ;;
   df <- parse_time_and_compute_dt sample_to_datetime df "DatumZeit" ;;
   df <- data_compute_heading_from_xy sample_arctan2 df (planar_config 0.5) ;;
   data_compute_yaw_rate_from_heading df (planar_config 0.5))
  = Ok {| index := 3;
          data := [("DatumZeit",
                    DatetimeCol [Some 0%Z; Some 1000000000%Z; Some 2000000000%Z]);
                   ("x", FloatCol [0; 1; 1]%float);
                   ("y", FloatCol [0; 0; 1]%float);
                   ("min_distance", FloatCol [0.5; 0.5; 0.5]%float);
                   ("dt", FloatCol [nan; 1; 1]%float);
                   ("heading_deg", FloatCol [nan; 0; 90]%float);
                   ("yaw_rate_deg_s", FloatCol [nan; nan; 90]%float)] |}.
Proof. reflexivity. Qed.

(* ===================================================================== *)
(** * Where the stages depart from the specification *)
(* ===================================================================== *)

(** C1, as stated, fails: the two samples of [diagonal_trace] are the square
    root of two apart, which is less than the threshold [sqrt2_up], yet the
    second sample is retained: the computed distance is the square root of
    two rounded to binary64, and that is [sqrt2_up]. *)
Lemma resampler_rounds_distance_up :
  well_formed diagonal_trace /\ empty diagonal_trace = false /\
  (0 < B2R sqrt2_up)%R /\
  (exact_square_distance (1, 1)%float (0, 0)%float
   < B2R sqrt2_up * B2R sqrt2_up)%R /\
  (forall other_distance,
     data_filter_points_by_distance other_distance diagonal_trace
                                    (planar_config sqrt2_up)
     = Ok {| index := 2;
             data := [("x", FloatCol [0; 1]%float);
                      ("y", FloatCol [0; 1]%float);
                      ("min_distance", FloatCol [sqrt2_up; sqrt2_up])] |}).
Proof.
  split; [repeat constructor |].
  split; [reflexivity |].
  unfold exact_square_distance. cbn [fst snd].
  B2R_const sqrt2_up. B2R_const 1%float. rewrite B2R_zero.
  split; [lra |]. split; [lra |].
  intros other_distance. reflexivity.
Qed.

(** C3, as stated, fails.  With [min_distance = 0] the second row of
    [nan_trace], whose easting is NaN, is dropped.  And the two rows of
    [huge_trace] are both retained at a threshold of [2 ^ 700] although
    they are [2 ^ 600] apart: the square of their distance overflows. *)
Lemma resampler_zero_threshold_drops_nan :
  well_formed nan_trace /\ empty nan_trace = false /\
  (forall other_distance,
     data_filter_points_by_distance other_distance nan_trace (planar_config 0)
     = Ok {| index := 1;
             data := [("x", FloatCol [0]%float); ("y", FloatCol [0]%float);
                      ("min_distance", FloatCol [0]%float)] |}) /\
  well_formed huge_trace /\ empty huge_trace = false /\
  (0 < B2R 0x1p+700)%R /\
  (exact_square_distance (0x1p+600, 0)%float (0, 0)%float
   < B2R 0x1p+700 * B2R 0x1p+700)%R /\
  (forall other_distance,
     data_filter_points_by_distance other_distance huge_trace
                                    (planar_config 0x1p+700)
     = Ok {| index := 2;
             data := [("x", FloatCol [0; 0x1p+600]%float);
                      ("y", FloatCol [0; 0]%float);
                      ("min_distance", FloatCol [0x1p+700; 0x1p+700]%float)] |}).
Proof.
  split; [repeat constructor |].
  split; [reflexivity |].
  split; [intros other_distance; reflexivity |].
  split; [repeat constructor |].
  split; [reflexivity |].
  unfold exact_square_distance. cbn [fst snd].
  B2R_const 0x1p+700%float. B2R_const 0x1p+600%float. rewrite B2R_zero.
  split; [lra |]. split; [lra |].
  intros other_distance. reflexivity.
Qed.

(** C5, as stated, fails: [above_180], the binary64 number next above 180,
    is a heading in [[0, 360)]; from it to the heading 0 the stage computes
    a wrapped difference of exactly 180, because the remainder
    [-2^-45 mod 360] rounds to 360. *)
Lemma yaw_rate_binary64_reaches_180 :
  ((0 <=? above_180) && (above_180 <? 360))%float = true /\
  Float64.remainder (0 - above_180 + 180) 360 = 360%float /\
  (180 <? 180)%float = false /\
  data_compute_yaw_rate_from_heading (crossing_trace above_180 0)
                                     (planar_config 1)
  = Ok {| index := 2;
          data := [("heading_deg", FloatCol [above_180; 0]%float);
                   ("dt", FloatCol [nan; 1]%float);
                   ("yaw_rate_deg_s", FloatCol [nan; 180]%float)] |}.
Proof. repeat split; reflexivity. Qed.

(** C6, as stated, fails: the two timestamps of [centuries_trace] are
    timestamps of the 64-bit range, and the column parses, but their
    difference, five hundred years, is not a 64-bit count of nanoseconds:
    the stage raises [OverflowError]. *)
Lemma temporal_difference_overflows :
  (int64_min < year_1700 <= int64_max)%Z /\
  (int64_min < year_2200 <= int64_max)%Z /\
  (year_1700 < year_2200)%Z /\
  (int64_max < year_2200 - year_1700)%Z /\
  sample_to_datetime (DatetimeCol [Some year_1700; Some year_2200])
  = Ok [Some year_1700; Some year_2200] /\
  parse_time_and_compute_dt sample_to_datetime centuries_trace "DatumZeit"
  = Raise OverflowError.
Proof.
  unfold int64_min, int64_max, year_1700, year_2200.
  repeat split; try lia; reflexivity.
Qed.



(* ===================================================================== *)
(** * The claims on the example traces *)
(* ===================================================================== *)

(** The greedy subsequence of [corner_trace] at half a metre. *)
Lemma resampler_greedy_subsequence_witness :
  exists idxs out,
    data_filter_points_by_distance sample_other_distance corner_trace
                                   (planar_config 0.5) = Ok out /\
    StronglySorted lt idxs /\ In 0 idxs /\
    index out = length idxs /\
    lookup "min_distance" (data out)
      = Some (FloatCol (repeat 0.5%float (length idxs))).
Proof.
  destruct (resampler_greedy_subsequence sample_other_distance corner_trace
              (planar_config 0.5) "x" "y" 0.5
              [0; 1; 1]%float [0; 0; 1]%float)
    as (idxs & out & H1 & H2 & _ & H4 & _ & _ & H7 & _ & H9 & _);
    try reflexivity.
  - repeat constructor.
  - exists idxs, out. auto.
Defined.

(** Two passes over [corner_trace] at half a metre. *)
Lemma resampler_idempotent_witness :
  (out <- data_filter_points_by_distance sample_other_distance corner_trace
            (planar_config 0.5) ;;
   data_filter_points_by_distance sample_other_distance out (planar_config 0.5))
  = data_filter_points_by_distance sample_other_distance corner_trace
      (planar_config 0.5).
Proof.
  apply (resampler_idempotent sample_other_distance corner_trace
           (planar_config 0.5)).
  - repeat constructor.
  - discriminate.
  - discriminate.
Defined.

(** The spacing of [corner_trace] at a threshold of zero: every row stays. *)
Lemma resampler_spacing_witness :
  exists idxs out,
    data_filter_points_by_distance sample_other_distance corner_trace
                                   (planar_config 0) = Ok out /\
    idxs = seq 0 3 /\ index out = 3 /\
    lookup "min_distance" (data out) = Some (FloatCol [0; 0; 0]%float) /\
    lookup "x" (data out) = Some (FloatCol [0; 1; 1]%float) /\
    lookup "y" (data out) = Some (FloatCol [0; 0; 1]%float).
Proof.
  destruct (resampler_spacing sample_other_distance corner_trace
              (planar_config 0) "x" "y" 0
              [0; 1; 1]%float [0; 0; 1]%float)
    as (idxs & out & H1 & _ & _ & _ & _ & _ & _ & Hzero);
    try reflexivity.
  - repeat constructor.
  - destruct (Hzero eq_refl) as [_ Hall].
    destruct Hall as (Hidx & Hi & Hm & Hcols).
    { repeat constructor. }
    exists idxs, out.
    split; [exact H1 |]. split; [exact Hidx |]. split; [exact Hi |].
    split; [exact Hm |].
    split; rewrite Hcols by discriminate; reflexivity.
Defined.


(** [empty_trace] has no planar columns and comes back as it is. *)
Lemma resampler_empty_unchanged_witness :
  has_column empty_trace "x" = false /\ has_column empty_trace "y" = false /\
  data_filter_points_by_distance sample_other_distance empty_trace
                                 (planar_config 1)
  = Ok empty_trace.
Proof.
  split; [reflexivity |]. split; [reflexivity |].
  apply (resampler_empty_unchanged sample_other_distance empty_trace
           (planar_config 1));
    [discriminate | discriminate | discriminate | reflexivity].
Defined.



(** The headings of [corner_trace]: NaN, east, north. *)
Lemma heading_from_xy_witness :
  exists out headings,
    data_compute_heading_from_xy sample_arctan2 corner_trace (planar_config 1)
      = Ok out /\
    lookup "heading_deg" (data out) = Some (FloatCol headings) /\
    length headings = 3 /\
    nth_error headings 0 = Some nan /\
    nth_error headings 1 = Some 0%float /\
    nth_error headings 2 = Some 90%float.
Proof.
  destruct (heading_from_xy sample_arctan2 sample_arctan2_nan
              sample_arctan2_range sample_arctan2_east sample_arctan2_north
              corner_trace (planar_config 1)
              [0; 1; 1]%float [0; 0; 1]%float)
    as (out & headings & Hrun & _ & Hlk & _ & Hlen & Hfirst & _ & Hstep).
  - repeat constructor.
  - reflexivity.
  - reflexivity.
  - exists out, headings.
    split; [exact Hrun |]. split; [exact Hlk |]. split; [exact Hlen |].
    split; [apply Hfirst; simpl; lia |].
    split.
    + destruct (Hstep 0 0%float 0%float 1%float 0%float
                  eq_refl eq_refl eq_refl eq_refl) as (_ & Heast & _).
      apply Heast; reflexivity.
    + destruct (Hstep 1 1%float 0%float 1%float 1%float
                  eq_refl eq_refl eq_refl eq_refl) as (_ & _ & Hnorth).
      apply Hnorth; reflexivity.
Defined.

(** The yaw rate across north, from 359 to 1 degree in one second. *)
Lemma yaw_rate_from_heading_witness :
  exists out yaw,
    data_compute_yaw_rate_from_heading (crossing_trace 359 1)
                                       (planar_config 1) = Ok out /\
    lookup "yaw_rate_deg_s" (data out) = Some (FloatCol yaw) /\
    nth_error yaw 0 = Some nan /\
    nth_error yaw 1 = Some 2%float.
Proof.
  destruct (yaw_rate_from_heading (crossing_trace 359 1) (planar_config 1)
              [359; 1]%float [nan; 1]%float)
    as (out & yaw & Hrun & _ & Hlk & _ & _ & Hfirst & Hstep & _).
  - repeat constructor.
  - reflexivity.
  - reflexivity.
  - exists out, yaw. split; [exact Hrun |]. split; [exact Hlk |].
    split; [apply Hfirst; simpl; lia |].
    destruct (Hstep 0 359%float 1%float 1%float eq_refl eq_refl eq_refl)
      as (Hy & _ & Hw & _).
    rewrite Hy, (Hw eq_refl eq_refl). reflexivity.
Defined.

(** The time deltas of [timed_trace]. *)
Lemma temporal_differences_witness :
  exists out dts,
    parse_time_and_compute_dt sample_to_datetime timed_trace "DatumZeit"
      = Ok out /\
    lookup "dt" (data out) = Some (FloatCol dts) /\
    nth_error dts 0 = Some nan /\
    nth_error dts 1 = Some 1%float /\
    nth_error dts 2 = Some 1%float.
Proof.
  destruct (temporal_differences sample_to_datetime timed_trace "DatumZeit"
              (DatetimeCol [Some 0%Z; Some 1000000000%Z; Some 2000000000%Z])
              [Some 0%Z; Some 1000000000%Z; Some 2000000000%Z])
    as [Hok _]; try reflexivity.
  destruct Hok as (out & dts & Hrun & _ & Hlk & _ & _ & _ & Hfirst & Hstep & _).
  - intros [| [| [| i]]] a b Ha Hb; cbn in Ha, Hb; try discriminate;
      injection Ha as <-; injection Hb as <-;
      unfold int64_min, int64_max; lia.
  - exists out, dts. split; [exact Hrun |]. split; [exact Hlk |].
    split; [apply Hfirst; discriminate |].
    split.
    + destruct (Hstep 0 0%Z 1000000000%Z eq_refl eq_refl) as [H _];
        [unfold int64_min; lia | exact H].
    + destruct (Hstep 1 1000000000%Z 2000000000%Z eq_refl eq_refl) as [H _];
        [unfold int64_min; lia | exact H].
Defined.

(* ===================================================================== *)
(** * Further properties of the Resampler *)
(* ===================================================================== *)

Lemma sorted_length (n : nat) (l : list nat) : forall lo,
  StronglySorted lt l -> Forall (fun i => lo <= i < n) l ->
  length l <= n - lo.
Proof.
  induction l as [| a l IH]; intros lo Hs Hr; [simpl; lia |].
  inversion Hs as [| ? ? Hs' Ha]; subst.
  inversion Hr as [| ? ? Hlo Hr']; subst.
  assert (H : length l <= n - S a).
  { apply IH; [exact Hs' |].
    rewrite Forall_forall in *. intros x Hx.
    specialize (Ha x Hx). specialize (Hr' x Hx). lia. }
  simpl. lia.
Qed.

(** X1.  The Resampler, whatever the dtype of the planar columns: when it returns,
    the frame it returns has at least one row and at most the rows of the
    input, its first row is the first row of the input, and the threshold is
    in the column [min_distance]. *)
Theorem resampler_keeps_first_row other_distance df config xc yc m out :
  x_col config = Some xc -> y_col config = Some yc ->
  min_distance config = Some m ->
  well_formed df -> empty df = false ->
  has_column df xc = true -> has_column df yc = true ->
  data_filter_points_by_distance other_distance df config = Ok out ->
  1 <= index out <= index df /\
  lookup "min_distance" (data out) = Some (FloatCol (repeat m (index out))) /\
  forall col c, col <> "min_distance" -> lookup col (data df) = Some c ->
    exists c', lookup col (data out) = Some c' /\
               cell_at c' 0 = cell_at c 0.
Proof.
  intros Hxc Hyc Hm Hwf Hne Hhx Hhy Hrun.
  destruct (has_column_lookup df xc Hhx) as [cx Hx].
  destruct (has_column_lookup df yc Hhy) as [cy Hy].
  destruct (resampler_run_columns other_distance df config xc yc m cx cy
              Hxc Hyc Hm Hwf Hne Hx Hy) as [Hlen Hrun'].
  rewrite Hrun' in Hrun. clear Hrun'.
  pose proof (empty_false df Hne) as Hpos.
  destruct (retained_indices other_distance (combine (cells cx) (cells cy)) m)
    as [idxs | e] eqn:Hr; [| discriminate].
  cbn [bind] in Hrun. injection Hrun as <-.
  destruct (retained_indices_inv other_distance _ m idxs Hr)
    as (tl & Hidx & Hs & Hrg & _ & _).
  { intros E. rewrite E in Hlen. simpl in Hlen. lia. }
  rewrite Hlen in Hrg.
  split; [| split].
  - cbn [index setcol select_rows]. split; [rewrite Hidx; simpl; lia |].
    pose proof (sorted_length (index df) idxs 0 Hs) as Hle.
    rewrite Nat.sub_0_r in Hle. apply Hle.
    eapply Forall_impl; [| exact Hrg]. simpl. intros; lia.
  - apply lookup_setcol_eq.
  - intros col c Hcol Hc. exists (take_col idxs c). split.
    + rewrite lookup_setcol_ne by exact Hcol.
      now rewrite lookup_select_rows, Hc.
    + rewrite cell_at_take_col.
      * rewrite Hidx. reflexivity.
      * rewrite Hidx. simpl. lia.
      * rewrite Hidx. cbn [nth].
        rewrite (lookup_well_formed df col c Hwf Hc). exact Hpos.
Qed.

(** X2.  With a threshold that is NaN no comparison holds: on float planar
    columns the Resampler returns the first row alone. *)
Theorem resampler_nan_threshold other_distance df config xc yc m xs ys :
  x_col config = Some xc -> y_col config = Some yc ->
  min_distance config = Some m ->
  well_formed df -> empty df = false ->
  lookup xc (data df) = Some (FloatCol xs) ->
  lookup yc (data df) = Some (FloatCol ys) ->
  is_nan m = true ->
  exists out,
    data_filter_points_by_distance other_distance df config = Ok out /\
    index out = 1 /\
    lookup "min_distance" (data out) = Some (FloatCol [m]) /\
    forall col c, col <> "min_distance" -> lookup col (data df) = Some c ->
      exists c', lookup col (data out) = Some c' /\
                 col_length c' = 1 /\ cell_at c' 0 = cell_at c 0.
Proof.
  intros Hxc Hyc Hm Hwf Hne Hx Hy Hnan.
  destruct (resampler_output other_distance df config xc yc m xs ys
              Hxc Hyc Hm Hwf Hne Hx Hy)
    as (idxs & out & Hrun & _ & Hg & _ & _ & _ & Hi & _ & Hmd & Hcells).
  destruct (planar_coords_rows df xc yc xs ys Hwf Hne Hx Hy) as [Hlen Hcne].
  assert (Hidx : idxs = [0]).
  { apply (greedy_subsequence_unique (combine xs ys) m); [exact Hg |].
    constructor.
    - repeat constructor.
    - constructor; [| constructor].
      destruct (combine xs ys); [congruence | simpl; lia].
    - now left.
    - intros i Hrange. apply is_nan_eq in Hnan. subst m.
      rewrite leb_nan_l. split; [| discriminate].
      intros [E | []]. lia. }
  subst idxs. exists out.
  split; [exact Hrun |]. split; [exact Hi |]. split; [exact Hmd |].
  intros col c Hcol Hc.
  destruct (Hcells col c Hcol Hc) as (c' & H1 & H2 & H3).
  exists c'. split; [exact H1 |]. split; [exact H2 |].
  apply (H3 0). simpl. lia.
Qed.

(** X3.  On a frame that is not empty, the first planar column that is missing
    is reported by a [ValueError] that names it. *)
Theorem resampler_missing_column other_distance df config xc yc m :
  x_col config = Some xc -> y_col config = Some yc ->
  min_distance config = Some m ->
  empty df = false ->
  (has_column df xc = false ->
   data_filter_points_by_distance other_distance df config =
     Raise (ValueError ("Missing column '" ++ xc ++
       "'. Ensure planar coordinates exist before calling this function."))) /\
  (has_column df xc = true -> has_column df yc = false ->
   data_filter_points_by_distance other_distance df config =
     Raise (ValueError ("Missing column '" ++ yc ++
       "'. Ensure planar coordinates exist before calling this function."))).
Proof.
  intros Hxc Hyc Hm Hne. unfold data_filter_points_by_distance.
  rewrite Hxc, Hyc, Hm. cbn [getitem bind]. rewrite Hne.
  cbn [require_columns]. split.
  - intros ->. reflexivity.
  - intros -> ->. reflexivity.
Qed.

(** X4.  The three configuration entries are read before the frame is looked at:
    a missing one is a [KeyError], also for an empty frame. *)
Theorem resampler_config_keys other_distance df config :
  (x_col config = None ->
   data_filter_points_by_distance other_distance df config
   = Raise (KeyError "x_col")) /\
  (x_col config <> None -> y_col config = None ->
   data_filter_points_by_distance other_distance df config
   = Raise (KeyError "y_col")) /\
  (x_col config <> None -> y_col config <> None ->
   min_distance config = None ->
   data_filter_points_by_distance other_distance df config
   = Raise (KeyError "min_distance")).
Proof.
  unfold data_filter_points_by_distance. repeat split.
  - intros ->. reflexivity.
  - intros Hx ->. destruct (x_col config); [reflexivity | congruence].
  - intros Hx Hy ->.
    destruct (x_col config); [| congruence].
    destruct (y_col config); [reflexivity | congruence].
Qed.

(* ===================================================================== *)
(** * Further properties of the Projector *)
(* ===================================================================== *)

Lemma transform_columns_float transform df lon lat lons lats :
  lookup lon (data df) = Some (FloatCol lons) ->
  lookup lat (data df) = Some (FloatCol lats) ->
  transform_columns transform df lon lat =
    Ok (map (fun p => fst (transform (fst p) (snd p))) (combine lons lats),
        map (fun p => snd (transform (fst p) (snd p))) (combine lons lats)).
Proof.
  intros Hlon Hlat. unfold transform_columns, getcol.
  rewrite Hlon, Hlat. cbn [bind]. now rewrite !map_map.
Qed.

(** What the Projector writes once the columns to project are chosen: the
    eastings in [x], the northings in [y] and the method in every row of
    [selected_smoothing_method]; the other columns are left as they are. *)
Lemma projector_writes (df : DataFrame) (xs ys : list float64) (method : string) :
  let out := setcol (setcol (setcol df "x" (FloatCol xs)) "y" (FloatCol ys))
                    "selected_smoothing_method"
                    (ObjectCol (repeat method (index df))) in
  index out = index df /\
  lookup "x" (data out) = Some (FloatCol xs) /\
  lookup "y" (data out) = Some (FloatCol ys) /\
  lookup "selected_smoothing_method" (data out)
    = Some (ObjectCol (repeat method (index df))) /\
  forall col, col <> "x" -> col <> "y" ->
    col <> "selected_smoothing_method" ->
    lookup col (data out) = lookup col (data df).
Proof.
  cbv zeta. split; [reflexivity |].
  split.
  { rewrite !lookup_setcol_ne by discriminate. apply lookup_setcol_eq. }
  split.
  { rewrite lookup_setcol_ne by discriminate. apply lookup_setcol_eq. }
  split; [apply lookup_setcol_eq |].
  intros col H1 H2 H3. now rewrite !lookup_setcol_ne.
Qed.

(** X5.  Without a smoothed latitude column the Projector projects the raw
    columns that the configuration names and records the method [none]. *)
Theorem projector_raw_columns ask_user transform df config lat lon lats lons :
  filter (startswith "GPS_lat_smooth_") (columns df) = [] ->
  lat_col config = Some lat -> lon_col config = Some lon ->
  lookup lat (data df) = Some (FloatCol lats) ->
  lookup lon (data df) = Some (FloatCol lons) ->
  exists out,
    data_convert_to_planar ask_user transform df config = Ok out /\
    index out = index df /\
    lookup "x" (data out)
      = Some (FloatCol (map (fun p => fst (transform (fst p) (snd p)))
                            (combine lons lats))) /\
    lookup "y" (data out)
      = Some (FloatCol (map (fun p => snd (transform (fst p) (snd p)))
                            (combine lons lats))) /\
    lookup "selected_smoothing_method" (data out)
      = Some (ObjectCol (repeat "none" (index df))) /\
    forall col, col <> "x" -> col <> "y" ->
      col <> "selected_smoothing_method" ->
      lookup col (data out) = lookup col (data df).
Proof.
  intros Hsm Hlat Hlon Hlats Hlons.
  unfold data_convert_to_planar, select_columns.
  rewrite Hsm, Hlat, Hlon. cbn [map getitem bind].
  rewrite (transform_columns_float transform df lon lat lons lats Hlons Hlats).
  cbn [bind fst snd]. eexists. split; [reflexivity |].
  exact (projector_writes df _ _ "none").
Qed.

(** X6.  With exactly one smoothed latitude column the Projector asks nothing: it
    projects that column and the longitude column of the same name with
    [GPS_lat] replaced by [GPS_lon], and records the text after the last
    underscore of the name as the method. *)
Theorem projector_single_variant_used
  ask_user transform df config lat lats lons :
  filter (startswith "GPS_lat_smooth_") (columns df) = [lat] ->
  lookup lat (data df) = Some (FloatCol lats) ->
  lookup (replace "GPS_lat" "GPS_lon" lat) (data df) = Some (FloatCol lons) ->
  exists out,
    data_convert_to_planar ask_user transform df config = Ok out /\
    index out = index df /\
    lookup "x" (data out)
      = Some (FloatCol (map (fun p => fst (transform (fst p) (snd p)))
                            (combine lons lats))) /\
    lookup "y" (data out)
      = Some (FloatCol (map (fun p => snd (transform (fst p) (snd p)))
                            (combine lons lats))) /\
    lookup "selected_smoothing_method" (data out)
      = Some (ObjectCol (repeat (split_last lat) (index df))) /\
    forall col, col <> "x" -> col <> "y" ->
      col <> "selected_smoothing_method" ->
      lookup col (data out) = lookup col (data df).
Proof.
  intros Hsm Hlats Hlons.
  unfold data_convert_to_planar, select_columns.
  rewrite Hsm. cbn [map bind].
  rewrite (transform_columns_float transform df _ lat lons lats Hlons Hlats).
  cbn [bind fst snd]. eexists. split; [reflexivity |].
  exact (projector_writes df _ _ (split_last lat)).
Qed.

(* ===================================================================== *)
(** * Further properties of the Smoothing Stage *)
(* ===================================================================== *)

(** X7.  Both smoothing stages ask for the two column names first: without one
    of them they raise a [KeyError] and leave the frame as it is. *)
Theorem smoothing_config_keys savgol_filter gaussian_filter1d df config :
  lat_col config = None \/ lon_col config = None ->
  data_smooth_gps_savitzky savgol_filter df config
  = (df, Raise (KeyError "Configuration must include 'lat_col' and 'lon_col'."))
  /\
  data_smooth_gps_gaussian gaussian_filter1d df config
  = (df, Raise (KeyError "Configuration must include 'lat_col' and 'lon_col'.")).
Proof.
  intros H. unfold data_smooth_gps_savitzky, data_smooth_gps_gaussian.
  destruct H as [-> | ->]; [split; reflexivity |].
  destruct (lat_col config); split; reflexivity.
Qed.

(** X8.  When the filter accepts both columns, the Savitzky-Golay stage calls it
    with a window of 51 and a polynomial order of 2, writes what it returns
    into the columns [<lat>_smooth_savitzky] and [<lon>_smooth_savitzky] and
    leaves the other columns as they are; the frame it returns is the frame
    it was given, with these columns. *)
Theorem savitzky_smoothed_columns
  savgol_filter df config lat lon clat clon slat slon :
  lat_col config = Some lat -> lon_col config = Some lon ->
  lookup lat (data df) = Some clat ->
  lookup lon (data df) = Some clon ->
  lon <> (lat ++ "_smooth_savitzky")%string ->
  savgol_filter clat 51 2 = Ok slat ->
  savgol_filter clon 51 2 = Ok slon ->
  exists out,
    data_smooth_gps_savitzky savgol_filter df config = (out, Ok out) /\
    index out = index df /\
    lookup (lon ++ "_smooth_savitzky")%string (data out)
      = Some (FloatCol slon) /\
    ((lat ++ "_smooth_savitzky")%string <> (lon ++ "_smooth_savitzky")%string ->
     lookup (lat ++ "_smooth_savitzky")%string (data out)
       = Some (FloatCol slat)) /\
    forall col, col <> (lat ++ "_smooth_savitzky")%string ->
      col <> (lon ++ "_smooth_savitzky")%string ->
      lookup col (data out) = lookup col (data df).
Proof.
  intros Hlat Hlon Hclat Hclon Hne Hs1 Hs2.
  unfold data_smooth_gps_savitzky, getcol.
  rewrite Hlat, Hlon, Hclat. cbn [bind]. rewrite Hs1.
  rewrite lookup_setcol_ne by exact Hne.
  rewrite Hclon. cbn [bind]. rewrite Hs2.
  eexists. split; [reflexivity |].
  split; [reflexivity |].
  split; [apply lookup_setcol_eq |].
  split.
  { intros H. rewrite lookup_setcol_ne by exact H. apply lookup_setcol_eq. }
  intros col H1 H2. now rewrite !lookup_setcol_ne.
Qed.

(** X9.  The Gaussian stage does the same with a standard deviation of 2 and
    the columns [<lat>_smooth_gaussian] and [<lon>_smooth_gaussian]. *)
Theorem gaussian_smoothed_columns
  gaussian_filter1d df config lat lon clat clon slat slon :
  lat_col config = Some lat -> lon_col config = Some lon ->
  lookup lat (data df) = Some clat ->
  lookup lon (data df) = Some clon ->
  lon <> (lat ++ "_smooth_gaussian")%string ->
  gaussian_filter1d clat 2 = Ok slat ->
  gaussian_filter1d clon 2 = Ok slon ->
  exists out,
    data_smooth_gps_gaussian gaussian_filter1d df config = (out, Ok out) /\
    index out = index df /\
    lookup (lon ++ "_smooth_gaussian")%string (data out)
      = Some (FloatCol slon) /\
    ((lat ++ "_smooth_gaussian")%string <> (lon ++ "_smooth_gaussian")%string ->
     lookup (lat ++ "_smooth_gaussian")%string (data out)
       = Some (FloatCol slat)) /\
    forall col, col <> (lat ++ "_smooth_gaussian")%string ->
      col <> (lon ++ "_smooth_gaussian")%string ->
      lookup col (data out) = lookup col (data df).
Proof.
  intros Hlat Hlon Hclat Hclon Hne Hs1 Hs2.
  unfold data_smooth_gps_gaussian, getcol.
  rewrite Hlat, Hlon, Hclat. cbn [bind]. rewrite Hs1.
  rewrite lookup_setcol_ne by exact Hne.
  rewrite Hclon. cbn [bind]. rewrite Hs2.
  eexists. split; [reflexivity |].
  split; [reflexivity |].
  split; [apply lookup_setcol_eq |].
  split.
  { intros H. rewrite lookup_setcol_ne by exact H. apply lookup_setcol_eq. }
  intros col H1 H2. now rewrite !lookup_setcol_ne.
Qed.

(* ===================================================================== *)
(** * Further properties of the Kinematics Estimator *)
(* ===================================================================== *)

Lemma heading_run arctan2 df config xs ys :
  lookup (get (x_col config) "x") (data df) = Some (FloatCol xs) ->
  lookup (get (y_col config) "y") (data df) = Some (FloatCol ys) ->
  data_compute_heading_from_xy arctan2 df config =
    Ok (setcol df (get (heading_col config) "heading_deg")
          (FloatCol (map normalize_heading
                       (map Float64.degrees
                            (map2 arctan2 (diff ys) (diff xs)))))).
Proof.
  intros Hx Hy. unfold data_compute_heading_from_xy, getcol.
  rewrite (lookup_has_column df _ _ Hx), (lookup_has_column df _ _ Hy).
  simpl. now rewrite Hx, Hy.
Qed.

Lemma heading_step (arctan2 : float64 -> float64 -> float64)
  (xs ys : list float64) i x0 y0 x1 y1 :
  nth_error xs i = Some x0 -> nth_error ys i = Some y0 ->
  nth_error xs (S i) = Some x1 -> nth_error ys (S i) = Some y1 ->
  nth_error (map normalize_heading
               (map Float64.degrees (map2 arctan2 (diff ys) (diff xs)))) (S i)
  = Some (normalize_heading
            (Float64.degrees (arctan2 (y1 - y0)%float (x1 - x0)%float))).
Proof.
  intros Hx0 Hy0 Hx1 Hy1. rewrite !nth_error_map.
  rewrite (nth_error_map2 _ _ _ (S i) _ _
             (diff_next ys i _ _ Hy0 Hy1) (diff_next xs i _ _ Hx0 Hx1)).
  reflexivity.
Qed.

Section HeadingOnTheAxes.

Variable arctan2 : float64 -> float64 -> float64.

(** What Annex F of C99 fixes of [atan2] on the two negative half-axes: a
    zero over a negative number is [pi] with the sign of the zero, and a
    negative number over a zero is [- pi / 2]. *)
Hypothesis arctan2_west : forall x,
  (x <? 0)%float = true ->
  arctan2 0 x = Float64.pi /\ arctan2 (-0) x = (- Float64.pi)%float.
Hypothesis arctan2_south : forall y x,
  (y <? 0)%float = true -> (x =? 0)%float = true ->
  arctan2 y x = (-0x1.921fb54442d18p+0)%float.

(** X10.  A step due west has heading 180 and a step due south heading 270. *)
Theorem heading_west_south df config xs ys :
  lookup (get (x_col config) "x") (data df) = Some (FloatCol xs) ->
  lookup (get (y_col config) "y") (data df) = Some (FloatCol ys) ->
  exists out headings,
    data_compute_heading_from_xy arctan2 df config = Ok out /\
    lookup (get (heading_col config) "heading_deg") (data out)
      = Some (FloatCol headings) /\
    forall i x0 y0 x1 y1,
      nth_error xs i = Some x0 -> nth_error ys i = Some y0 ->
      nth_error xs (S i) = Some x1 -> nth_error ys (S i) = Some y1 ->
      ((x1 - x0 = -1)%float -> (y1 - y0 =? 0)%float = true ->
       nth_error headings (S i) = Some 180%float) /\
      ((y1 - y0 = -1)%float -> (x1 - x0 =? 0)%float = true ->
       nth_error headings (S i) = Some 270%float).
Proof.
  intros Hx Hy. eexists. eexists.
  split; [exact (heading_run arctan2 df config xs ys Hx Hy) |].
  split; [apply lookup_setcol_eq |].
  intros i x0 y0 x1 y1 Hx0 Hy0 Hx1 Hy1.
  rewrite (heading_step arctan2 xs ys i x0 y0 x1 y1) by assumption.
  split.
  - intros -> Hdy.
    destruct (arctan2_west (-1)%float eq_refl) as [Hp Hn].
    destruct (eqb_zero_cases _ Hdy) as [-> | ->].
    + rewrite Hp. reflexivity.
    + rewrite Hn. reflexivity.
  - intros -> Hdx. rewrite (arctan2_south (-1)%float _ eq_refl Hdx).
    reflexivity.
Qed.

End HeadingOnTheAxes.

(** X11.  Both stages of the Kinematics Estimator check their columns first: a
    missing one is a [ValueError] that names the two columns looked for. *)
Theorem kinematics_missing_columns arctan2 df config :
  (has_column df (get (x_col config) "x") = false \/
   has_column df (get (y_col config) "y") = false ->
   data_compute_heading_from_xy arctan2 df config =
     Raise (ValueError ("Required columns '" ++ get (x_col config) "x" ++
                        "' and/or '" ++ get (y_col config) "y" ++
                        "' not found in DataFrame."))) /\
  (has_column df (get (heading_col config) "heading_deg") = false \/
   has_column df (get (dt_col config) "dt") = false ->
   data_compute_yaw_rate_from_heading df config =
     Raise (ValueError ("Required columns '" ++
                        get (heading_col config) "heading_deg" ++
                        "' and/or '" ++ get (dt_col config) "dt" ++
                        "' not found in DataFrame."))).
Proof.
  unfold data_compute_heading_from_xy, data_compute_yaw_rate_from_heading.
  split; intros [H | H]; rewrite H; cbn [negb orb]; try reflexivity;
    now rewrite orb_true_r.
Qed.

(* ===================================================================== *)
(** * Further properties of the Temporal Differencer *)
(* ===================================================================== *)

(** X12.  Without the timestamp column the stage raises a [KeyError] that names
    it, and an exception of [pd.to_datetime] is the exception of the
    stage. *)
Theorem temporal_failures to_datetime df datetime_col :
  (lookup datetime_col (data df) = None ->
   parse_time_and_compute_dt to_datetime df datetime_col
   = Raise (KeyError datetime_col)) /\
  (forall raw e,
     lookup datetime_col (data df) = Some raw -> to_datetime raw = Raise e ->
     parse_time_and_compute_dt to_datetime df datetime_col = Raise e).
Proof.
  unfold parse_time_and_compute_dt, getcol. split.
  - intros ->. reflexivity.
  - intros raw e Hraw Hparse. rewrite Hraw. cbn [bind].
    now rewrite Hparse.
Qed.

(* ===================================================================== *)
(** * The further properties on the example traces *)
(* ===================================================================== *)

Lemma resampler_keeps_first_row_witness :
  exists c',
    lookup "x" (data {| index := 1;
                        data := [("x", ObjectCol ["east"]);
                                 ("y", ObjectCol ["north"]);
                                 ("min_distance", FloatCol [1]%float)] |})
    = Some c' /\
    cell_at c' 0 = Some (ObjectCell "east").
Proof.
  destruct (resampler_keeps_first_row sample_other_distance label_trace
              (planar_config 1) "x" "y" 1
              {| index := 1;
                 data := [("x", ObjectCol ["east"]);
                          ("y", ObjectCol ["north"]);
                          ("min_distance", FloatCol [1]%float)] |})
    as (_ & _ & Hcells); try reflexivity.
  - repeat constructor.
  - apply (Hcells "x" (ObjectCol ["east"])); [discriminate | reflexivity].
Defined.

Lemma resampler_nan_threshold_witness :
  exists out,
    data_filter_points_by_distance sample_other_distance corner_trace
                                   (planar_config nan) = Ok out /\
    index out = 1 /\
    lookup "min_distance" (data out) = Some (FloatCol [nan]).
Proof.
  destruct (resampler_nan_threshold sample_other_distance corner_trace
              (planar_config nan) "x" "y" nan
              [0; 1; 1]%float [0; 0; 1]%float)
    as (out & H1 & H2 & H3 & _); try reflexivity.
  - repeat constructor.
  - exists out. auto.
Defined.

Lemma resampler_missing_column_witness :
  data_filter_points_by_distance sample_other_distance raw_trace
                                 (planar_config 1) =
    Raise (ValueError ("Missing column '" ++ "x" ++
      "'. Ensure planar coordinates exist before calling this function.")).
Proof.
  apply (resampler_missing_column sample_other_distance raw_trace
           (planar_config 1) "x" "y" 1); reflexivity.
Defined.

Lemma resampler_config_keys_witness :
  data_filter_points_by_distance sample_other_distance empty_trace bare_config
  = Raise (KeyError "x_col").
Proof.
  apply (resampler_config_keys sample_other_distance empty_trace bare_config).
  reflexivity.
Defined.

Lemma projector_raw_columns_witness :
  exists out,
    data_convert_to_planar submit_default sample_transform raw_trace
                           (planar_config 1) = Ok out /\
    lookup "x" (data out) = Some (FloatCol [13; 13.5]%float) /\
    lookup "y" (data out) = Some (FloatCol [52; 52.5]%float) /\
    lookup "selected_smoothing_method" (data out)
      = Some (ObjectCol ["none"; "none"]).
Proof.
  destruct (projector_raw_columns submit_default sample_transform raw_trace
              (planar_config 1) "GPS_lat" "GPS_lon"
              [52; 52.5]%float [13; 13.5]%float)
    as (out & H1 & _ & H3 & H4 & H5 & _); try reflexivity.
  exists out. auto.
Defined.

Lemma projector_single_variant_used_witness :
  exists out,
    data_convert_to_planar submit_default sample_transform gaussian_trace
                           (planar_config 1) = Ok out /\
    lookup "x" (data out) = Some (FloatCol [12]%float) /\
    lookup "y" (data out) = Some (FloatCol [51]%float) /\
    lookup "selected_smoothing_method" (data out)
      = Some (ObjectCol ["gaussian"]).
Proof.
  destruct (projector_single_variant_used submit_default sample_transform
              gaussian_trace (planar_config 1) "GPS_lat_smooth_gaussian"
              [51]%float [12]%float)
    as (out & H1 & _ & H3 & H4 & H5 & _); try reflexivity.
  exists out. auto.
Defined.

Lemma smoothing_config_keys_witness :
  data_smooth_gps_savitzky sample_savgol raw_trace bare_config
  = (raw_trace,
     Raise (KeyError "Configuration must include 'lat_col' and 'lon_col'."))
  /\
  data_smooth_gps_gaussian (fun c _ => sample_filter c) raw_trace bare_config
  = (raw_trace,
     Raise (KeyError "Configuration must include 'lat_col' and 'lon_col'.")).
Proof.
  apply (smoothing_config_keys sample_savgol (fun c _ => sample_filter c)
           raw_trace bare_config).
  left. reflexivity.
Defined.

Lemma savitzky_smoothed_columns_witness :
  exists out,
    data_smooth_gps_savitzky (fun c _ _ => sample_filter c) raw_trace
                             (planar_config 1) = (out, Ok out) /\
    lookup "GPS_lon_smooth_savitzky" (data out)
      = Some (FloatCol [13; 13.5]%float) /\
    lookup "GPS_lat_smooth_savitzky" (data out)
      = Some (FloatCol [52; 52.5]%float).
Proof.
  destruct (savitzky_smoothed_columns (fun c _ _ => sample_filter c) raw_trace
              (planar_config 1) "GPS_lat" "GPS_lon"
              (FloatCol [52; 52.5]%float) (FloatCol [13; 13.5]%float)
              [52; 52.5]%float [13; 13.5]%float)
    as (out & H1 & _ & H3 & H4 & _); try reflexivity.
  - discriminate.
  - exists out. split; [exact H1 |]. split; [exact H3 |].
    apply H4. discriminate.
Defined.

Lemma gaussian_smoothed_columns_witness :
  exists out,
    data_smooth_gps_gaussian (fun c _ => sample_filter c) raw_trace
                             (planar_config 1) = (out, Ok out) /\
    lookup "GPS_lon_smooth_gaussian" (data out)
      = Some (FloatCol [13; 13.5]%float) /\
    lookup "GPS_lat_smooth_gaussian" (data out)
      = Some (FloatCol [52; 52.5]%float).
Proof.
  destruct (gaussian_smoothed_columns (fun c _ => sample_filter c) raw_trace
              (planar_config 1) "GPS_lat" "GPS_lon"
              (FloatCol [52; 52.5]%float) (FloatCol [13; 13.5]%float)
              [52; 52.5]%float [13; 13.5]%float)
    as (out & H1 & _ & H3 & H4 & _); try reflexivity.
  - discriminate.
  - exists out. split; [exact H1 |]. split; [exact H3 |].
    apply H4. discriminate.
Defined.

Lemma axis_arctan2_west (x : float64) :
  (x <? 0)%float = true ->
  axis_arctan2 0 x = Float64.pi /\ axis_arctan2 (-0) x = (- Float64.pi)%float.
Proof.
  intros Hx. unfold axis_arctan2.
  rewrite (proj1 (ltb_not_nan x 0 Hx)), Hx.
  assert (Hp : (0 <? x)%float = false).
  { rewrite FloatAxioms.ltb_spec in *.
    change (Prim2SF 0) with (S754_zero false) in *. unfold SFltb in *.
    destruct (Prim2SF x) as [s | s | | s m e]; cbn [SFcompare] in *;
      try destruct s; try discriminate; reflexivity. }
  rewrite Hp. split; reflexivity.
Qed.

Lemma axis_arctan2_south (y x : float64) :
  (y <? 0)%float = true -> (x =? 0)%float = true ->
  axis_arctan2 y x = (-0x1.921fb54442d18p+0)%float.
Proof.
  intros Hy Hx. unfold axis_arctan2.
  rewrite (proj1 (ltb_not_nan y 0 Hy)), (eqb_zero_not_nan x Hx), Hy, Hx.
  assert (Hz : (y =? 0)%float = false /\ (0 <? y)%float = false).
  { rewrite FloatAxioms.ltb_spec in Hy.
    rewrite FloatAxioms.eqb_spec, FloatAxioms.ltb_spec.
    change (Prim2SF 0) with (S754_zero false) in *.
    unfold SFltb, SFeqb in *.
    destruct (Prim2SF y) as [s | s | | s m e]; cbn [SFcompare] in *;
      try destruct s; try discriminate; split; reflexivity. }
  destruct Hz as [-> ->]. reflexivity.
Qed.

Lemma heading_west_south_witness :
  exists out headings,
    data_compute_heading_from_xy axis_arctan2 return_trace (planar_config 1)
      = Ok out /\
    lookup "heading_deg" (data out) = Some (FloatCol headings) /\
    nth_error headings 1 = Some 180%float /\
    nth_error headings 2 = Some 270%float.
Proof.
  destruct (heading_west_south axis_arctan2 axis_arctan2_west
              axis_arctan2_south return_trace (planar_config 1)
              [0; -1; -1]%float [0; 0; -1]%float)
    as (out & headings & Hrun & Hlk & Hstep); try reflexivity.
  exists out, headings. split; [exact Hrun |]. split; [exact Hlk |].
  split.
  - destruct (Hstep 0 0%float 0%float (-1)%float 0%float
                eq_refl eq_refl eq_refl eq_refl) as [Hw _].
    apply Hw; reflexivity.
  - destruct (Hstep 1 (-1)%float 0%float (-1)%float (-1)%float
                eq_refl eq_refl eq_refl eq_refl) as [_ Hs].
    apply Hs; reflexivity.
Defined.

Lemma kinematics_missing_columns_witness :
  data_compute_heading_from_xy sample_arctan2 raw_trace (planar_config 1)
  = Raise (ValueError "Required columns 'x' and/or 'y' not found in DataFrame.")
  /\
  data_compute_yaw_rate_from_heading raw_trace (planar_config 1)
  = Raise (ValueError
      "Required columns 'heading_deg' and/or 'dt' not found in DataFrame.").
Proof.
  destruct (kinematics_missing_columns sample_arctan2 raw_trace
              (planar_config 1)) as [H1 H2].
  split; [apply H1 | apply H2]; left; reflexivity.
Defined.

Lemma temporal_failures_witness :
  parse_time_and_compute_dt sample_to_datetime raw_trace "DatumZeit"
  = Raise (KeyError "DatumZeit") /\
  parse_time_and_compute_dt sample_to_datetime raw_trace "GPS_lat"
  = Raise (ValueError "Unknown datetime string format").
Proof.
  destruct (temporal_failures sample_to_datetime raw_trace "DatumZeit")
    as [H1 _].
  destruct (temporal_failures sample_to_datetime raw_trace "GPS_lat")
    as [_ H2].
  split; [apply H1; reflexivity |].
  apply (H2 (FloatCol [52; 52.5]%float)); reflexivity.
Defined.

(* ===================================================================== *)
(** * Outlier removal *)
(* ===================================================================== *)

Lemma true_positions_In (mask : list bool) : forall s i,
  In i (true_positions s mask) <->
  s <= i /\ nth_error mask (i - s) = Some true.
Proof.
  induction mask as [| b mask IH]; intros s i; cbn [true_positions].
  - split; [contradiction |]. intros [_ H]. destruct (i - s); discriminate.
  - assert (Hrest : In i (true_positions (S s) mask) <->
                    s < i /\ nth_error (b :: mask) (i - s) = Some true).
    { rewrite IH. split; intros [H1 H2]; (split; [lia |]).
      - replace (i - s) with (S (i - S s)) by lia. exact H2.
      - replace (i - s) with (S (i - S s)) in H2 by lia. exact H2. }
    destruct b; cbn [In]; rewrite Hrest.
    + split.
      * intros [<- | [H1 H2]]; [| split; [lia | exact H2]].
        split; [lia |]. now rewrite Nat.sub_diag.
      * intros [H1 H2]. destruct (Nat.eq_dec s i) as [E | E]; [now left |].
        right. split; [lia | exact H2].
    + split.
      * intros [H1 H2]. split; [lia | exact H2].
      * intros [H1 H2]. destruct (Nat.eq_dec s i) as [<- | E].
        -- rewrite Nat.sub_diag in H2. discriminate.
        -- split; [lia | exact H2].
Qed.

Lemma true_positions_sorted (mask : list bool) : forall s,
  StronglySorted lt (true_positions s mask).
Proof.
  induction mask as [| b mask IH]; intros s; cbn [true_positions];
    [constructor |].
  destruct b; [| apply IH].
  constructor; [apply IH |].
  apply Forall_forall. intros i Hi. apply true_positions_In in Hi. lia.
Qed.

Lemma true_positions_range (mask : list bool) i :
  In i (true_positions 0 mask) -> i < length mask.
Proof.
  intros H. apply true_positions_In in H. destruct H as [_ H].
  rewrite Nat.sub_0_r in H. apply nth_error_Some. congruence.
Qed.

Lemma mask_and_nth (f g : float64 -> bool) (v : list float64) i :
  nth_error (mask_and (map f v) (map g v)) i
  = option_map (fun y => f y && g y) (nth_error v i).
Proof.
  unfold mask_and. rewrite nth_error_map.
  revert i. induction v as [| y v IH]; intros [| i]; cbn; try reflexivity.
  apply IH.
Qed.

(** X13.  The outlier filter keeps the rows whose yaw rate lies between -3 and 3,
    both included, in their order, and no other row: a row whose yaw rate is
    NaN or an infinity is removed. *)
Theorem outliers_removed df yaw :
  well_formed df ->
  lookup "yaw_rate_deg_s" (data df) = Some (FloatCol yaw) ->
  exists idxs out,
    delete_outliers df = Ok out /\
    StronglySorted lt idxs /\
    (forall i, In i idxs <->
       exists y, nth_error yaw i = Some y /\
                 ((-3 <=? y) && (y <=? 3))%float = true) /\
    index out = length idxs /\
    (forall col c, lookup col (data df) = Some c ->
       exists c', lookup col (data out) = Some c' /\
                  col_length c' = length idxs /\
                  forall k, k < length idxs ->
                    cell_at c' k = cell_at c (nth k idxs 0)) /\
    (forall kept, lookup "yaw_rate_deg_s" (data out) = Some (FloatCol kept) ->
       Forall (fun y => ((-3 <=? y) && (y <=? 3))%float = true) kept).
Proof.
  intros Hwf Hy.
  set (mask := mask_and (map (fun y => Float64.geb y (-3)) yaw)
                        (map (fun y => (y <=? 3)%float) yaw)).
  assert (Hin : forall i, In i (true_positions 0 mask) <->
            exists y, nth_error yaw i = Some y /\
                      ((-3 <=? y) && (y <=? 3))%float = true).
  { intros i. rewrite true_positions_In, Nat.sub_0_r. unfold mask.
    rewrite mask_and_nth. unfold Float64.geb.
    destruct (nth_error yaw i) as [y |]; cbn [option_map].
    - split.
      + intros [_ [= H]]. eauto.
      + intros [y' [[= <-] H]]. split; [lia | now rewrite H].
    - split; [intros [_ H]; discriminate | intros [y' [H _]]; discriminate]. }
  assert (Hrg : forall i, In i (true_positions 0 mask) -> i < index df).
  { intros i Hi. apply Hin in Hi. destruct Hi as [y [Hi _]].
    rewrite <- (lookup_well_formed df _ _ Hwf Hy). cbn [col_length].
    apply nth_error_Some. congruence. }
  exists (true_positions 0 mask), (select_rows df (true_positions 0 mask)).
  split.
  { unfold delete_outliers, getcol. rewrite Hy. reflexivity. }
  split; [apply true_positions_sorted |].
  split; [exact Hin |].
  split; [reflexivity |].
  split.
  { intros col c Hc. exists (take_col (true_positions 0 mask) c).
    split; [now rewrite lookup_select_rows, Hc |].
    split; [apply col_length_take_col |].
    intros k Hk. apply cell_at_take_col; trivial.
    rewrite (lookup_well_formed df col c Hwf Hc).
    apply Hrg. now apply nth_In. }
  intros kept Hkept. rewrite lookup_select_rows, Hy in Hkept.
  cbn [option_map take_col] in Hkept. injection Hkept as <-.
  apply Forall_forall. intros y Hyin. unfold take in Hyin.
  apply in_map_iff in Hyin. destruct Hyin as [i [<- Hi]].
  apply Hin in Hi. destruct Hi as [y [Hn Hw]].
  now rewrite (nth_error_nth _ _ _ Hn).
Qed.

Lemma outliers_removed_witness :
  exists out,
    delete_outliers yaw_trace = Ok out /\
    index out = 2 /\
    lookup "yaw_rate_deg_s" (data out) = Some (FloatCol [0.5; -3]%float).
Proof.
  destruct (outliers_removed yaw_trace [0.5; 7; nan; -3; infinity]%float)
    as (idxs & out & Hrun & _).
  - repeat constructor.
  - reflexivity.
  - exists out. split; [exact Hrun |].
    assert (E : Ok out = Ok (select_rows yaw_trace [0; 3]))
      by (rewrite <- Hrun; reflexivity).
    injection E as ->. split; reflexivity.
Defined.
